(** * shore.plugins.setuptools: a shallow embedding and its properties

    The plugin generates [setup.py] and [MANIFEST.in] and drives the
    [sdist] build.  Python [str] values are modelled as lists of
    characters, integers as [Z], and the effectful parts (the file object
    written to, the file system, the build subprocess) by explicit state
    passing with an error result. *)

From Stdlib Require Import Ascii String DecimalString ZArith Lia Bool Arith List.
Import ListNotations.


(** ** Python strings *)

Module PyStr.

Definition str := list ascii.

(** A literal of the source, written as a Rocq string. *)
Definition lit (s : string) : str := list_ascii_of_string s.

Definition len (s : str) : Z := Z.of_nat (length s).

(** [s.startswith(p)] *)
Fixpoint startswith (s p : str) {struct p} : bool :=
  match p, s with
  | [], _ => true
  | _ :: _, [] => false
  | a :: p', b :: s' => Ascii.eqb a b && startswith s' p'
  end.

(** Left-to-right scan for the first position at which [sub] starts. *)
Fixpoint find_go (sub s : str) (i : nat) : option nat :=
  if startswith s sub then Some i
  else match s with
       | [] => None
       | _ :: s' => find_go sub s' (S i)
       end.

(** Python clamps a slice or search index: a negative index counts from
    the end, and never goes below zero. *)
Definition norm_index (n : nat) (i : Z) : nat :=
  if (i <? 0)%Z then Z.to_nat (Z.max 0 (i + Z.of_nat n)) else Z.to_nat i.

(** [s.find(sub, start)]: the lowest index [>= start] where [sub] occurs,
    or [-1]. *)
Definition find (s sub : str) (start : Z) : Z :=
  let i := norm_index (length s) start in
  if (length s <? i)%nat then (-1)%Z
  else match find_go sub (skipn i s) i with
       | Some k => Z.of_nat k
       | None => (-1)%Z
       end.

(** [s[a:b]], [s[:b]] and [s[a:]] *)
Definition slice (s : str) (a b : Z) : str :=
  let a' := Nat.min (norm_index (length s) a) (length s) in
  let b' := Nat.min (norm_index (length s) b) (length s) in
  firstn (b' - a') (skipn a' s).

Definition slice_to (s : str) (b : Z) : str := slice s 0 b.

Definition slice_from (s : str) (a : Z) : str :=
  skipn (Nat.min (norm_index (length s) a) (length s)) s.

(** [sub in s] *)
Definition contains (sub s : str) : bool :=
  match find_go sub s 0 with Some _ => true | None => false end.

(** [sep.join(parts)] *)
Fixpoint join (sep : str) (parts : list str) : str :=
  match parts with
  | [] => []
  | [p] => p
  | p :: rest => p ++ sep ++ join sep rest
  end.

(** [s.replace(old, new)] for a non-empty [old]: occurrences are taken
    left to right and do not overlap.  [skip] counts the characters of the
    occurrence just replaced that are still to be passed over. *)
Fixpoint replace_go (old new : str) (skip : nat) (s : str) : str :=
  match s with
  | [] => []
  | c :: s' =>
      match skip with
      | S k => replace_go old new k s'
      | O => if startswith s old
             then new ++ replace_go old new (length old - 1) s'
             else c :: replace_go old new 0 s'
      end
  end.

(** With an empty [old], Python puts [new] before every character and at
    the end. *)
Fixpoint interleave (new s : str) : str :=
  match s with
  | [] => new
  | c :: s' => new ++ c :: interleave new s'
  end.

Definition replace (s old new : str) : str :=
  match old with
  | [] => interleave new s
  | _ :: _ => replace_go old new 0 s
  end.

(** [str.isspace] on one character (code points below 256). *)
Definition isspace (c : ascii) : bool :=
  let n := nat_of_ascii c in
  ((9 <=? n) && (n <=? 13)) || ((28 <=? n) && (n <=? 32))
  || (n =? 133) || (n =? 160).

Fixpoint lstrip (s : str) : str :=
  match s with
  | c :: s' => if isspace c then lstrip s' else s
  | [] => []
  end.

Definition rstrip (s : str) : str := rev (lstrip (rev s)).

(** [s.strip()] *)
Definition strip (s : str) : str := rstrip (lstrip s).

(** [a == b] *)
Definition str_eqb (a b : str) : bool :=
  if list_eq_dec ascii_dec a b then true else false.

(** [sub] occurs in [s] at index [k]. *)
Definition occurs_at (sub : str) (k : nat) (s : str) : Prop :=
  exists a b, s = a ++ sub ++ b /\ length a = k.

(** No occurrence of [sub] in [s] starts at an index from [lo] up to, but
    not including, [hi]. *)
Definition absent_between (sub : str) (lo hi : nat) (s : str) : bool :=
  forallb (fun k => negb (startswith (skipn k s) sub)) (seq lo (hi - lo)).

(** Of two texts laid side by side from the same index, one is a prefix
    of the other. *)
Fixpoint compat (a b : str) : bool :=
  match a, b with
  | c :: a', c' :: b' => Ascii.eqb c c' && compat a' b'
  | _, _ => true
  end.

(** No occurrence of [x] and occurrence of [y] in one text can share a
    character: whichever way one is laid over the other, they differ on
    what they share. *)
Definition never_overlap (x y : str) : bool :=
  forallb (fun d => negb (compat (skipn d x) y)) (seq 0 (length x))
  && forallb (fun d => negb (compat (skipn d y) x)) (seq 0 (length y)).

End PyStr.

Import PyStr.

(** ** Results and exceptions *)

Module Effects.

(** The exception classes the code raises or lets through. *)
Inductive exn : Type :=
| RuntimeError (msg : str)
| AttributeError (msg : str)
| KeyError (key : str)
| OSError (msg : str)
| Exception (msg : str).

Inductive result (A : Type) : Type :=
| Ok (a : A)
| Raise (e : exn).

Arguments Ok {A} a.
Arguments Raise {A} e.

(** A computation that writes to the file object [fp]: the text it wrote
    and how it ended.  [fp] is only ever written to, never read back. *)
Definition Fp (A : Type) : Type := (str * result A)%type.

Definition fp_ret {A} (a : A) : Fp A := ([], Ok a).

(** An exception ends the computation; what was written stays written. *)
Definition fp_bind {A B} (m : Fp A) (k : A -> Fp B) : Fp B :=
  match m with
  | (out, Ok a) => let '(out', r) := k a in (out ++ out', r)
  | (out, Raise e) => (out, Raise e)
  end.

(** [fp.write(text)] *)
Definition write (text : str) : Fp unit := (text, Ok tt).

Definition written {A} (m : Fp A) : str := fst m.
Definition outcome {A} (m : Fp A) : result A := snd m.

End Effects.

Import Effects.

Notation "m ;;; k" := (fp_bind m (fun _ => k))
  (at level 61, right associativity).

Definition nl : str := [ascii_of_nat 10].

(** ** Section markers *)

Module Sections.

Local Open Scope Z_scope.

(** [split_section(data, begin_marker, end_marker)] *)
Definition split_section (data begin_marker end_marker : str)
  : str * str * str :=
  let start := find data begin_marker 0 in
  let end_ := find data end_marker start in
  if (0 <=? start) && (0 <=? end_) then
    let prefix := slice_to data start in
    let middle := slice data (start + len begin_marker) end_ in
    let suffix := slice_from data (end_ + len end_marker + 1) in
    (prefix, middle, suffix)
  else (data, [], []).

(** The split as the specification words it: the prefix ends at the first
    begin marker, the middle runs from the end of that marker to the next
    end marker after it, the suffix is what follows the end marker less
    one character; without one of the markers the whole text is the
    prefix. *)
Definition split_as_claimed (data b e : str) (r : str * str * str) : Prop :=
  ((exists k, occurs_at b k data) /\ (exists k, occurs_at e k data) ->
   let '(p, m, s) := r in
   exists t, data = p ++ b ++ m ++ e ++ t /\ s = skipn 1 t /\
     (forall k, (k < length p)%nat -> ~ occurs_at b k data) /\
     (forall k, (length (p ++ b) <= k < length (p ++ b ++ m))%nat ->
                ~ occurs_at e k data))
  /\ ((forall k, ~ occurs_at b k data) \/ (forall k, ~ occurs_at e k data) ->
      r = (data, [], [])).

(** [rewrite_section] is a generator turned into a context manager: the
    body of the [with] statement runs at the [yield].  The generator has no
    [try]/[finally], so an exception of the body, thrown into it at the
    [yield], leaves it at once: the statements after the [yield] run only
    when the body returns. *)
Definition rewrite_section (data begin_marker end_marker : str)
    (body : Fp unit) : Fp unit :=
  let '(prefix, _, suffix) := split_section data begin_marker end_marker in
  write prefix ;;;
  write (begin_marker ++ nl) ;;;
  body ;;;
  write (end_marker ++ nl) ;;;
  write suffix.

End Sections.

Import Sections.

(** ** The manifest *)

Module Manifest.

Definition _BEGIN_SECTION : str :=
  lit "# Auto-generated with shore. Do not edit. {".
Definition _END_SECTION : str := lit "# }".

(** Both markers open with this character and have it nowhere else. *)
Definition hash : ascii := "#"%char.

(** The loop [for entry in package.manifest: fp.write('{}\n'.format(entry))] *)
Fixpoint write_entries (manifest : list str) : Fp unit :=
  match manifest with
  | [] => fp_ret tt
  | entry :: rest => write (entry ++ nl) ;;; write_entries rest
  end.

(** The text that loop writes: every entry followed by a newline. *)
Definition entry_lines (manifest : list str) : str :=
  flat_map (fun entry => entry ++ nl) manifest.

(** [_render_manifest(current, fp, package)]; [current] is [None] when the
    file does not exist yet. *)
Definition _render_manifest (current : option str) (manifest : list str)
  : Fp unit :=
  rewrite_section (match current with Some text => text | None => [] end)
    _BEGIN_SECTION _END_SECTION (write_entries manifest).

(** The text of [MANIFEST.in] after a render. *)
Definition render (current : str) (manifest : list str) : str :=
  written (_render_manifest (Some current) manifest).

End Manifest.

(** ** The description of [setup()] *)

Module Description.

(** [package.description.replace('\n\n', '%%%%').replace('\n', ' ')
      .replace('%%%%', '\n').strip()] *)
Definition sentinel : str := lit "%%%%".

Definition unwrap (description : str) : str :=
  replace (replace (replace description (nl ++ nl) sentinel) nl (lit " "))
    sentinel nl.

Definition render_description (description : str) : str :=
  strip (unwrap description).

Definition nl_c : ascii := ascii_of_nat 10.
Definition pct : ascii := "%"%char.
Definition space : ascii := " "%char.

(** What [replace('\n', ' ')] does to one character. *)
Definition nl_to_space (c : ascii) : ascii :=
  if Ascii.eqb nl_c c then space else c.

(** What the three replacements amount to, written as one pass over the
    text: a pair of newlines becomes one newline, any other newline a
    space. *)
Fixpoint fold_lines (s : str) : str :=
  match s with
  | [] => []
  | c :: s' =>
      if Ascii.eqb c nl_c then
        match s' with
        | c' :: s'' =>
            if Ascii.eqb c' nl_c then nl_c :: fold_lines s''
            else space :: fold_lines s'
        | [] => [space]
        end
      else c :: fold_lines s'
  end.

End Description.

(** ** [repr] and [str] of Python values *)

Module PyRepr.

Definition squote : ascii := ascii_of_nat 39.
Definition dquote : ascii := ascii_of_nat 34.
Definition backslash : ascii := ascii_of_nat 92.

Definition hexdigit (n : nat) : ascii :=
  if n <? 10 then ascii_of_nat (48 + n) else ascii_of_nat (87 + n).

(** [str.isprintable] on one character (code points below 256). *)
Definition isprintable (c : ascii) : bool :=
  let n := nat_of_ascii c in
  ((32 <=? n) && (n <=? 126))
  || ((161 <=? n) && negb (n =? 173)).

(** One character of a string inside [repr]'s quotes. *)
Definition repr_char (quote : ascii) (c : ascii) : str :=
  let n := nat_of_ascii c in
  if Ascii.eqb c quote || Ascii.eqb c backslash then [backslash; c]
  else if n =? 9 then backslash :: lit "t"
  else if n =? 10 then backslash :: lit "n"
  else if n =? 13 then backslash :: lit "r"
  else if isprintable c then [c]
  else backslash :: lit "x" ++ [hexdigit (n / 16); hexdigit (n mod 16)].

(** [repr(s)] of a [str]: single quotes, unless the string has a single
    quote and no double quote. *)
Definition repr (s : str) : str :=
  let quote :=
    if existsb (Ascii.eqb squote) s && negb (existsb (Ascii.eqb dquote) s)
    then dquote else squote in
  quote :: flat_map (repr_char quote) s ++ [quote].

Definition all_ascii : list ascii := map ascii_of_nat (seq 0 256).

(** A character is either written by [repr] as it is, or as an escape that
    opens with a backslash and has no [h] in it. *)
Definition repr_char_ok (h quote c : ascii) : bool :=
  str_eqb (repr_char quote c) [c]
  || match repr_char quote c with
     | b :: r => Ascii.eqb b backslash && negb (existsb (Ascii.eqb h) r)
     | [] => false
     end.

(** [str(n)] of a non-negative [int]. *)
Definition str_of_nat (n : nat) : str :=
  lit (NilZero.string_of_uint (Nat.to_uint n)).

End PyRepr.

Import PyRepr.

(** ** Regular expressions

    The part of [re] the two version patterns need: literal characters,
    [\s], [.], character sets, one capturing group, and the greedy
    repetitions [*] and [+] of a single character. *)

Module Regex.

Inductive cset : Type :=
| CLit (c : ascii)
| CAny
| CSpace
| CIn (l : list ascii)
| CNotIn (l : list ascii).

Inductive node : Type :=
| One (c : cset)
| Star (c : cset)
| Plus (c : cset)
| GroupOpen
| GroupClose.

Definition regex := list node.

Definition is_char (s : string) (c : ascii) : bool :=
  match s with
  | String a EmptyString => Ascii.eqb a c
  | _ => false
  end.

Definition is_alnum (c : ascii) : bool :=
  let n := nat_of_ascii c in
  ((48 <=? n) && (n <=? 57)) || ((65 <=? n) && (n <=? 90))
  || ((97 <=? n) && (n <=? 122)).

(** The members of a set, up to its closing bracket. *)
Fixpoint parse_set (p : str) (acc : list ascii)
  : option (list ascii * str) :=
  match p with
  | [] => None
  | c :: p' =>
      if is_char "]" c then
        match acc with [] => None | _ => Some (rev acc, p') end
      else if Ascii.eqb c backslash || is_char "-" c || is_char "[" c
      then None
      else parse_set p' (c :: acc)
  end.

(** One character-matching item at the head of a pattern. *)
Definition parse_atom (p : str) : option (cset * str) :=
  match p with
  | [] => None
  | c :: p1 =>
      if Ascii.eqb c backslash then
        match p1 with
        | x :: p2 =>
            if is_char "s" x then Some (CSpace, p2)
            else if is_alnum x then None
            else Some (CLit x, p2)
        | [] => None
        end
      else if is_char "." c then Some (CAny, p1)
      else if is_char "[" c then
        match p1 with
        | x :: p2 =>
            if is_char "^" x then
              match parse_set p2 [] with
              | Some (l, r) => Some (CNotIn l, r)
              | None => None
              end
            else
              match parse_set p1 [] with
              | Some (l, r) => Some (CIn l, r)
              | None => None
              end
        | [] => None
        end
      else if is_char "*" c || is_char "+" c || is_char "?" c
              || is_char "{" c || is_char "|" c || is_char "^" c
              || is_char "$" c || is_char "(" c || is_char ")" c
      then None
      else Some (CLit c, p1)
  end.

Fixpoint parse (fuel : nat) (p : str) : option regex :=
  match p with
  | [] => Some []
  | c :: p1 =>
      match fuel with
      | O => None
      | S fuel' =>
          if is_char "(" c then option_map (cons GroupOpen) (parse fuel' p1)
          else if is_char ")" c
          then option_map (cons GroupClose) (parse fuel' p1)
          else
            match parse_atom p with
            | None => None
            | Some (cs, p2) =>
                match p2 with
                | q :: p3 =>
                    if is_char "*" q
                    then option_map (cons (Star cs)) (parse fuel' p3)
                    else if is_char "+" q
                    then option_map (cons (Plus cs)) (parse fuel' p3)
                    else option_map (cons (One cs)) (parse fuel' p2)
                | [] => Some [One cs]
                end
            end
      end
  end.

Definition is_group_open (n : node) : bool :=
  match n with GroupOpen => true | _ => false end.

(** [re.compile(pattern)]; [None] for a pattern outside the modelled part. *)
Definition compile (pattern : str) : option regex :=
  match parse (length pattern) pattern with
  | Some re =>
      if length (filter is_group_open re) <=? 1 then Some re else None
  | None => None
  end.

Definition cset_match (cs : cset) (a : ascii) : bool :=
  match cs with
  | CLit c => Ascii.eqb c a
  | CAny => negb (nat_of_ascii a =? 10)
  | CSpace => isspace a
  | CIn l => existsb (Ascii.eqb a) l
  | CNotIn l => negb (existsb (Ascii.eqb a) l)
  end.

(** How many leading characters of [s] the set matches. *)
Fixpoint run_length (cs : cset) (s : str) : nat :=
  match s with
  | a :: s' => if cset_match cs a then S (run_length cs s') else 0
  | [] => 0
  end.

(** Greedy repetition backtracks from the longest run down to [lo]. *)
Fixpoint try_down {R : Type} (lo : nat) (f : nat -> option R) (k : nat)
  : option R :=
  if k <? lo then None
  else match f k with
       | Some r => Some r
       | None => match k with
                 | O => None
                 | S k' => try_down lo f k'
                 end
       end.

(** A match object: the span of the whole match and of group 1. *)
Record Match : Type := {
  m_start : nat;
  m_end : nat;
  g_start : option nat;
  g_end : option nat
}.

(** Match [re] at the head of [s], which is at index [pos] of the text. *)
Fixpoint match_here (re : regex) (s : str) (pos : nat)
    (gs ge : option nat) : option (nat * option nat * option nat) :=
  match re with
  | [] => Some (pos, gs, ge)
  | GroupOpen :: re' => match_here re' s pos (Some pos) ge
  | GroupClose :: re' => match_here re' s pos gs (Some pos)
  | One cs :: re' =>
      match s with
      | a :: s' =>
          if cset_match cs a then match_here re' s' (S pos) gs ge else None
      | [] => None
      end
  | Star cs :: re' =>
      try_down 0 (fun k => match_here re' (skipn k s) (pos + k) gs ge)
        (run_length cs s)
  | Plus cs :: re' =>
      try_down 1 (fun k => match_here re' (skipn k s) (pos + k) gs ge)
        (run_length cs s)
  end.

Fixpoint search_from (re : regex) (s : str) (pos : nat) : option Match :=
  match match_here re s pos None None with
  | Some (e, gs, ge) =>
      Some {| m_start := pos; m_end := e; g_start := gs; g_end := ge |}
  | None =>
      match s with
      | [] => None
      | _ :: s' => search_from re s' (S pos)
      end
  end.

(** [re.search(pattern, text)]: [Ok None] is Python's [None]. *)
Definition re_search (pattern text : str) : result (option Match) :=
  match compile pattern with
  | Some re => Ok (search_from re text 0)
  | None => Raise (Exception (lit "pattern outside the modelled part of re"))
  end.

(** [match.group(1)] read off the searched text. *)
Definition group1 (text : str) (m : Match) : option str :=
  match g_start m, g_end m with
  | Some a, Some b => Some (firstn (b - a) (skipn a text))
  | _, _ => None
  end.

End Regex.

Import Regex.

(** ** The operating system

    What the plugin asks of the file system and of the build subprocess.
    [W] is the state of the world; every call may fail with an exception
    and may change the world. *)

Module OSModel.

Class OS (W : Type) : Type := {
  path_exists : W -> str -> bool;       (* os.path.exists *)
  path_isfile : W -> str -> bool;       (* os.path.isfile *)
  read_text : W -> str -> result str;   (* open(path).read() *)
  os_remove : str -> W -> result unit * W;
  os_rename : str -> str -> W -> result unit * W;
  shutil_rmtree : str -> W -> result unit * W;
  subprocess_call : list str -> str -> W -> result Z * W
}.

(** [posixpath.join(a, b)] *)
Definition path_join (a b : str) : str :=
  if startswith b (lit "/") then b
  else match a with
       | [] => b
       | _ => if startswith (rev a) (lit "/") then a ++ b
              else a ++ lit "/" ++ b
       end.

(** The calls that change the world, in the order they were made. *)
Inductive syscall : Type :=
| Call (args : list str) (cwd : str)
| Remove (path : str)
| Rename (src dst : str)
| Rmtree (path : str).

Definition is_rmtree (ev : syscall) : bool :=
  match ev with Rmtree _ => true | _ => false end.

(** A computation over the world that keeps the log of its calls. *)
Definition M (W A : Type) : Type :=
  W * list syscall -> result A * (W * list syscall).

Definition ret {W A} (a : A) : M W A := fun st => (Ok a, st).

Definition raise {W A} (e : exn) : M W A := fun st => (Raise e, st).

Definition bind {W A B} (m : M W A) (k : A -> M W B) : M W B :=
  fun st => match m st with
            | (Ok a, st') => k a st'
            | (Raise e, st') => (Raise e, st')
            end.

(** A query of the world. *)
Definition ask {W A} (q : W -> A) : M W A := fun st => (Ok (q (fst st)), st).

(** A call that changes the world; it is logged also when it fails. *)
Definition perform {W A} (ev : syscall) (op : W -> result A * W) : M W A :=
  fun st => let '(r, w') := op (fst st) in (r, (w', snd st ++ [ev])).

End OSModel.

Import OSModel.

Notation "x <- m ;; k" := (bind m (fun x => k))
  (at level 62, m at next level, right associativity).
Notation "m ;; k" := (bind m (fun _ => k))
  (at level 62, right associativity).

(** ** Version references *)

Module Version.

Record VersionRef : Type := {
  filename : str;
  vstart : nat;
  vend : nat;
  value : str
}.

(** [SetuptoolsRenderer._VERSION_REGEX] *)
Definition _VERSION_REGEX : str :=
  lit "__version__\s*=\s*['" ++ [dquote] ++ lit "]([^'" ++ [dquote]
  ++ lit "]+)['" ++ [dquote] ++ lit "]".

(** [get_package_version_refs], with the entry file of the package given;
    the result is the list of what the generator yields. *)
Definition get_package_version_refs {W} `{OS W} (w : W) (entry_file : str)
  : result (list VersionRef) :=
  if negb (path_isfile w entry_file) then Ok []
  else
    match read_text w entry_file with
    | Raise e => Raise e
    | Ok text =>
        match re_search _VERSION_REGEX text with
        | Raise e => Raise e
        | Ok None => Ok []
        | Ok (Some m) =>
            match g_start m, g_end m, group1 text m with
            | Some a, Some b, Some v =>
                Ok [ {| filename := entry_file; vstart := a; vend := b;
                        value := v |} ]
            | _, _, _ => Raise (Exception (lit "group 1 did not take part"))
            end
        end
    end.

(** The pattern inside the raw string literal that [_render_setup] writes
    into [setup.py]. *)
Definition setup_version_pattern : str := lit "__version__\s*=\s*'(.*)'".

(** The version helper [_render_setup] writes, after [textwrap.dedent] and
    [format]; [entrypoint_file] is [_normpath(entry_file)]. *)
Definition render_version_helper (entrypoint_file : str) : str :=
  nl ++ lit "with io.open(" ++ repr entrypoint_file
  ++ lit ", encoding='utf8') as fp:" ++ nl
  ++ lit "  version = re.search(r" ++ [dquote] ++ setup_version_pattern
  ++ [dquote] ++ lit ", fp.read()).group(1)" ++ nl.

(** What the generated helper computes when [setup.py] runs, on the text
    it read from the entry file: [re.search(...)] and then [.group(1)],
    which fails on [None]. *)
Definition setup_version (text : str) : result str :=
  match re_search setup_version_pattern text with
  | Raise e => Raise e
  | Ok None =>
      Raise (AttributeError
               (lit "'NoneType' object has no attribute 'group'"))
  | Ok (Some m) =>
      match group1 text m with
      | Some v => Ok v
      | None => Raise (Exception (lit "group 1 did not take part"))
      end
  end.

(** The value the scanner found, when it found one. *)
Definition scanned_value (r : result (list VersionRef)) : option str :=
  match r with
  | Ok (ref :: _) => Some (value ref)
  | _ => None
  end.

End Version.

(** ** Entry points *)

Module Entrypoints.

(** [SetuptoolsRenderer._ENTRTYPOINT_VARS], in the order of the literal. *)
Definition _ENTRTYPOINT_VARS : list (str * str) :=
  [ (lit "python-major-version", lit "sys.version[0]");
    (lit "python-major-minor-version", lit "sys.version[:3]") ].

(** The two placeholders as they stand in a spec, braces doubled. *)
Definition tok1 : str := lit "{{python-major-version}}".
Definition tok2 : str := lit "{{python-major-minor-version}}".

(** One round of the loop over [_ENTRTYPOINT_VARS]. *)
Definition subst_var (st : str * list str) (v : str * str)
  : str * list str :=
  let '(item, args) := st in
  let varname := lit "{{" ++ fst v ++ lit "}}" in
  if contains varname item
  then (replace item varname
          (lit "{" ++ str_of_nat (length args) ++ lit "}"),
        args ++ [snd v])
  else (item, args).

(** The text of one spec, before it is indented and added to [lines]. *)
Definition format_item (item : str) : str :=
  let '(item, args) := fold_left subst_var _ENTRTYPOINT_VARS (repr item, []) in
  match args with
  | [] => item
  | _ => item ++ lit ".format(" ++ join (lit ", ") args ++ lit ")"
  end.

Definition render_item (item : str) : str :=
  lit "      " ++ strip (format_item item) ++ lit ",".

Definition render_group (kv : str * list str) : list str :=
  [lit "    " ++ repr (fst kv) ++ lit ": ["]
  ++ map render_item (snd kv)
  ++ [lit "    ],"].

(** [lines[-1] = lines[-1][:-1]] *)
Definition chop_last_line (lines : list str) : list str :=
  match lines with
  | [] => []
  | _ => removelast lines ++ [removelast (last lines [])]
  end.

(** [_render_entrypoints(entrypoints)]; the dict is given as the list of
    its items in insertion order. *)
Definition _render_entrypoints (entrypoints : list (str * list str)) : str :=
  match entrypoints with
  | [] => lit "{}"
  | _ =>
      let lines := lit "{" :: flat_map render_group entrypoints in
      join nl (chop_last_line lines ++ [lit "  }"])
  end.

End Entrypoints.

(** ** The build target *)

Module Build.

Inductive BuildResult : Type := SUCCESS | FAILURE.

(** The fields of [shore.model.Package] that the build target reads. *)
Record Package : Type := {
  name : str;
  version : str;
  directory : str
}.

Record SetuptoolsBuildTarget : Type := {
  build_type : str;
  formats : list str;
  package : Package
}.

(** [SetuptoolsBuildTarget.__init__] *)
Definition init (build_type : str) (package : Package)
  : SetuptoolsBuildTarget :=
  {| build_type := build_type; formats := [lit "gztar"];
     package := package |}.

Definition _FORMATS_MAP : list (str * str) :=
  [ (lit "zip", lit ".zip");
    (lit "gztar", lit ".tar.gz");
    (lit "bztar", lit ".tar.bz2");
    (lit "ztar", lit ".tar.Z");
    (lit "tar", lit ".tar") ].

(** [d[key]] on a dict given as its list of items. *)
Fixpoint dict_get (d : list (str * str)) (key : str) : result str :=
  match d with
  | [] => Raise (KeyError key)
  | (k, v) :: d' => if str_eqb k key then Ok v else dict_get d' key
  end.

Definition get_name (t : SetuptoolsBuildTarget) : str := build_type t.

(** [get_build_artifacts]: what the generator yields, format by format; a
    format missing from [_FORMATS_MAP] raises when it is reached. *)
Definition get_build_artifacts (t : SetuptoolsBuildTarget)
  : list (result str) :=
  map (fun f =>
         match dict_get _FORMATS_MAP f with
         | Ok ext =>
             Ok (name (package t) ++ lit "-" ++ version (package t) ++ ext)
         | Raise e => Raise e
         end)
      (formats t).

(** [os.path.join(self.package.directory, 'dist')] *)
Definition dist_directory (t : SetuptoolsBuildTarget) : str :=
  path_join (directory (package t)) (lit "dist").

(** The command line of the build subprocess. *)
Definition build_args (t : SetuptoolsBuildTarget) : list str :=
  [lit "python"; lit "setup.py"; build_type t; lit "--formats";
   join (lit ",") (formats t)].

Section WithOS.

Context {W : Type} `{OS W}.

(** The call of the build subprocess, the first thing [build] does to the
    world. *)
Definition after_call (t : SetuptoolsBuildTarget) (st : W * list syscall)
  : result Z * (W * list syscall) :=
  perform (Call (build_args t) (directory (package t)))
    (subprocess_call (build_args t) (directory (package t))) st.

(** The loop of [build] over the artifacts. *)
Fixpoint move_artifacts (dist_directory build_directory : str)
    (artifacts : list (result str)) : M W unit :=
  match artifacts with
  | [] => ret tt
  | Raise e :: _ => raise e
  | Ok filename :: rest =>
      let src := path_join dist_directory filename in
      let dst := path_join build_directory filename in
      src_isfile <- ask (fun w => path_isfile w src) ;;
      if negb src_isfile
      then raise (RuntimeError (src ++ lit " not produced during build"))
      else
        (if negb (str_eqb src dst) then
           dst_isfile <- ask (fun w => path_isfile w dst) ;;
           (if dst_isfile then perform (Remove dst) (os_remove dst)
            else ret tt) ;;
           perform (Rename src dst) (os_rename src dst)
         else ret tt) ;;
        move_artifacts dist_directory build_directory rest
  end.

(** [SetuptoolsBuildTarget.build(build_directory)] *)
Definition build (t : SetuptoolsBuildTarget) (build_directory : str)
  : M W BuildResult :=
  let dist_directory := dist_directory t in
  dist_exists <- ask (fun w => path_exists w dist_directory) ;;
  res <- after_call t ;;
  if negb (res =? 0)%Z then ret FAILURE
  else
    move_artifacts dist_directory build_directory (get_build_artifacts t) ;;
    (if negb dist_exists
     then perform (Rmtree dist_directory) (shutil_rmtree dist_directory)
     else ret tt) ;;
    ret SUCCESS.

End WithOS.

End Build.

Import Version Entrypoints Manifest Description Build.

(** ** A file system to run the code on

    An instance of [OS] for the worked examples: a list of files with
    their text, a list of directories, and a scripted build subprocess. *)

Module Sim.

(** The files and directories that exist, and what the build subprocess
    will do when it is called: its exit code and what it creates. *)
Record World : Type := {
  files : list (str * str);
  dirs : list str;
  build_exit : Z;
  build_files : list (str * str);
  build_dirs : list str
}.

Definition has_file (w : World) (p : str) : bool :=
  existsb (fun f => str_eqb (fst f) p) (files w).

Definition has_dir (w : World) (p : str) : bool :=
  existsb (str_eqb p) (dirs w).

Definition without (p : str) (fs : list (str * str)) : list (str * str) :=
  filter (fun f => negb (str_eqb (fst f) p)) fs.

Definition sim_read (w : World) (p : str) : result str :=
  match List.find (fun f => str_eqb (fst f) p) (files w) with
  | Some f => Ok (snd f)
  | None => Raise (OSError (lit "No such file or directory"))
  end.

Definition with_files (w : World) (fs : list (str * str)) : World :=
  {| files := fs; dirs := dirs w; build_exit := build_exit w;
     build_files := build_files w; build_dirs := build_dirs w |}.

Definition sim_remove (p : str) (w : World) : result unit * World :=
  if has_file w p then (Ok tt, with_files w (without p (files w)))
  else (Raise (OSError (lit "No such file or directory")), w).

Definition sim_rename (src dst : str) (w : World) : result unit * World :=
  match List.find (fun f => str_eqb (fst f) src) (files w) with
  | Some f =>
      (Ok tt, with_files w ((dst, snd f) :: without dst (without src (files w))))
  | None => (Raise (OSError (lit "No such file or directory")), w)
  end.

Definition inside (d p : str) : bool := startswith p (d ++ lit "/").

Definition sim_rmtree (d : str) (w : World) : result unit * World :=
  if has_dir w d then
    (Ok tt,
     {| files := filter (fun f => negb (inside d (fst f))) (files w);
        dirs := filter (fun p => negb (str_eqb p d || inside d p)) (dirs w);
        build_exit := build_exit w; build_files := build_files w;
        build_dirs := build_dirs w |})
  else (Raise (OSError (lit "No such file or directory")), w).

Definition sim_call (_ : list str) (_ : str) (w : World) : result Z * World :=
  (Ok (build_exit w),
   {| files := build_files w ++ files w; dirs := build_dirs w ++ dirs w;
      build_exit := build_exit w; build_files := build_files w;
      build_dirs := build_dirs w |}).

#[global] Instance sim_os : OS World := {
  path_exists w p := has_file w p || has_dir w p;
  path_isfile := has_file;
  read_text := sim_read;
  os_remove := sim_remove;
  os_rename := sim_rename;
  shutil_rmtree := sim_rmtree;
  subprocess_call := sim_call
}.

Definition empty : World :=
  {| files := []; dirs := []; build_exit := 0; build_files := [];
     build_dirs := [] |}.

(** A world with one file. *)
Definition single (path text : str) : World :=
  {| files := [(path, text)]; dirs := []; build_exit := 0;
     build_files := []; build_dirs := [] |}.

End Sim.

(** A package [demo] 1.0 in directory [pkg], before any build. *)
Definition demo : Package :=
  {| name := lit "demo"; version := lit "1.0"; directory := lit "pkg" |}.

Definition demo_world (exit_code : Z) (produced : list (str * str))
  : Sim.World :=
  {| Sim.files := [(lit "pkg/setup.py", lit "")];
     Sim.dirs := [lit "pkg"; lit "out"];
     Sim.build_exit := exit_code;
     Sim.build_files := produced;
     Sim.build_dirs := [lit "pkg/dist"] |}.

(** The same package built in two formats. *)
Definition demo_two_formats : SetuptoolsBuildTarget :=
  {| build_type := lit "sdist"; formats := [lit "gztar"; lit "zip"];
     package := demo |}.

(** ** More of the plugin *)

(** The two version patterns, compiled. *)
Definition quotes : list ascii := [squote; dquote].

Definition version_key : str := lit "__version__".

Definition literal (text : str) : regex := map (fun c => One (CLit c)) text.

Definition version_re : regex :=
  literal version_key
  ++ [Star CSpace; One (CLit "="); Star CSpace; One (CIn quotes);
      GroupOpen; Plus (CNotIn quotes); GroupClose; One (CIn quotes)].

Definition setup_version_re : regex :=
  literal version_key
  ++ [Star CSpace; One (CLit "="); Star CSpace; One (CLit squote);
      GroupOpen; Star CAny; GroupClose; One (CLit squote)].

(** A text with a version assignment in it: [pre], the name, blanks, the
    equals sign, blanks, a quote, the value, a quote, [post]. *)
Definition version_line (pre ws1 ws2 : str) (q1 : ascii) (v : str)
    (q2 : ascii) (post : str) : str :=
  pre ++ version_key ++ ws1 ++ lit "=" ++ ws2 ++ [q1] ++ v ++ [q2] ++ post.

(** The index of the value in such a text. *)
Definition value_index (pre ws1 ws2 : str) : nat :=
  length pre + length version_key + length ws1 + 1 + length ws2 + 1.

Module Setup.

(** [repr] of a list of [str]. *)
Definition repr_list (l : list str) : str :=
  lit "[" ++ join (lit ", ") (map repr l) ++ lit "]".

(** [s.lstrip(chars)] *)
Fixpoint lstrip_chars (chars s : str) : str :=
  match s with
  | c :: s' => if existsb (Ascii.eqb c) chars then lstrip_chars chars s' else s
  | [] => []
  end.

(** The loop of [_render_setup] that fills [exclude_packages]. *)
Definition expand_exclude_packages (exclude_packages : list str) : list str :=
  fold_left (fun acc pkg => acc ++ [pkg] ++ [pkg ++ lit ".*"])
    exclude_packages [].

Section Requirements.

(** A requirement is an object of [shore.model]; all the plugin does with
    it is call its [to_setuptools()]. *)
Variable Req : Type.
Variable to_setuptools : Req -> str.

(** Modelled from the spec: the requirements object of [shore.model], of
    which [_render_requirements] reads the ordered base requirements and
    the mapping from platform name to requirements; [platforms] is that
    dict, given as its items in insertion order. *)
Record Requirements : Type := {
  required : list Req;
  platforms : list (str * list Req)
}.

(** [_format_reqs(reqs)] *)
Definition _format_reqs (reqs : list Req) : list str :=
  map to_setuptools reqs.

(** The loop of [_render_requirements] over the platforms. *)
Fixpoint write_platforms (target : str) (items : list (str * list Req))
  : Fp unit :=
  match items with
  | [] => fp_ret tt
  | (os_name, reqs) :: rest =>
      write (lit "if sys.platform.startswith(" ++ repr os_name ++ lit "):"
             ++ nl) ;;;
      write (lit "  " ++ target ++ lit " += " ++ repr_list (_format_reqs reqs)
             ++ nl) ;;;
      write_platforms target rest
  end.

(** [_render_requirements(fp, target, requirements)] *)
Definition _render_requirements (target : str) (requirements : Requirements)
  : Fp unit :=
  write (target ++ lit " = " ++ repr_list (_format_reqs (required requirements))
         ++ nl) ;;;
  write_platforms target (platforms requirements).

End Requirements.

Arguments required {Req} _.
Arguments platforms {Req} _.
Arguments _format_reqs {Req} to_setuptools reqs.
Arguments write_platforms {Req} to_setuptools target items.
Arguments _render_requirements {Req} to_setuptools target requirements.

(** Modelled from the spec: the data-file rule of [shore.model], with the
    target install subdirectory, the source directory path, and the lists
    of glob patterns to include and to exclude. *)
Record DataFile : Type := {
  target : str;
  source : str;
  include : list str;
  exclude : list str
}.

(** ['data/{}/{}'.format(package_name, entry.target.lstrip('/'))] *)
Definition datafile_target (package_name : str) (entry : DataFile) : str :=
  lit "data/" ++ package_name ++ lit "/" ++ lstrip_chars (lit "/") (target entry).

(** The helper [_render_datafiles] writes first, after [textwrap.dedent]. *)
Definition collect_helper : str := lit "
import os, fnmatch
def _collect_data_files(data_files, target, path, include, exclude):
  for root, dirs, files in os.walk(path):
    parent_dir = os.path.normpath(os.path.join(target, os.path.relpath(root, path)))
    install_files = []
    for filename in files:
      filename = os.path.join(root, filename)
      if include and not any(fnmatch.fnmatch(filename, x) for x in include):
        continue
      if exclude and any(fnmatch.fnmatch(filename, x) for x in exclude):
        continue
      install_files.append(filename)
    data_files.setdefault(parent_dir, []).extend(install_files)

data_files = {}
".

(** The line written for one rule. *)
Definition datafile_call (package_name : str) (entry : DataFile) : str :=
  lit "_collect_data_files(data_files, "
  ++ repr (datafile_target package_name entry) ++ lit ", "
  ++ repr (source entry) ++ lit ", "
  ++ repr_list (include entry) ++ lit ", "
  ++ repr_list (exclude entry) ++ lit ")" ++ nl.

Fixpoint write_datafile_calls (package_name : str) (datafiles : list DataFile)
  : Fp unit :=
  match datafiles with
  | [] => fp_ret tt
  | entry :: rest =>
      write (datafile_call package_name entry) ;;;
      write_datafile_calls package_name rest
  end.

(** [_render_datafiles(fp, package_name, datafiles)] *)
Definition _render_datafiles (package_name : str) (datafiles : list DataFile)
  : Fp unit :=
  write collect_helper ;;;
  write_datafile_calls package_name datafiles ;;;
  write (lit "data_files = list(data_files.items())" ++ nl).

End Setup.

Import Setup.

(** [get_package_build_targets(package)]: what the generator yields. *)
Definition get_package_build_targets (package : Package)
  : list SetuptoolsBuildTarget :=
  [init (lit "sdist") package].

(** How many newline characters a text has. *)
Definition newlines (s : str) : nat := count_occ ascii_dec s nl_c.

(** * Properties *)

(** ** Occurrences, [find] and slices *)


Lemma startswith_app (p r : str) : startswith (p ++ r) p = true.
Proof.
  induction p as [|a p IH]; simpl; [reflexivity|].
  now rewrite Ascii.eqb_refl.
Qed.

Lemma startswith_inv (p s : str) :
  startswith s p = true -> exists r, s = p ++ r.
Proof.
  revert s; induction p as [|a p IH]; intros s Hs.
  - now exists s.
  - destruct s as [|b s]; simpl in Hs; [discriminate|].
    apply andb_true_iff in Hs as [Hab Hs].
    apply Ascii.eqb_eq in Hab; subst b.
    destruct (IH _ Hs) as [r ->]. now exists r.
Qed.

Lemma startswith_iff (p s : str) :
  startswith s p = true <-> exists r, s = p ++ r.
Proof.
  split; [apply startswith_inv|].
  intros [r ->]; apply startswith_app.
Qed.

Lemma occurs_at_skipn (sub : str) (k : nat) (s : str) :
  occurs_at sub k s <-> (k <= length s /\ startswith (skipn k s) sub = true).
Proof.
  split.
  - intros (a & b & -> & <-). split.
    + rewrite length_app; lia.
    + rewrite skipn_app, skipn_all, Nat.sub_diag; simpl.
      apply startswith_app.
  - intros [Hk Hs]. apply startswith_inv in Hs as [r Hr].
    exists (firstn k s), r. split.
    + rewrite <- Hr. symmetry; apply firstn_skipn.
    + apply firstn_length_le; exact Hk.
Qed.

Lemma occurs_at_nth (sub : str) (k : nat) (s : str) (i : nat) :
  occurs_at sub k s -> i < length sub ->
  nth_error s (k + i) = nth_error sub i.
Proof.
  intros (a & b & -> & <-) Hi.
  rewrite nth_error_app2 by lia.
  replace (length a + i - length a) with i by lia.
  now rewrite nth_error_app1.
Qed.

Lemma occurs_at_bound (sub : str) (k : nat) (s : str) :
  occurs_at sub k s -> k + length sub <= length s.
Proof.
  intros (a & b & -> & <-). rewrite !length_app; lia.
Qed.

Lemma occurs_at_cons (sub : str) (k : nat) (c : ascii) (s : str) :
  occurs_at sub (S k) (c :: s) <-> occurs_at sub k s.
Proof.
  rewrite !occurs_at_skipn; simpl. intuition lia.
Qed.

Lemma occurs_at_app_l (sub : str) (k : nat) (x y : str) :
  occurs_at sub k y <-> occurs_at sub (length x + k) (x ++ y).
Proof.
  induction x as [|c x IH]; simpl; [reflexivity|].
  now rewrite occurs_at_cons.
Qed.

(** What [find_go] returns is the first occurrence. *)
Lemma find_go_Some (sub s : str) (i k : nat) :
  find_go sub s i = Some k ->
  exists j, k = i + j /\ occurs_at sub j s /\
            forall j', j' < j -> ~ occurs_at sub j' s.
Proof.
  revert i; induction s as [|c s IH]; intros i; simpl.
  - destruct (startswith [] sub) eqn:E; [|discriminate].
    intros [= <-]. exists 0. split; [lia|]. split.
    + apply occurs_at_skipn; simpl; auto.
    + intros; lia.
  - destruct (startswith (c :: s) sub) eqn:E.
    + intros [= <-]. exists 0. split; [lia|]. split.
      * apply occurs_at_skipn; simpl; split; [lia|exact E].
      * intros; lia.
    + intros Hk. destruct (IH _ Hk) as (j & -> & Hj & Hmin).
      exists (S j). split; [lia|]. split.
      * now apply occurs_at_cons.
      * intros [|j'] Hlt Ho.
        -- apply occurs_at_skipn in Ho as [_ Ho]; simpl in Ho; congruence.
        -- apply occurs_at_cons in Ho. apply (Hmin j'); [lia|exact Ho].
Qed.

Lemma find_go_None (sub s : str) (i : nat) :
  find_go sub s i = None -> forall j, ~ occurs_at sub j s.
Proof.
  revert i; induction s as [|c s IH]; intros i; simpl.
  - destruct (startswith [] sub) eqn:E; [discriminate|].
    intros _ j Ho. apply occurs_at_skipn in Ho as [Hj Ho].
    simpl in Hj. replace j with 0 in Ho by lia. simpl in Ho; congruence.
  - destruct (startswith (c :: s) sub) eqn:E; [discriminate|].
    intros Hn [|j] Ho.
    + apply occurs_at_skipn in Ho as [_ Ho]; simpl in Ho; congruence.
    + apply occurs_at_cons in Ho. exact (IH _ Hn j Ho).
Qed.

Lemma find_go_first (sub s : str) (i j : nat) :
  occurs_at sub j s -> (forall j', j' < j -> ~ occurs_at sub j' s) ->
  find_go sub s i = Some (i + j).
Proof.
  intros Ho Hmin. destruct (find_go sub s i) as [k|] eqn:E.
  - destruct (find_go_Some _ _ _ _ E) as (j0 & -> & Ho0 & Hmin0).
    f_equal. f_equal.
    destruct (Nat.lt_trichotomy j0 j) as [Hlt|[Heq|Hgt]]; [|exact Heq|].
    + exfalso; exact (Hmin _ Hlt Ho0).
    + exfalso; exact (Hmin0 _ Hgt Ho).
  - exfalso; exact (find_go_None _ _ _ E j Ho).
Qed.

Lemma contains_false (sub s : str) :
  contains sub s = false <-> forall k, ~ occurs_at sub k s.
Proof.
  unfold contains. destruct (find_go sub s 0) as [k|] eqn:E; split.
  - discriminate.
  - intros Hn. destruct (find_go_Some _ _ _ _ E) as (j & _ & Ho & _).
    exfalso; exact (Hn j Ho).
  - intros _. exact (find_go_None _ _ _ E).
  - reflexivity.
Qed.

Lemma contains_true (sub s : str) :
  contains sub s = true <-> exists k, occurs_at sub k s.
Proof.
  unfold contains. destruct (find_go sub s 0) as [k|] eqn:E; split.
  - intros _. destruct (find_go_Some _ _ _ _ E) as (j & _ & Ho & _). eauto.
  - reflexivity.
  - discriminate.
  - intros [k Ho]. exfalso; exact (find_go_None _ _ _ E k Ho).
Qed.

Lemma norm_index_nat (n i : nat) : norm_index n (Z.of_nat i) = i.
Proof.
  unfold norm_index. destruct (Z.ltb_spec (Z.of_nat i) 0); lia.
Qed.

(** [find] from a non-negative index returns the first occurrence at or
    after it. *)
Lemma find_first (s sub : str) (i k : nat) :
  i <= k -> occurs_at sub k s ->
  (forall j, i <= j < k -> ~ occurs_at sub j s) ->
  find s sub (Z.of_nat i) = Z.of_nat k.
Proof.
  intros Hik Ho Hmin. unfold find. rewrite norm_index_nat.
  pose proof (occurs_at_bound _ _ _ Ho) as Hb.
  destruct (Nat.ltb_spec (length s) i); [lia|].
  assert (Hs : s = firstn i s ++ skipn i s) by (symmetry; apply firstn_skipn).
  assert (Hl : length (firstn i s) = i) by (apply firstn_length_le; lia).
  rewrite (@find_go_first sub (skipn i s) i (k - i)).
  - f_equal; lia.
  - apply (occurs_at_app_l sub (k - i) (firstn i s) (skipn i s)).
    rewrite <- Hs, Hl. now replace (i + (k - i)) with k by lia.
  - intros j' Hj' Ho'. apply (Hmin (i + j')); [lia|].
    rewrite Hs, <- Hl at 1. now apply occurs_at_app_l.
Qed.

Lemma find_absent (s sub : str) (i : nat) :
  (forall j, i <= j -> ~ occurs_at sub j s) ->
  find s sub (Z.of_nat i) = (-1)%Z.
Proof.
  intros Hn. unfold find. rewrite norm_index_nat.
  destruct (Nat.ltb_spec (length s) i); [reflexivity|].
  destruct (find_go sub (skipn i s) i) as [k|] eqn:E; [|reflexivity].
  destruct (find_go_Some _ _ _ _ E) as (j & -> & Ho & _).
  exfalso. apply (Hn (i + j)); [lia|].
  assert (Hs : s = firstn i s ++ skipn i s) by (symmetry; apply firstn_skipn).
  assert (Hl : length (firstn i s) = i) by (apply firstn_length_le; lia).
  rewrite Hs, <- Hl at 1. now apply occurs_at_app_l.
Qed.


Lemma absent_between_spec (sub : str) (lo hi : nat) (s : str) :
  absent_between sub lo hi s = true ->
  forall k, lo <= k < hi -> ~ occurs_at sub k s.
Proof.
  unfold absent_between. rewrite forallb_forall. intros Hall k Hk Ho.
  apply occurs_at_skipn in Ho as [_ Ho].
  specialize (Hall k). rewrite Ho in Hall.
  assert (In k (seq lo (hi - lo))) by (apply in_seq; lia).
  specialize (Hall H). discriminate.
Qed.

Lemma absent_from_spec (sub : str) (lo : nat) (s : str) :
  absent_between sub lo (S (length s)) s = true ->
  forall k, lo <= k -> ~ occurs_at sub k s.
Proof.
  intros Hab k Hk Ho. pose proof (occurs_at_bound _ _ _ Ho) as Hb.
  apply (absent_between_spec sub lo (S (length s)) s Hab k); [lia|exact Ho].
Qed.

Lemma slice_to_app (p r : str) :
  slice_to (p ++ r) (Z.of_nat (length p)) = p.
Proof.
  unfold slice_to, slice. change 0%Z with (Z.of_nat 0).
  rewrite !norm_index_nat, length_app. simpl.
  rewrite Nat.min_l by lia. rewrite Nat.sub_0_r.
  rewrite firstn_app, firstn_all, Nat.sub_diag. simpl. apply app_nil_r.
Qed.

Lemma slice_app (p m r : str) :
  slice (p ++ m ++ r) (Z.of_nat (length p)) (Z.of_nat (length p + length m))
  = m.
Proof.
  unfold slice. rewrite !norm_index_nat, !length_app.
  rewrite !Nat.min_l by lia.
  rewrite skipn_app, skipn_all, Nat.sub_diag. simpl.
  replace (length p + length m - length p) with (length m) by lia.
  rewrite firstn_app, firstn_all, Nat.sub_diag. simpl. apply app_nil_r.
Qed.

Lemma slice_from_app (a t : str) :
  slice_from (a ++ t) (Z.of_nat (length a + 1)) = skipn 1 t.
Proof.
  unfold slice_from. rewrite norm_index_nat, length_app.
  destruct t as [|c t]; simpl.
  - rewrite Nat.min_r by lia. rewrite Nat.add_0_r.
    rewrite skipn_app, skipn_all, Nat.sub_diag. reflexivity.
  - rewrite Nat.min_l by lia.
    rewrite skipn_app, skipn_all2 by lia.
    replace (length a + 1 - length a) with 1 by lia. reflexivity.
Qed.


(** ** Where [split_section] cuts *)

Lemma split_section_degenerate_begin (data b e : str) :
  (forall k, ~ occurs_at b k data) ->
  split_section data b e = (data, [], []).
Proof.
  intros Hb. unfold split_section; cbv zeta.
  change (find data b 0) with (find data b (Z.of_nat 0)).
  rewrite (find_absent data b 0) by (intros j _; apply Hb).
  reflexivity.
Qed.

Lemma split_section_degenerate_end (data b e : str) (start : nat) :
  occurs_at b start data ->
  (forall k, k < start -> ~ occurs_at b k data) ->
  (forall k, start <= k -> ~ occurs_at e k data) ->
  split_section data b e = (data, [], []).
Proof.
  intros Hs Hmin He. unfold split_section; cbv zeta.
  change (find data b 0) with (find data b (Z.of_nat 0)).
  rewrite (find_first data b 0 start); [|lia|exact Hs|intros j Hj; apply Hmin; lia].
  rewrite (find_absent data e start He).
  rewrite andb_false_r. reflexivity.
Qed.

Lemma split_section_found (data b e p m t : str) :
  data = p ++ b ++ m ++ e ++ t ->
  (forall k, k < length p -> ~ occurs_at b k data) ->
  (forall k, length p <= k < length (p ++ b ++ m) -> ~ occurs_at e k data) ->
  split_section data b e = (p, m, skipn 1 t).
Proof.
  intros Hd Hb He. unfold split_section; cbv zeta.
  change (find data b 0) with (find data b (Z.of_nat 0)).
  assert (Hob : occurs_at b (length p) data).
  { exists p, (m ++ e ++ t). split; [exact Hd|reflexivity]. }
  assert (Hoe : occurs_at e (length (p ++ b ++ m)) data).
  { exists (p ++ b ++ m), t. split; [|reflexivity].
    rewrite Hd, <- !app_assoc. reflexivity. }
  rewrite (find_first data b 0 (length p)); [|lia|exact Hob|intros j Hj; apply Hb; lia].
  rewrite (find_first data e (length p) (length (p ++ b ++ m)));
    [|rewrite length_app; lia|exact Hoe|exact He].
  replace ((0 <=? Z.of_nat (length p))%Z) with true by (symmetry; apply Z.leb_le; lia).
  replace ((0 <=? Z.of_nat (length (p ++ b ++ m)))%Z) with true by (symmetry; apply Z.leb_le; lia).
  simpl andb. cbv iota.
  f_equal; [f_equal|].
  - rewrite Hd. apply slice_to_app.
  - unfold len. rewrite <- Nat2Z.inj_add.
    rewrite Hd. replace (p ++ b ++ m ++ e ++ t) with ((p ++ b) ++ m ++ e ++ t)
      by (rewrite <- app_assoc; reflexivity).
    replace (length (p ++ b ++ m)) with (length (p ++ b) + length m)
      by (rewrite !length_app; lia).
    rewrite <- (length_app p b). apply slice_app.
  - unfold len. rewrite <- !Nat2Z.inj_add, <- length_app.
    change 1 with (Z.to_nat 1) at 1. rewrite <- (Nat2Z.inj_add _ 1).
    rewrite Hd.
    replace (p ++ b ++ m ++ e ++ t) with (((p ++ b ++ m) ++ e) ++ t)
      by (rewrite <- !app_assoc; reflexivity).
    apply slice_from_app.
Qed.

(** Both markers found: [start] is where the first begin marker starts
    and [end_] where the first end marker at or after [start] starts. *)
Lemma split_section_located (data b e : str) (start end_ : nat) :
  occurs_at b start data ->
  (forall k, k < start -> ~ occurs_at b k data) ->
  start <= end_ ->
  occurs_at e end_ data ->
  (forall k, start <= k < end_ -> ~ occurs_at e k data) ->
  split_section data b e
  = (firstn start data,
     firstn (end_ - (start + length b)) (skipn (start + length b) data),
     skipn (end_ + length e + 1) data).
Proof.
  intros Hob Hb Hle Hoe He. unfold split_section; cbv zeta.
  change (find data b 0) with (find data b (Z.of_nat 0)).
  rewrite (find_first data b 0 start); [|lia|exact Hob|intros j Hj; apply Hb; lia].
  rewrite (find_first data e start end_ Hle Hoe He).
  replace ((0 <=? Z.of_nat start)%Z) with true by (symmetry; apply Z.leb_le; lia).
  replace ((0 <=? Z.of_nat end_)%Z) with true by (symmetry; apply Z.leb_le; lia).
  simpl andb. cbv iota.
  pose proof (occurs_at_bound _ _ _ Hob) as Bb.
  pose proof (occurs_at_bound _ _ _ Hoe) as Be.
  f_equal; [f_equal|].
  - unfold slice_to, slice. change 0%Z with (Z.of_nat 0).
    rewrite !norm_index_nat. rewrite Nat.min_0_l, Nat.sub_0_r.
    rewrite Nat.min_l by lia. reflexivity.
  - unfold slice, len. rewrite <- Nat2Z.inj_add, !norm_index_nat.
    rewrite !Nat.min_l by lia. reflexivity.
  - unfold slice_from, len. rewrite <- Nat2Z.inj_add.
    change 1%Z with (Z.of_nat 1). rewrite <- Nat2Z.inj_add, norm_index_nat.
    destruct (Nat.le_gt_cases (end_ + length e + 1) (length data)).
    + rewrite Nat.min_l by lia. reflexivity.
    + rewrite Nat.min_r by lia. rewrite !skipn_all2 by lia. reflexivity.
Qed.

(** C5 (amended).  Let [start] be where the first begin marker starts and
    [end_] where the first end marker starting at or after [start] starts
    (at or after the START of the begin marker, not its end).  Then the
    split is the text before [start], the text from the end of the begin
    marker up to [end_] (empty when [end_] lies inside the begin marker),
    and the text after the end marker less one character, whatever that
    character is.  So when the text is [p ++ b ++ m ++ e ++ t], no begin
    marker starts before the end of [p], and no end marker starts from the
    start of that begin marker up to the end of [m], the split is [p], [m]
    and [t] less its first character; and when the first end marker
    starts inside the begin marker, the middle is empty and the suffix
    starts one character after that end marker.  When the begin marker is
    absent, or no end marker starts at or after the first begin marker,
    the split is the whole text and two empty strings. *)
Theorem split_section_by_markers (data b e : str) :
  (forall start end_,
     occurs_at b start data ->
     (forall k, k < start -> ~ occurs_at b k data) ->
     start <= end_ ->
     occurs_at e end_ data ->
     (forall k, start <= k < end_ -> ~ occurs_at e k data) ->
     split_section data b e
     = (firstn start data,
        firstn (end_ - (start + length b)) (skipn (start + length b) data),
        skipn (end_ + length e + 1) data))
  /\ (forall p m t,
        data = p ++ b ++ m ++ e ++ t ->
        (forall k, k < length p -> ~ occurs_at b k data) ->
        (forall k, length p <= k < length (p ++ b ++ m) ->
                   ~ occurs_at e k data) ->
        split_section data b e = (p, m, skipn 1 t))
  /\ (forall start end_,
        occurs_at b start data ->
        (forall k, k < start -> ~ occurs_at b k data) ->
        start <= end_ < start + length b ->
        occurs_at e end_ data ->
        (forall k, start <= k < end_ -> ~ occurs_at e k data) ->
        split_section data b e
        = (firstn start data, [], skipn (end_ + length e + 1) data))
  /\ ((forall k, ~ occurs_at b k data) ->
      split_section data b e = (data, [], []))
  /\ (forall start,
        occurs_at b start data ->
        (forall k, k < start -> ~ occurs_at b k data) ->
        (forall k, start <= k -> ~ occurs_at e k data) ->
        split_section data b e = (data, [], [])).
Proof.
  split; [|split; [|split; [|split]]].
  - intros start end_. apply split_section_located.
  - intros p m t. apply split_section_found.
  - intros start end_ Hob Hb Hle Hoe He.
    rewrite (split_section_located data b e start end_)
      by (try assumption; lia).
    replace (end_ - (start + length b)) with 0 by lia. reflexivity.
  - apply split_section_degenerate_begin.
  - intros start. apply split_section_degenerate_end.
Qed.

Lemma split_section_by_markers_witness :
  split_section (lit "pre{mid}" ++ nl ++ lit "post") (lit "{") (lit "}")
  = (lit "pre", lit "mid", lit "post")
  /\ split_section (lit "xabycb" ++ nl ++ lit "z") (lit "ab") (lit "b")
     = (lit "x", [], lit "cb" ++ nl ++ lit "z")
  /\ split_section (lit "a<<>b>c") (lit "<<") (lit ">")
     = (lit "a", [], lit ">c")
  /\ split_section (lit "no markers") (lit "{") (lit "}")
     = (lit "no markers", [], [])
  /\ split_section (lit "}pre{mid") (lit "{") (lit "}")
     = (lit "}pre{mid", [], []).
Proof.
  split; [|split; [|split; [|split]]].
  - apply (proj1 (proj2 (split_section_by_markers _ _ _))
             (lit "pre") (lit "mid") (nl ++ lit "post")).
    + reflexivity.
    + intros k Hk.
      apply (absent_between_spec (lit "{") 0 3); [reflexivity|].
      simpl in Hk. lia.
    + intros k Hk.
      apply (absent_between_spec (lit "}") 3 7); [reflexivity|].
      simpl in Hk. lia.
  - apply (proj1 (proj2 (proj2 (split_section_by_markers
             (lit "xabycb" ++ nl ++ lit "z") (lit "ab") (lit "b")))) 1 2).
    + exists (lit "x"), (lit "ycb" ++ nl ++ lit "z"). split; reflexivity.
    + intros k Hk.
      apply (absent_between_spec (lit "ab") 0 1); [reflexivity|lia].
    + simpl. lia.
    + exists (lit "xa"), (lit "ycb" ++ nl ++ lit "z"). split; reflexivity.
    + intros k Hk.
      apply (absent_between_spec (lit "b") 1 2); [reflexivity|lia].
  - apply (proj1 (split_section_by_markers
             (lit "a<<>b>c") (lit "<<") (lit ">")) 1 3).
    + exists (lit "a"), (lit ">b>c"). split; reflexivity.
    + intros k Hk.
      apply (absent_between_spec (lit "<<") 0 1); [reflexivity|lia].
    + lia.
    + exists (lit "a<<"), (lit "b>c"). split; reflexivity.
    + intros k Hk.
      apply (absent_between_spec (lit ">") 1 3); [reflexivity|lia].
  - apply (proj1 (proj2 (proj2 (proj2 (split_section_by_markers _ _ _))))).
    apply contains_false. reflexivity.
  - apply (proj2 (proj2 (proj2 (proj2 (split_section_by_markers _ _ _)))) 4).
    + exists (lit "}pre"), (lit "mid"). split; reflexivity.
    + intros k Hk.
      apply (absent_between_spec (lit "{") 0 4); [reflexivity|lia].
    + apply absent_from_spec. reflexivity.
Defined.

(** C5, as the specification words it, fails when the end marker also
    occurs inside the begin marker: the search for the end marker starts
    at the first character of the begin marker, not after its last. *)
Lemma split_section_not_as_claimed :
  split_section (lit "xabycb" ++ nl ++ lit "z") (lit "ab") (lit "b")
  = (lit "x", [], lit "cb" ++ nl ++ lit "z")
  /\ ~ split_as_claimed (lit "xabycb" ++ nl ++ lit "z") (lit "ab") (lit "b")
         (split_section (lit "xabycb" ++ nl ++ lit "z") (lit "ab") (lit "b")).
Proof.
  assert (Hsplit :
    split_section (lit "xabycb" ++ nl ++ lit "z") (lit "ab") (lit "b")
    = (lit "x", [], lit "cb" ++ nl ++ lit "z")) by reflexivity.
  split; [exact Hsplit|].
  rewrite Hsplit. intros [Hfound _].
  destruct Hfound as (t & Hd & _).
  - split.
    + exists 1, (lit "x"), (lit "ycb" ++ nl ++ lit "z"). split; reflexivity.
    + exists 2, (lit "xa"), (lit "ycb" ++ nl ++ lit "z"). split; reflexivity.
  - discriminate Hd.
Qed.

(** ** [rewrite_section] *)

(** C1 (amended).  When the body of the [with] statement returns, the file
    holds the prefix, the begin marker and a newline, what the body wrote,
    the end marker and a newline, and the suffix.  When the body raises,
    the exception goes on to the caller and the file holds the prefix, the
    begin marker line and what the body had written: no end marker and no
    suffix follow. *)
Theorem rewrite_section_writes (data b e : str) (body : Fp unit) :
  rewrite_section data b e body =
  let '(prefix, _, suffix) := split_section data b e in
  match outcome body with
  | Ok _ =>
      (prefix ++ (b ++ nl) ++ written body ++ (e ++ nl) ++ suffix, Ok tt)
  | Raise x => (prefix ++ (b ++ nl) ++ written body, Raise x)
  end.
Proof.
  unfold rewrite_section.
  destruct (split_section data b e) as [[prefix middle] suffix].
  destruct body as [out [[]|x]]; unfold fp_bind, write; simpl;
    rewrite ?app_nil_r; reflexivity.
Qed.

(** C1, as the specification words it, fails when the body raises: the end
    marker is never written. *)
Lemma rewrite_section_unbalanced_on_error :
  rewrite_section [] _BEGIN_SECTION _END_SECTION
    (lit "include a" ++ nl, Raise (Exception (lit "boom")))
  = (_BEGIN_SECTION ++ nl ++ lit "include a" ++ nl,
     Raise (Exception (lit "boom")))
  /\ contains _END_SECTION
       (written (rewrite_section [] _BEGIN_SECTION _END_SECTION
                   (lit "include a" ++ nl, Raise (Exception (lit "boom")))))
     = false.
Proof. split; reflexivity. Qed.

(** ** The manifest *)

Lemma occurs_at_inside (sub : str) (k : nat) (x y : str) :
  occurs_at sub k (x ++ y) -> k + length sub <= length x ->
  occurs_at sub k x.
Proof.
  intros Ho Hk. apply occurs_at_skipn in Ho as [_ Ho].
  apply occurs_at_skipn. split; [lia|].
  rewrite skipn_app in Ho. replace (k - length x) with 0 in Ho by lia.
  simpl in Ho. apply startswith_inv in Ho as [r Hr].
  assert (Hl : length sub <= length (skipn k x)) by (rewrite length_skipn; lia).
  apply startswith_iff.
  exists (skipn (length sub) (skipn k x)).
  rewrite <- (firstn_skipn (length sub) (skipn k x)) at 1. f_equal.
  apply (f_equal (firstn (length sub))) in Hr.
  rewrite firstn_app in Hr.
  replace (length sub - length (skipn k x)) with 0 in Hr by lia.
  rewrite firstn_O, app_nil_r in Hr. rewrite Hr.
  rewrite firstn_app, firstn_all, Nat.sub_diag. simpl. apply app_nil_r.
Qed.

Lemma occurs_at_shift (sub : str) (k : nat) (x y : str) :
  occurs_at sub k (x ++ y) -> length x <= k ->
  occurs_at sub (k - length x) y.
Proof.
  intros Ho Hk. apply (occurs_at_app_l sub (k - length x) x y).
  now replace (length x + (k - length x)) with k by lia.
Qed.

(** A marker whose first character occurs nowhere else in it cannot
    overlap a later copy of that character. *)
Lemma occurs_at_head_unique (h : ascii) (sub' : str) (k j : nat) (s : str) :
  ~ In h sub' -> occurs_at (h :: sub') k s ->
  nth_error s j = Some h -> k < j < k + length (h :: sub') -> False.
Proof.
  intros Hh Ho Hj Hkj.
  pose proof (occurs_at_nth (h :: sub') k s (j - k) Ho) as Hn.
  replace (k + (j - k)) with j in Hn by lia.
  rewrite Hj in Hn. destruct (j - k) as [|d] eqn:Ed; [lia|].
  simpl in Hn. symmetry in Hn. apply Hh.
  apply (nth_error_In _ d). apply Hn. simpl in Hkj; simpl; lia.
Qed.

Lemma head_unique_index (h : ascii) (sub' : str) (k : nat) :
  ~ In h sub' -> nth_error (h :: sub') k = Some h -> k = 0.
Proof.
  intros Hh Hk. destruct k as [|k]; [reflexivity|].
  simpl in Hk. exfalso; apply Hh. now apply (nth_error_In _ k).
Qed.

Lemma begin_head : exists b', _BEGIN_SECTION = hash :: b' /\ ~ In hash b'.
Proof.
  eexists; split; [reflexivity|].
  intros Hin. repeat (destruct Hin as [Hin|Hin]; [discriminate Hin|]).
  exact Hin.
Qed.

Lemma end_head : exists e', _END_SECTION = hash :: e' /\ ~ In hash e'.
Proof.
  eexists; split; [reflexivity|].
  intros Hin. repeat (destruct Hin as [Hin|Hin]; [discriminate Hin|]).
  exact Hin.
Qed.

(** In a text that starts with the begin marker, the end marker starts
    nowhere inside it. *)
Lemma end_not_in_begin (k : nat) (r : str) :
  k < length _BEGIN_SECTION ->
  ~ occurs_at _END_SECTION k (_BEGIN_SECTION ++ r).
Proof.
  intros Hk Ho.
  destruct begin_head as (b' & Hb & Hnb).
  assert (Hc : nth_error _BEGIN_SECTION k = Some hash).
  { pose proof (occurs_at_nth _ _ _ 0 Ho) as Hn.
    rewrite Nat.add_0_r, nth_error_app1 in Hn by exact Hk.
    apply Hn. simpl; lia. }
  rewrite Hb in Hc. apply head_unique_index in Hc; [|exact Hnb]. subst k.
  pose proof (occurs_at_nth _ _ _ 2 Ho) as Hn.
  rewrite nth_error_app1 in Hn by (simpl; lia).
  simpl in Hn. specialize (Hn ltac:(lia)). discriminate Hn.
Qed.

(** Where the markers lie in a text that has a managed section. *)
Lemma markers_located (pre mid t : str) :
  contains _BEGIN_SECTION pre = false ->
  contains _END_SECTION mid = false ->
  let data := pre ++ _BEGIN_SECTION ++ mid ++ _END_SECTION ++ t in
  (forall k, k < length pre -> ~ occurs_at _BEGIN_SECTION k data) /\
  (forall k, length pre <= k < length (pre ++ _BEGIN_SECTION ++ mid) ->
             ~ occurs_at _END_SECTION k data).
Proof.
  intros Hpre Hmid data. split.
  - intros k Hk Ho.
    destruct begin_head as (b' & Hb & Hnb).
    destruct (Nat.le_gt_cases (k + length _BEGIN_SECTION) (length pre)) as [Hin|Hover].
    + apply (proj1 (contains_false _ _) Hpre k).
      exact (occurs_at_inside _ _ _ _ Ho Hin).
    + rewrite Hb in Ho, Hover.
      apply (occurs_at_head_unique hash b' k (length pre) data Hnb Ho).
      * unfold data. rewrite nth_error_app2, Nat.sub_diag, Hb by lia. reflexivity.
      * lia.
  - intros k Hk Ho. rewrite !length_app in Hk.
    apply occurs_at_shift in Ho; [|lia].
    destruct (Nat.lt_ge_cases (k - length pre) (length _BEGIN_SECTION)) as [Hin|Hout].
    + exact (end_not_in_begin _ _ Hin Ho).
    + apply occurs_at_shift in Ho; [|exact Hout].
      set (j := k - length pre - length _BEGIN_SECTION) in *.
      destruct end_head as (e' & He & Hne).
      destruct (Nat.le_gt_cases (j + length _END_SECTION) (length mid)) as [Hin|Hover].
      * apply (proj1 (contains_false _ _) Hmid j).
        exact (occurs_at_inside _ _ _ _ Ho Hin).
      * rewrite He in Ho, Hover.
        apply (occurs_at_head_unique hash e' j (length mid) _ Hne Ho).
        -- rewrite nth_error_app2, Nat.sub_diag by lia. reflexivity.
        -- unfold j; lia.
Qed.

Lemma split_section_managed (pre mid t : str) :
  contains _BEGIN_SECTION pre = false ->
  contains _END_SECTION mid = false ->
  split_section (pre ++ _BEGIN_SECTION ++ mid ++ _END_SECTION ++ t)
    _BEGIN_SECTION _END_SECTION = (pre, mid, skipn 1 t).
Proof.
  intros Hpre Hmid.
  destruct (markers_located pre mid t Hpre Hmid) as [Hb He].
  now apply split_section_found.
Qed.


Lemma write_entries_spec (manifest : list str) :
  write_entries manifest = (entry_lines manifest, Ok tt).
Proof.
  induction manifest as [|e rest IH]; [reflexivity|].
  simpl. rewrite IH. unfold fp_bind, write. simpl. reflexivity.
Qed.

Lemma rewrite_section_ok (data b e body_out : str) :
  rewrite_section data b e (body_out, Ok tt) =
  (let '(p, _, s) := split_section data b e in
   p ++ (b ++ nl) ++ body_out ++ (e ++ nl) ++ s, Ok tt).
Proof.
  unfold rewrite_section. destruct (split_section data b e) as [[p m] s].
  unfold fp_bind, write. simpl. reflexivity.
Qed.

Lemma render_spec (current : str) (manifest : list str) :
  render current manifest =
  let '(p, _, s) := split_section current _BEGIN_SECTION _END_SECTION in
  p ++ (_BEGIN_SECTION ++ nl) ++ entry_lines manifest ++ (_END_SECTION ++ nl) ++ s.
Proof.
  unfold render, _render_manifest. rewrite write_entries_spec, rewrite_section_ok.
  destruct (split_section current _BEGIN_SECTION _END_SECTION) as [[p m] s].
  reflexivity.
Qed.

Lemma contains_cons_other (sub' : str) (h c : ascii) (s : str) :
  c <> h -> contains (h :: sub') s = false ->
  contains (h :: sub') (c :: s) = false.
Proof.
  intros Hc Hs. apply contains_false. intros [|k] Ho.
  - pose proof (occurs_at_nth _ _ _ 0 Ho) as Hn. simpl in Hn.
    specialize (Hn ltac:(lia)). congruence.
  - apply occurs_at_cons in Ho. exact (proj1 (contains_false _ _) Hs k Ho).
Qed.


(** C4 (amended).  For a manifest that has a managed section, with no
    begin marker in the text before it and no end marker inside it, and
    for rules whose lines hold no end marker: rendering keeps the text
    before the begin marker and the text after the end marker line as they
    are, replaces what is between by the rule lines, and rendering the
    result again with the same rules changes nothing. *)
Theorem manifest_render_round_trip (pre mid post : str)
    (manifest : list str) :
  contains _BEGIN_SECTION pre = false ->
  contains _END_SECTION mid = false ->
  contains _END_SECTION (entry_lines manifest) = false ->
  render (pre ++ _BEGIN_SECTION ++ mid ++ _END_SECTION ++ nl ++ post)
    manifest
  = pre ++ _BEGIN_SECTION ++ nl ++ entry_lines manifest
        ++ _END_SECTION ++ nl ++ post
  /\ render
       (render (pre ++ _BEGIN_SECTION ++ mid ++ _END_SECTION ++ nl ++ post)
          manifest) manifest
     = render (pre ++ _BEGIN_SECTION ++ mid ++ _END_SECTION ++ nl ++ post)
         manifest.
Proof.
  intros Hpre Hmid Hbody.
  assert (H1 : forall m, contains _END_SECTION m = false ->
     render (pre ++ _BEGIN_SECTION ++ m ++ _END_SECTION ++ nl ++ post) manifest
     = pre ++ _BEGIN_SECTION ++ nl ++ entry_lines manifest
           ++ _END_SECTION ++ nl ++ post).
  { intros m Hm.
    rewrite render_spec, (split_section_managed pre m (nl ++ post) Hpre Hm).
    simpl skipn. rewrite <- !app_assoc. reflexivity. }
  split; [exact (H1 mid Hmid)|].
  rewrite (H1 mid Hmid).
  change (nl ++ entry_lines manifest ++ _END_SECTION ++ nl ++ post)
    with ((nl ++ entry_lines manifest) ++ _END_SECTION ++ nl ++ post).
  apply H1.
  destruct end_head as (e' & He & _). rewrite He in *.
  apply contains_cons_other; [discriminate|exact Hbody].
Qed.

Lemma manifest_render_round_trip_witness :
  render (lit "graft docs" ++ nl ++ _BEGIN_SECTION ++ (nl ++ lit "old" ++ nl)
          ++ _END_SECTION ++ nl ++ lit "prune tmp" ++ nl)
    [lit "include a"; lit "include b"]
  = (lit "graft docs" ++ nl) ++ _BEGIN_SECTION ++ nl
    ++ entry_lines [lit "include a"; lit "include b"]
    ++ _END_SECTION ++ nl ++ lit "prune tmp" ++ nl.
Proof.
  apply (proj1 (manifest_render_round_trip (lit "graft docs" ++ nl)
                  (nl ++ lit "old" ++ nl) (lit "prune tmp" ++ nl)
                  [lit "include a"; lit "include b"]
                  eq_refl eq_refl eq_refl)).
Defined.

(** C4, as the specification words it, fails for a rule that holds the end
    marker: the next render takes that line for the end of the section and
    the file grows. *)
Lemma manifest_render_not_idempotent :
  render
    (render (lit "graft docs" ++ nl ++ _BEGIN_SECTION ++ nl ++ lit "old" ++ nl
             ++ _END_SECTION ++ nl ++ lit "prune tmp" ++ nl)
       [lit "# }"])
    [lit "# }"]
  <> render (lit "graft docs" ++ nl ++ _BEGIN_SECTION ++ nl ++ lit "old" ++ nl
             ++ _END_SECTION ++ nl ++ lit "prune tmp" ++ nl)
       [lit "# }"].
Proof. intros H. vm_compute in H. discriminate H. Qed.

(** ** The description *)

Lemma replace_go_skip (old new p rest : str) :
  replace_go old new (length p) (p ++ rest) = replace_go old new 0 rest.
Proof.
  induction p as [|c p IH]; simpl; [reflexivity|exact IH].
Qed.

Lemma replace_go_hit (old new s : str) :
  old <> [] -> startswith s old = true ->
  replace_go old new 0 s = new ++ replace_go old new 0 (skipn (length old) s).
Proof.
  intros Hold Hs. apply startswith_inv in Hs as [r ->].
  destruct old as [|o old]; [congruence|].
  rewrite skipn_app, skipn_all, Nat.sub_diag. simpl skipn. simpl app at 2.
  simpl. rewrite Ascii.eqb_refl, startswith_app. simpl.
  rewrite Nat.sub_0_r. now rewrite replace_go_skip.
Qed.

Lemma replace_go_miss (old new : str) (c : ascii) (s : str) :
  startswith (c :: s) old = false ->
  replace_go old new 0 (c :: s) = c :: replace_go old new 0 s.
Proof. intros Hs. simpl replace_go. now rewrite Hs. Qed.

(** Replacing one character by another is a map. *)
Lemma replace_char (a b : ascii) (s : str) :
  replace s [a] [b] = map (fun c => if Ascii.eqb a c then b else c) s.
Proof.
  unfold replace. induction s as [|c s IH]; [reflexivity|].
  simpl. destruct (Ascii.eqb a c); simpl; now rewrite IH.
Qed.

Lemma unwrap_eq (d : str) :
  unwrap d =
  replace_go sentinel nl 0 (map nl_to_space (replace_go (nl ++ nl) sentinel 0 d)).
Proof.
  unfold unwrap. change (lit " ") with [space]. change nl with [nl_c] at 3.
  rewrite replace_char. reflexivity.
Qed.

Lemma unwrap_nil : unwrap [] = [].
Proof. reflexivity. Qed.

Lemma unwrap_nlnl (s : str) : unwrap (nl_c :: nl_c :: s) = nl_c :: unwrap s.
Proof.
  rewrite !unwrap_eq.
  rewrite (replace_go_hit (nl ++ nl) sentinel (nl_c :: nl_c :: s));
    [|discriminate|reflexivity].
  simpl skipn. rewrite map_app.
  change (map nl_to_space sentinel) with sentinel.
  rewrite (replace_go_hit sentinel nl); [|discriminate|apply startswith_app].
  rewrite skipn_app, skipn_all, Nat.sub_diag. reflexivity.
Qed.

Lemma unwrap_sentinel (s : str) : unwrap (sentinel ++ s) = nl_c :: unwrap s.
Proof.
  rewrite !unwrap_eq.
  change (sentinel ++ s) with (pct :: pct :: pct :: pct :: s).
  rewrite !replace_go_miss by reflexivity.
  change (map nl_to_space (pct :: pct :: pct :: pct :: ?x))
    with (sentinel ++ map nl_to_space x).
  rewrite (replace_go_hit sentinel nl); [|discriminate|apply startswith_app].
  rewrite skipn_app, skipn_all, Nat.sub_diag. reflexivity.
Qed.

Lemma unwrap_nl (s : str) :
  (forall s', s <> nl_c :: s') -> unwrap (nl_c :: s) = space :: unwrap s.
Proof.
  intros Hs. rewrite !unwrap_eq.
  rewrite replace_go_miss.
  - simpl map. rewrite replace_go_miss by reflexivity. reflexivity.
  - destruct s as [|c s]; [reflexivity|].
    change (nl ++ nl) with [nl_c; nl_c]. cbn [startswith].
    rewrite Ascii.eqb_refl.
    destruct (Ascii.eqb_spec nl_c c) as [<-|Hc]; [|reflexivity].
    exfalso; exact (Hs s eq_refl).
Qed.

Lemma unwrap_other (c : ascii) (s : str) :
  c <> nl_c -> c <> pct -> unwrap (c :: s) = c :: unwrap s.
Proof.
  intros Hn Hp. rewrite !unwrap_eq.
  assert (En : Ascii.eqb nl_c c = false) by (apply Ascii.eqb_neq; congruence).
  assert (Ep : Ascii.eqb pct c = false) by (apply Ascii.eqb_neq; congruence).
  rewrite replace_go_miss
    by (change (nl ++ nl) with [nl_c; nl_c]; cbn [startswith]; now rewrite En).
  simpl map. unfold nl_to_space at 1. rewrite En.
  rewrite replace_go_miss
    by (change sentinel with [pct; pct; pct; pct]; cbn [startswith];
        now rewrite Ep).
  reflexivity.
Qed.

Lemma fold_lines_nlnl (s : str) :
  fold_lines (nl_c :: nl_c :: s) = nl_c :: fold_lines s.
Proof. reflexivity. Qed.

Lemma fold_lines_other (c : ascii) (s : str) :
  c <> nl_c -> fold_lines (c :: s) = c :: fold_lines s.
Proof.
  intros Hc. cbn [fold_lines]. apply Ascii.eqb_neq in Hc. now rewrite Hc.
Qed.

Lemma fold_lines_nl (c : ascii) (s : str) :
  c <> nl_c -> fold_lines (nl_c :: c :: s) = space :: fold_lines (c :: s).
Proof.
  intros Hc. cbn [fold_lines]. apply Ascii.eqb_neq in Hc.
  now rewrite Ascii.eqb_refl, Hc.
Qed.

Lemma unwrap_app_aux (n : nat) :
  forall a z : str, length a <= n ->
  Forall (fun c => c <> pct) a -> (forall z', z <> nl_c :: z') ->
  unwrap (a ++ z) = fold_lines a ++ unwrap z.
Proof.
  induction n as [|n IH]; intros a z Hlen Ha Hz.
  - destruct a; [reflexivity|simpl in Hlen; lia].
  - destruct a as [|c a]; [reflexivity|].
    inversion Ha as [|? ? Hc Ha']; subst.
    simpl in Hlen.
    destruct (Ascii.eqb_spec c nl_c) as [->|Hn].
    + destruct a as [|c' a].
      * change (([nl_c] ++ z)) with (nl_c :: z). now rewrite unwrap_nl.
      * inversion Ha' as [|? ? Hc' Ha'']; subst. simpl in Hlen.
        destruct (Ascii.eqb_spec c' nl_c) as [->|Hn'].
        -- change ((nl_c :: nl_c :: a) ++ z) with (nl_c :: nl_c :: (a ++ z)).
           rewrite unwrap_nlnl, fold_lines_nlnl.
           rewrite (IH a z); [reflexivity|lia|assumption|assumption].
        -- change ((nl_c :: c' :: a) ++ z) with (nl_c :: ((c' :: a) ++ z)).
           rewrite unwrap_nl by (simpl; intros z' [= E _]; congruence).
           rewrite (IH (c' :: a) z); [|simpl; lia|assumption|assumption].
           now rewrite fold_lines_nl.
    + change ((c :: a) ++ z) with (c :: (a ++ z)).
      rewrite unwrap_other by assumption.
      rewrite (IH a z); [|lia|assumption|assumption].
      now rewrite fold_lines_other.
Qed.

Lemma unwrap_app (a z : str) :
  Forall (fun c => c <> pct) a -> (forall z', z <> nl_c :: z') ->
  unwrap (a ++ z) = fold_lines a ++ unwrap z.
Proof. apply (unwrap_app_aux (length a)); lia. Qed.

Lemma unwrap_fold (d : str) :
  Forall (fun c => c <> pct) d -> unwrap d = fold_lines d.
Proof.
  intros Hd. rewrite <- (app_nil_r d) at 1.
  rewrite unwrap_app; [|assumption|discriminate].
  rewrite unwrap_nil. apply app_nil_r.
Qed.

Lemma unwrap_sentinel_newline (a b : str) :
  Forall (fun c => c <> pct) a ->
  unwrap (a ++ sentinel ++ b) = fold_lines a ++ nl ++ unwrap b.
Proof.
  intros Ha. rewrite unwrap_app; [|assumption|discriminate].
  now rewrite unwrap_sentinel.
Qed.

Lemma unwrap_plain_app (a z : str) :
  Forall (fun c => c <> pct /\ c <> nl_c) a ->
  unwrap (a ++ z) = a ++ unwrap z.
Proof.
  induction 1 as [|c a [Hp Hn] _ IH]; [reflexivity|].
  change ((c :: a) ++ z) with (c :: (a ++ z)).
  rewrite unwrap_other by assumption. now rewrite IH.
Qed.

(** C3 (amended).  On a description with no percent sign, the three
    replacements turn every pair of newlines into ONE newline and every
    other newline into a space, and the result is stripped of leading and
    trailing whitespace. *)
Theorem description_folds_paragraphs (d : str) :
  Forall (fun c => c <> pct) d ->
  render_description d = strip (fold_lines d).
Proof.
  intros Hd. unfold render_description. now rewrite unwrap_fold.
Qed.

Lemma description_folds_paragraphs_witness :
  render_description
    (lit "Line one." ++ nl ++ nl ++ lit "Line two." ++ nl
     ++ lit "Line three.")
  = lit "Line one." ++ nl ++ lit "Line two. Line three.".
Proof.
  transitivity
    (strip (fold_lines (lit "Line one." ++ nl ++ nl ++ lit "Line two." ++ nl
                        ++ lit "Line three."))).
  - apply description_folds_paragraphs.
    repeat (apply Forall_cons; [discriminate|]). apply Forall_nil.
  - reflexivity.
Defined.

(** C3, as the specification words it, fails on its own example: the
    paragraph break comes out as one newline, not two. *)
Lemma description_example_differs :
  render_description
    (lit "Line one." ++ nl ++ nl ++ lit "Line two." ++ nl
     ++ lit "Line three.")
  <> lit "Line one." ++ nl ++ nl ++ lit "Line two. Line three.".
Proof. intros H. vm_compute in H. discriminate H. Qed.

Lemma startswith_app_l (a z old : str) :
  startswith a old = true -> startswith (a ++ z) old = true.
Proof.
  intros H. apply startswith_inv in H as [r ->].
  rewrite <- app_assoc. apply startswith_app.
Qed.

Lemma startswith_app_sep (old a : str) (c : ascii) (r : str) :
  ~ In c old -> startswith (a ++ c :: r) old = true ->
  startswith a old = true.
Proof.
  revert a. induction old as [|o old IH]; intros a Hc H.
  - destruct a; reflexivity.
  - destruct a as [|x a]; cbn [app startswith] in *.
    + destruct (Ascii.eqb_spec o c) as [->|]; [|discriminate].
      exfalso. apply Hc. now left.
    + destruct (Ascii.eqb o x); [|discriminate]. cbn [andb] in *.
      apply IH; [|exact H]. intros Hin. apply Hc. now right.
Qed.

Lemma replace_go_sep_aux (old new : str) (c : ascii) (n : nat) :
  old <> [] -> ~ In c old ->
  forall a r, length a <= n ->
  replace_go old new 0 (a ++ c :: r)
  = replace_go old new 0 a ++ c :: replace_go old new 0 r.
Proof.
  intros Hold Hc. induction n as [|n IH]; intros a r Hlen.
  - destruct a; [|simpl in Hlen; lia]. cbn [app].
    rewrite replace_go_miss; [reflexivity|].
    destruct (startswith (c :: r) old) eqn:E; [|reflexivity].
    exfalso. apply (startswith_app_sep old [] c r Hc) in E.
    destruct old; [congruence|discriminate].
  - destruct a as [|x a].
    { cbn [app]. rewrite replace_go_miss; [reflexivity|].
      destruct (startswith (c :: r) old) eqn:E; [|reflexivity].
      exfalso. apply (startswith_app_sep old [] c r Hc) in E.
      destruct old; [congruence|discriminate]. }
    destruct (startswith (x :: a) old) eqn:E.
    + pose proof (startswith_app_l _ (c :: r) _ E) as E'.
      rewrite (replace_go_hit old new _ Hold E').
      rewrite (replace_go_hit old new _ Hold E).
      apply startswith_inv in E as [t Et]. rewrite Et.
      rewrite <- app_assoc, !skipn_app, !skipn_all, Nat.sub_diag.
      cbn [skipn app]. rewrite <- app_assoc. f_equal.
      apply IH.
      assert (length (x :: a) = length old + length t)
        by (rewrite Et; apply length_app).
      destruct old; [congruence|]. simpl in *. lia.
    + assert (E' : startswith ((x :: a) ++ c :: r) old = false).
      { destruct (startswith ((x :: a) ++ c :: r) old) eqn:E2; [|reflexivity].
        apply (startswith_app_sep old _ c r Hc) in E2. congruence. }
      cbn [app] in *. rewrite !replace_go_miss by assumption.
      cbn [app]. f_equal. apply IH. simpl in Hlen. lia.
Qed.

Lemma replace_go_sep (old new a : str) (c : ascii) (r : str) :
  old <> [] -> ~ In c old ->
  replace_go old new 0 (a ++ c :: r)
  = replace_go old new 0 a ++ c :: replace_go old new 0 r.
Proof. intros Hold Hc. now apply (replace_go_sep_aux old new c (length a)). Qed.

(** The three replacements work on each side of a character that is
    neither a percent sign nor a newline. *)
Lemma unwrap_sep (a : str) (c : ascii) (z : str) :
  c <> pct -> c <> nl_c ->
  unwrap (a ++ c :: z) = unwrap a ++ c :: unwrap z.
Proof.
  intros Hp Hn. rewrite !unwrap_eq.
  rewrite (replace_go_sep (nl ++ nl) sentinel a c z).
  2: discriminate.
  2: { change (nl ++ nl) with [nl_c; nl_c].
       intros [H|[H|[]]]; congruence. }
  rewrite map_app. cbn [map].
  replace (nl_to_space c) with c.
  2: { unfold nl_to_space. destruct (Ascii.eqb_spec nl_c c); congruence. }
  apply replace_go_sep; [discriminate|].
  change sentinel with [pct; pct; pct; pct].
  intros [H|[H|[H|[H|[]]]]]; congruence.
Qed.

Lemma unwrap_snoc (a : str) (c : ascii) :
  c <> pct -> c <> nl_c -> unwrap (a ++ [c]) = unwrap a ++ [c].
Proof. intros Hp Hn. now rewrite unwrap_sep, unwrap_nil. Qed.

Lemma unwrap_after (a1 z : str) :
  (a1 = [] \/ exists a' c, a1 = a' ++ [c] /\ c <> pct /\ c <> nl_c) ->
  unwrap (a1 ++ z) = unwrap a1 ++ unwrap z.
Proof.
  intros [->|(a' & c & -> & Hp & Hn)]; [reflexivity|].
  rewrite <- app_assoc. cbn [app].
  rewrite unwrap_sep, unwrap_snoc by assumption.
  now rewrite <- app_assoc.
Qed.

Lemma unwrap_sentinel_aligned (a1 a2 b : str) :
  (a1 = [] \/ exists a' c, a1 = a' ++ [c] /\ c <> pct /\ c <> nl_c) ->
  Forall (fun c => c <> pct) a2 ->
  unwrap (a1 ++ a2 ++ sentinel ++ b) = unwrap (a1 ++ a2) ++ nl ++ unwrap b.
Proof.
  intros H1 H2. rewrite !(unwrap_after a1) by exact H1.
  rewrite (unwrap_sentinel_newline a2 b H2).
  rewrite (unwrap_fold a2 H2). now rewrite <- app_assoc.
Qed.

Lemma lstrip_keep (u : str) (c : ascii) (z : str) :
  isspace c = false -> lstrip (u ++ c :: z) = lstrip (u ++ [c]) ++ z.
Proof.
  intros Hc. induction u as [|x u IH]; cbn [app lstrip].
  - now rewrite Hc.
  - destruct (isspace x); [exact IH|].
    cbn [app]. now rewrite <- app_assoc.
Qed.

Lemma rstrip_keep (z : str) (c : ascii) (v : str) :
  isspace c = false -> rstrip (z ++ c :: v) = z ++ rstrip (c :: v).
Proof.
  intros Hc. unfold rstrip. rewrite rev_app_distr. cbn [rev].
  rewrite <- app_assoc. cbn [app].
  rewrite lstrip_keep by exact Hc. rewrite rev_app_distr, rev_involutive.
  reflexivity.
Qed.

Lemma strip_keep (u : str) (c : ascii) (m : str) (c' : ascii) (v : str) :
  isspace c = false -> isspace c' = false ->
  strip (u ++ c :: m ++ c' :: v)
  = lstrip (u ++ [c]) ++ m ++ rstrip (c' :: v).
Proof.
  intros Hc Hc'. unfold strip. rewrite lstrip_keep by exact Hc.
  rewrite app_assoc, rstrip_keep by exact Hc'. now rewrite <- app_assoc.
Qed.

(** C10 (amended).  Take a description [a ++ "%%%%" ++ b] in which every
    percent sign of [a] is followed, inside [a], by a character that is
    neither a percent sign nor a newline: [a] is [a1 ++ a2] with [a1]
    empty or ending with such a character, and [a2] free of percent
    signs.  Then, before the final [strip], the three replacements give
    what they give on [a], a newline, and what they give on [b]: the
    [%%%%] comes out as a newline, as a paragraph break would.  When the
    characters next to the [%%%%] are neither whitespace nor percent
    signs, the newline is still there after [strip].  So two descriptions
    that differ, one with [%%%%] where the other has a blank line, are
    rendered alike. *)
Theorem sentinel_rendered_as_newline :
  (forall a1 a2 b,
     (a1 = [] \/ exists a' c, a1 = a' ++ [c] /\ c <> pct /\ c <> nl_c) ->
     Forall (fun c => c <> pct) a2 ->
     unwrap (a1 ++ a2 ++ sentinel ++ b) = unwrap (a1 ++ a2) ++ nl ++ unwrap b
     /\ render_description (a1 ++ a2 ++ sentinel ++ b)
        = strip (unwrap (a1 ++ a2) ++ nl ++ unwrap b))
  /\ (forall a b,
        Forall (fun c => c <> pct) a ->
        render_description (a ++ sentinel ++ b)
        = strip (fold_lines a ++ nl ++ unwrap b))
  /\ (forall a c c' b,
        c <> pct -> c <> nl_c -> isspace c = false ->
        c' <> pct -> c' <> nl_c -> isspace c' = false ->
        render_description (a ++ [c] ++ sentinel ++ c' :: b)
        = lstrip (unwrap a ++ [c]) ++ nl ++ rstrip (c' :: unwrap b))
  /\ (forall a b,
        (a = [] \/ exists a' c, a = a' ++ [c] /\ c <> pct /\ c <> nl_c) ->
        a ++ sentinel ++ b <> a ++ nl ++ nl ++ b /\
        render_description (a ++ sentinel ++ b)
        = render_description (a ++ nl ++ nl ++ b)).
Proof.
  split; [|split; [|split]].
  - intros a1 a2 b H1 H2.
    pose proof (unwrap_sentinel_aligned a1 a2 b H1 H2) as E.
    split; [exact E|]. unfold render_description.
    now rewrite E.
  - intros a b Ha. unfold render_description.
    now rewrite unwrap_sentinel_newline.
  - intros a c c' b Hp Hn Hs Hp' Hn' Hs'. unfold render_description.
    cbn [app]. rewrite unwrap_sep by assumption.
    rewrite unwrap_sentinel, unwrap_other by assumption.
    change (nl_c :: c' :: unwrap b) with (nl ++ c' :: unwrap b).
    now rewrite strip_keep.
  - intros a b Ha. split.
    + intros E. apply app_inv_head in E. discriminate E.
    + unfold render_description. f_equal.
      rewrite !(unwrap_after a) by exact Ha. apply f_equal.
      change (nl ++ nl ++ b) with (nl_c :: nl_c :: b).
      now rewrite unwrap_sentinel, unwrap_nlnl.
Qed.

Lemma sentinel_rendered_as_newline_witness :
  render_description (lit "5% off %%%% now")
  = lit "5% off " ++ nl ++ lit " now"
  /\ render_description (lit "50" ++ sentinel ++ lit " off")
     = lit "50" ++ nl ++ lit " off"
  /\ render_description (lit " a" ++ sentinel ++ lit "b ")
     = lit "a" ++ nl ++ lit "b"
  /\ render_description (lit "5% off" ++ sentinel ++ lit " now")
     = render_description (lit "5% off" ++ nl ++ nl ++ lit " now").
Proof.
  split; [|split; [|split]].
  - transitivity (strip (unwrap (lit "5% off " ++ []) ++ nl
                         ++ unwrap (lit " now"))).
    + apply (proj1 sentinel_rendered_as_newline
               (lit "5% off ") [] (lit " now")).
      * right. exists (lit "5% off"), " "%char.
        split; [reflexivity|]. split; discriminate.
      * apply Forall_nil.
    + reflexivity.
  - transitivity (strip (fold_lines (lit "50") ++ nl ++ unwrap (lit " off"))).
    + apply (proj1 (proj2 sentinel_rendered_as_newline)).
      repeat (apply Forall_cons; [discriminate|]). apply Forall_nil.
    + reflexivity.
  - transitivity (lstrip (unwrap (lit " ") ++ ["a"%char]) ++ nl
                  ++ rstrip ("b"%char :: unwrap (lit " "))).
    + apply (proj1 (proj2 (proj2 sentinel_rendered_as_newline))
               (lit " ") "a"%char "b"%char (lit " "));
        first [discriminate | reflexivity].
    + reflexivity.
  - apply (proj2 (proj2 (proj2 sentinel_rendered_as_newline))).
    right. exists (lit "5% of"), "f"%char.
    split; [reflexivity|]. split; discriminate.
Defined.

(** C10, as the specification words it, fails for a [%%%%] at the end of
    the description, where [strip] removes the newline, and for a [%%%%]
    that starts inside a longer run of percent signs, where the
    replacement takes four signs that start earlier. *)
Lemma sentinel_not_always_newline :
  lit "tail%%%%" = lit "tail" ++ sentinel ++ []
  /\ render_description (lit "tail%%%%") = lit "tail"
  /\ ~ In nl_c (render_description (lit "tail%%%%"))
  /\ lit "x%%%%%y" = lit "x%" ++ sentinel ++ lit "y"
  /\ render_description (lit "x%%%%%y") = lit "x" ++ nl ++ lit "%y"
  /\ render_description (lit "x%%%%%y") <> lit "x%" ++ nl ++ lit "y".
Proof.
  split; [reflexivity|]. split; [reflexivity|]. split.
  { intros H. vm_compute in H. intuition discriminate. }
  split; [reflexivity|]. split; [reflexivity|].
  intros H. vm_compute in H. discriminate H.
Qed.

(** ** The version scanner and the version helper of [setup.py] *)

Section VersionScan.

Context {W : Type} `{OS W}.

(** C8 (amended).  When the entry file is not an existing file, the scan
    yields nothing and raises nothing. *)
Theorem version_scan_missing_file (w : W) (entry_file : str) :
  path_isfile w entry_file = false ->
  get_package_version_refs w entry_file = Ok [].
Proof.
  intros Hf. unfold get_package_version_refs. now rewrite Hf.
Qed.

End VersionScan.

Lemma version_scan_missing_file_witness :
  get_package_version_refs Sim.empty (lit "src/demo/__init__.py") = Ok [].
Proof.
  apply (@version_scan_missing_file Sim.World Sim.sim_os).
  reflexivity.
Defined.

(** C8, as the specification words it, fails: on a file system without
    the entry file the scan ends without an error. *)
Lemma version_scan_missing_file_no_error :
  path_isfile Sim.empty (lit "src/demo/__init__.py") = false
  /\ ~ exists e,
         get_package_version_refs Sim.empty (lit "src/demo/__init__.py")
         = Raise e.
Proof.
  split; [reflexivity|]. intros [e He]. discriminate He.
Qed.

(** C2.  The pattern written into [setup.py] is not the scanner's.  On an
    entry file with a double-quoted version the scanner finds the version
    and the generated helper fails on [None]; on a line that has a second
    single quote the two find different values. *)
Theorem version_patterns_disagree :
  setup_version_pattern <> _VERSION_REGEX
  /\ scanned_value
       (get_package_version_refs
          (Sim.single (lit "demo.py")
             (lit "__version__ = " ++ [dquote] ++ lit "1.0" ++ [dquote] ++ nl))
          (lit "demo.py"))
     = Some (lit "1.0")
  /\ setup_version
       (lit "__version__ = " ++ [dquote] ++ lit "1.0" ++ [dquote] ++ nl)
     = Raise (AttributeError
                (lit "'NoneType' object has no attribute 'group'"))
  /\ scanned_value
       (get_package_version_refs
          (Sim.single (lit "demo.py")
             (lit "__version__ = '1.0'  # don't edit" ++ nl))
          (lit "demo.py"))
     = Some (lit "1.0")
  /\ setup_version (lit "__version__ = '1.0'  # don't edit" ++ nl)
     = Ok (lit "1.0'  # don").
Proof.
  split; [intros E; vm_compute in E; discriminate E|].
  repeat split; vm_compute; reflexivity.
Qed.

(** ** Replacing one text without touching another *)


Lemma compat_app (u y b b' : str) : u ++ b = y ++ b' -> compat u y = true.
Proof.
  revert y; induction u as [|c u IH]; intros [|c' y] Hu; try reflexivity.
  simpl in Hu. injection Hu as -> Hu. simpl.
  rewrite Ascii.eqb_refl. exact (IH _ Hu).
Qed.

Lemma overlap_compat (x y : str) (k j : nat) (s : str) :
  occurs_at x k s -> occurs_at y j s -> k <= j < k + length x ->
  compat (skipn (j - k) x) y = true.
Proof.
  intros (a & b & Hx & Ha) (a' & b' & Hy & Ha') Hkj.
  apply (compat_app _ _ b b').
  assert (E1 : skipn j s = y ++ b').
  { rewrite Hy, skipn_app, skipn_all2 by lia.
    now replace (j - length a') with 0 by lia. }
  assert (E2 : skipn j s = skipn (j - k) x ++ b).
  { rewrite Hx, skipn_app, skipn_all2 by lia. simpl.
    rewrite skipn_app, Ha.
    replace (j - k - length x) with 0 by lia. reflexivity. }
  congruence.
Qed.

Lemma never_overlap_spec (x y : str) (k j : nat) (s : str) :
  never_overlap x y = true ->
  occurs_at x k s -> occurs_at y j s ->
  k + length x <= j \/ j + length y <= k.
Proof.
  unfold never_overlap. rewrite andb_true_iff, !forallb_forall.
  intros [Hxy Hyx] Hx Hy.
  destruct (Nat.le_gt_cases (k + length x) j) as [|Hlt]; [now left|].
  destruct (Nat.le_gt_cases (j + length y) k) as [|Hlt']; [now right|].
  exfalso. destruct (Nat.le_gt_cases k j) as [Hkj|Hjk].
  - pose proof (overlap_compat x y k j s Hx Hy ltac:(lia)) as Hc.
    specialize (Hxy (j - k)). rewrite Hc in Hxy.
    assert (In (j - k) (seq 0 (length x))) by (apply in_seq; lia).
    specialize (Hxy H). discriminate.
  - pose proof (overlap_compat y x j k s Hy Hx ltac:(lia)) as Hc.
    specialize (Hyx (k - j)). rewrite Hc in Hyx.
    assert (In (k - j) (seq 0 (length y))) by (apply in_seq; lia).
    specialize (Hyx H). discriminate.
Qed.


Lemma startswith_false_occurs (s old : str) :
  startswith s old = false <-> ~ occurs_at old 0 s.
Proof.
  rewrite occurs_at_skipn. simpl. split.
  - intros Hs [_ Ht]. congruence.
  - intros Hn. destruct (startswith s old); [|reflexivity].
    exfalso; apply Hn; split; [lia|reflexivity].
Qed.

(** A prefix of the text that no occurrence of [old] touches is still a
    prefix after the replacement. *)
Lemma replace_go_keeps_prefix (old new u : str) :
  forall s, startswith s u = true ->
  (forall j, j < length u -> ~ occurs_at old j s) ->
  startswith (replace_go old new 0 s) u = true.
Proof.
  induction u as [|a u IH]; intros s Hs Hno; [reflexivity|].
  destruct s as [|c s]; [discriminate|].
  cbn [startswith] in Hs. apply andb_true_iff in Hs as [Hac Hs].
  rewrite replace_go_miss.
  - cbn [startswith]. rewrite Hac. cbn [andb]. apply IH; [exact Hs|].
    intros j Hj Ho. apply (Hno (S j)); [simpl; lia|].
    now apply occurs_at_cons.
  - apply startswith_false_occurs. apply Hno. simpl; lia.
Qed.

(** An occurrence of [t] that cannot overlap [old] survives the
    replacement of [old]. *)
Lemma replace_go_preserves (old new t : str) :
  old <> [] -> t <> [] -> never_overlap t old = true ->
  forall n s, length s <= n ->
  (exists k, occurs_at t k s) ->
  exists k, occurs_at t k (replace_go old new 0 s).
Proof.
  intros Hold Ht Hnev. induction n as [|n IH]; intros s Hn [k Hk].
  - destruct s; [|simpl in Hn; lia].
    apply occurs_at_bound in Hk. destruct t; [congruence|simpl in Hk; lia].
  - destruct s as [|c s].
    { apply occurs_at_bound in Hk. destruct t; [congruence|simpl in Hk; lia]. }
    destruct (startswith (c :: s) old) eqn:Hhit.
    + rewrite (replace_go_hit old new (c :: s) Hold Hhit).
      assert (Ho : occurs_at old 0 (c :: s)).
      { apply occurs_at_skipn. split; [simpl; lia|exact Hhit]. }
      destruct (never_overlap_spec t old k 0 (c :: s) Hnev Hk Ho) as [Hl|Hl].
      { destruct t; [congruence|simpl in Hl; lia]. }
      apply startswith_inv in Hhit as [rest Hrest].
      rewrite Hrest in *. rewrite skipn_app, skipn_all, Nat.sub_diag.
      cbn [skipn app].
      apply occurs_at_shift in Hk; [|lia].
      destruct (IH rest) as [k' Hk'].
      * rewrite length_app in Hn. destruct old; [congruence|].
        simpl in Hn. lia.
      * eauto.
      * exists (length new + k'). now apply occurs_at_app_l.
    + rewrite replace_go_miss by exact Hhit.
      destruct k as [|k].
      * exists 0. apply occurs_at_skipn. split; [simpl; lia|]. cbn [skipn].
        rewrite <- (replace_go_miss old new c s Hhit).
        apply replace_go_keeps_prefix.
        -- apply occurs_at_skipn in Hk as [_ Hk]. exact Hk.
        -- intros j Hj Ho.
           destruct (never_overlap_spec t old 0 j (c :: s) Hnev Hk Ho) as [Hl|Hl].
           ++ lia.
           ++ destruct old; [congruence|simpl in Hl; lia].
      * apply occurs_at_cons in Hk.
        destruct (IH s) as [k' Hk']; [simpl in Hn; lia|eauto|].
        exists (S k'). now apply occurs_at_cons.
Qed.

(** The other way round: [u] is the rest of [t] from some index on; if the
    replaced text starts with [u], and [t] cannot overlap [new], the text
    itself started with [u]. *)
Lemma replace_go_prefix_back (old new t : str) :
  old <> [] -> new <> [] ->
  (forall i, i < length t -> compat (skipn i t) new = false) ->
  forall s i, startswith (replace_go old new 0 s) (skipn i t) = true ->
  startswith s (skipn i t) = true.
Proof.
  intros Hold Hnew Hc. induction s as [|c s IH]; intros i Hs.
  - simpl in Hs. destruct (skipn i t); [reflexivity|discriminate].
  - destruct (Nat.le_gt_cases (length t) i) as [Hi|Hi].
    { rewrite skipn_all2 by exact Hi. reflexivity. }
    destruct (startswith (c :: s) old) eqn:Hhit.
    + rewrite (replace_go_hit old new (c :: s) Hold Hhit) in Hs.
      exfalso. apply startswith_inv in Hs as [r Hr].
      specialize (Hc i Hi).
      rewrite (compat_app (skipn i t) new r
                 (replace_go old new 0 (skipn (length old) (c :: s)))) in Hc;
        [discriminate|now symmetry].
    + rewrite replace_go_miss in Hs by exact Hhit.
      destruct (skipn i t) as [|a u] eqn:Hu; [reflexivity|].
      assert (Hu' : u = skipn (S i) t).
      { replace (S i) with (1 + i) by lia. rewrite <- skipn_skipn, Hu. reflexivity. }
      cbn [startswith] in *. apply andb_true_iff in Hs as [Hac Hs].
      rewrite Hac. cbn [andb]. rewrite Hu' in *. now apply IH.
Qed.

(** The replacement creates no occurrence of a text that cannot overlap
    what is put in. *)
Lemma replace_go_reflects (old new t : str) :
  old <> [] -> new <> [] -> t <> [] -> never_overlap t new = true ->
  forall n s, length s <= n ->
  (exists k, occurs_at t k (replace_go old new 0 s)) ->
  exists k, occurs_at t k s.
Proof.
  intros Hold Hnew Ht Hnev.
  assert (Hc : forall i, i < length t -> compat (skipn i t) new = false).
  { intros i Hi. unfold never_overlap in Hnev.
    apply andb_true_iff in Hnev as [Hnev _]. rewrite forallb_forall in Hnev.
    apply negb_true_iff. apply Hnev. apply in_seq; lia. }
  induction n as [|n IH]; intros s Hn [k Hk].
  - destruct s; [|simpl in Hn; lia]. exists k. exact Hk.
  - destruct s as [|c s]; [exists k; exact Hk|].
    destruct (startswith (c :: s) old) eqn:Hhit.
    + rewrite (replace_go_hit old new (c :: s) Hold Hhit) in Hk.
      apply startswith_inv in Hhit as [rest Hrest].
      rewrite Hrest in *. rewrite skipn_app, skipn_all, Nat.sub_diag in Hk.
      cbn [skipn app] in Hk.
      assert (Ho : occurs_at new 0 (new ++ replace_go old new 0 rest)).
      { exists [], (replace_go old new 0 rest). split; reflexivity. }
      destruct (never_overlap_spec t new k 0 _ Hnev Hk Ho) as [Hl|Hl].
      { destruct t; [congruence|simpl in Hl; lia]. }
      apply occurs_at_shift in Hk; [|lia].
      destruct (IH rest) as [k' Hk'].
      * rewrite length_app in Hn. destruct old; [congruence|].
        simpl in Hn. lia.
      * eauto.
      * exists (length old + k'). now apply occurs_at_app_l.
    + destruct k as [|k].
      * exists 0. apply occurs_at_skipn in Hk as [_ Hk]. cbn [skipn] in Hk.
        apply occurs_at_skipn. split; [simpl; lia|]. cbn [skipn].
        apply (replace_go_prefix_back old new t Hold Hnew Hc (c :: s) 0).
        exact Hk.
      * rewrite replace_go_miss in Hk by exact Hhit.
        apply occurs_at_cons in Hk.
        destruct (IH s) as [k' Hk']; [simpl in Hn; lia|eauto|].
        exists (S k'). now apply occurs_at_cons.
Qed.

(** ** Placeholders under [repr] *)


Lemma in_all_ascii (c : ascii) : In c all_ascii.
Proof.
  unfold all_ascii. rewrite <- (ascii_nat_embedding c).
  apply in_map, in_seq. pose proof (nat_ascii_bounded c). lia.
Qed.


Lemma str_eqb_eq (a b : str) : str_eqb a b = true <-> a = b.
Proof.
  unfold str_eqb. destruct (list_eq_dec ascii_dec a b); split; congruence.
Qed.

Lemma existsb_eqb_In (h : ascii) (r : str) :
  existsb (Ascii.eqb h) r = false -> ~ In h r.
Proof.
  intros He Hin. assert (existsb (Ascii.eqb h) r = true); [|congruence].
  apply existsb_exists. exists h. split; [exact Hin|apply Ascii.eqb_refl].
Qed.

Section ReprOccurrences.

Variable quote : ascii.
Variable h : ascii.
Variable t' : str.
Local Abbreviation t := (h :: t').

Hypothesis Hplain : forall c, In c t -> repr_char quote c = [c].
Hypothesis Hshape : forallb (repr_char_ok h quote) all_ascii = true.
Hypothesis Hbs : ~ In backslash t.
Hypothesis Hq : ~ In quote t.

Lemma repr_char_shape (c : ascii) :
  repr_char quote c = [c] \/
  exists r, repr_char quote c = backslash :: r /\ ~ In h r.
Proof.
  pose proof (proj1 (forallb_forall _ _) Hshape c (in_all_ascii c)) as Hc.
  unfold repr_char_ok in Hc. apply orb_true_iff in Hc as [Hc|Hc].
  - left. now apply str_eqb_eq.
  - right. destruct (repr_char quote c) as [|b r]; [discriminate|].
    apply andb_true_iff in Hc as [Hb Hr]. apply Ascii.eqb_eq in Hb. subst b.
    exists r. split; [reflexivity|].
    apply existsb_eqb_In. now apply negb_true_iff.
Qed.

Lemma flat_map_plain (u : str) :
  (forall c, In c u -> repr_char quote c = [c]) ->
  flat_map (repr_char quote) u = u.
Proof.
  induction u as [|c u IH]; intros Hu; [reflexivity|].
  simpl. rewrite (Hu c) by (now left). simpl. f_equal.
  apply IH. intros; apply Hu; now right.
Qed.

Lemma quoted_keeps (s : str) :
  (exists k, occurs_at t k s) ->
  exists k, occurs_at t k (quote :: flat_map (repr_char quote) s ++ [quote]).
Proof.
  intros (k & a & b & -> & _).
  rewrite !flat_map_app, (flat_map_plain t Hplain).
  exists (S (length (flat_map (repr_char quote) a))).
  exists (quote :: flat_map (repr_char quote) a),
         (flat_map (repr_char quote) b ++ [quote]).
  split; [|reflexivity]. rewrite <- !app_assoc. reflexivity.
Qed.

(** If the escaped text starts with [u], a text free of backslashes, the
    text itself starts with [u]. *)
Lemma escaped_prefix_back (u : str) :
  ~ In backslash u ->
  forall s, startswith (flat_map (repr_char quote) s) u = true ->
  startswith s u = true.
Proof.
  induction u as [|a u IH]; intros Hu s Hs; [reflexivity|].
  destruct s as [|c s]; [discriminate|].
  cbn [flat_map] in Hs.
  destruct (repr_char_shape c) as [Hc|(r & Hc & _)]; rewrite Hc in Hs.
  - cbn [app startswith] in *. apply andb_true_iff in Hs as [Hac Hs].
    rewrite Hac. cbn [andb]. apply IH; [|exact Hs].
    intros Hin; apply Hu; now right.
  - exfalso. cbn [app startswith] in Hs.
    apply andb_true_iff in Hs as [Hac _]. apply Ascii.eqb_eq in Hac.
    apply Hu. left. now symmetry.
Qed.

Lemma escaped_reflects (s : str) :
  forall k, occurs_at t k (flat_map (repr_char quote) s) ->
  exists k', occurs_at t k' s.
Proof.
  induction s as [|c s IH]; intros k Hk.
  - apply occurs_at_bound in Hk. simpl in Hk. lia.
  - cbn [flat_map] in Hk.
    destruct (Nat.le_gt_cases (length (repr_char quote c)) k) as [Hge|Hlt].
    + apply occurs_at_shift in Hk; [|exact Hge].
      destruct (IH _ Hk) as [k' Hk']. exists (S k'). now apply occurs_at_cons.
    + destruct k as [|k].
      * exists 0. apply occurs_at_skipn in Hk as [_ Hk]. cbn [skipn] in Hk.
        apply occurs_at_skipn. split; [simpl; lia|]. cbn [skipn].
        apply escaped_prefix_back; [exact Hbs|exact Hk].
      * exfalso.
        destruct (repr_char_shape c) as [Hc|(r & Hc & Hr)]; rewrite Hc in *.
        -- simpl in Hlt. lia.
        -- pose proof (occurs_at_nth t (S k) _ 0 Hk ltac:(simpl; lia)) as Hn.
           rewrite Nat.add_0_r in Hn. cbn [nth_error] in Hn.
           simpl in Hlt. cbn [app nth_error] in Hn.
           rewrite nth_error_app1 in Hn by lia.
           apply Hr. now apply (nth_error_In _ k).
Qed.

Lemma quoted_reflects (s : str) :
  (exists k, occurs_at t k (quote :: flat_map (repr_char quote) s ++ [quote])) ->
  exists k, occurs_at t k s.
Proof.
  intros [k Hk]. destruct k as [|k].
  - exfalso. pose proof (occurs_at_nth t 0 _ 0 Hk ltac:(simpl; lia)) as Hn.
    simpl in Hn. injection Hn as Hn. apply Hq. left. now symmetry.
  - apply occurs_at_cons in Hk.
    set (F := flat_map (repr_char quote) s) in *.
    destruct (Nat.le_gt_cases (k + length t) (length F)) as [Hin|Hover].
    + apply occurs_at_inside in Hk; [|exact Hin].
      exact (escaped_reflects s k Hk).
    + exfalso. pose proof (occurs_at_bound _ _ _ Hk) as Hb.
      rewrite length_app in Hb. simpl in Hb.
      pose proof (occurs_at_nth t k _ (length F - k) Hk ltac:(lia)) as Hn.
      replace (k + (length F - k)) with (length F) in Hn by lia.
      rewrite nth_error_app2, Nat.sub_diag in Hn by lia. simpl in Hn.
      apply Hq. symmetry in Hn. now apply (nth_error_In _ _ Hn).
Qed.

End ReprOccurrences.


Lemma contains_eq (t a b : str) :
  ((exists k, occurs_at t k a) <-> (exists k, occurs_at t k b)) ->
  contains t a = contains t b.
Proof.
  intros Hiff. destruct (contains t b) eqn:Hb.
  - apply contains_true. apply Hiff. now apply contains_true.
  - destruct (contains t a) eqn:Ha; [|reflexivity].
    apply contains_true in Ha. apply Hiff in Ha. apply contains_true in Ha.
    congruence.
Qed.

Lemma repr_quote (s : str) :
  exists q, (q = squote \/ q = dquote) /\
            repr s = q :: flat_map (repr_char q) s ++ [q].
Proof.
  unfold repr.
  destruct (existsb (Ascii.eqb squote) s && negb (existsb (Ascii.eqb dquote) s)).
  - exists dquote. split; [now right|reflexivity].
  - exists squote. split; [now left|reflexivity].
Qed.

Lemma forallb_In {A} (f : A -> bool) (l : list A) (x : A) :
  forallb f l = true -> In x l -> f x = true.
Proof. intros Hf Hx. exact (proj1 (forallb_forall f l) Hf x Hx). Qed.

(** A placeholder occurs in [repr(s)] exactly when it occurs in [s]: none
    of its characters is escaped, and no escape has a brace. *)
Lemma repr_contains_placeholder (t : str) (s : str) :
  t = tok1 \/ t = tok2 ->
  contains t (repr s) = contains t s.
Proof.
  intros Ht. destruct (repr_quote s) as (q & Hq & ->).
  assert (Hh : exists t', t = "{"%char :: t') by (destruct Ht as [->| ->]; eexists; reflexivity).
  destruct Hh as [t' Et].
  assert (Hplain : forall c, In c t -> repr_char q c = [c]).
  { intros c Hc. apply str_eqb_eq.
    apply (forallb_In (fun c => str_eqb (repr_char q c) [c]) t c); [|exact Hc].
    destruct Ht as [->| ->], Hq as [->| ->]; vm_compute; reflexivity. }
  assert (Hshape : forallb (repr_char_ok "{"%char q) all_ascii = true).
  { destruct Hq as [->| ->]; vm_compute; reflexivity. }
  assert (Hbs : ~ In backslash t).
  { apply existsb_eqb_In. destruct Ht as [->| ->]; vm_compute; reflexivity. }
  assert (Hqt : ~ In q t).
  { apply existsb_eqb_In.
    destruct Ht as [->| ->], Hq as [->| ->]; vm_compute; reflexivity. }
  apply contains_eq. rewrite Et in *. split.
  - apply quoted_reflects with (quote := q); assumption.
  - apply quoted_keeps; assumption.
Qed.

Lemma replace_contains_tok2 (x : str) :
  contains tok2 (replace x tok1 (lit "{0}")) = contains tok2 x.
Proof.
  apply contains_eq. change (replace x tok1 (lit "{0}"))
    with (replace_go tok1 (lit "{0}") 0 x). split.
  - apply (replace_go_reflects tok1 (lit "{0}") tok2) with (n := length x);
      try discriminate; try lia. vm_compute; reflexivity.
  - apply (replace_go_preserves tok1 (lit "{0}") tok2) with (n := length x);
      try discriminate; try lia. vm_compute; reflexivity.
Qed.

Lemma format_item_cases (s : str) :
  format_item s =
  if contains tok1 s then
    if contains tok2 s then
      replace (replace (repr s) tok1 (lit "{0}")) tok2 (lit "{1}")
        ++ lit ".format(sys.version[0], sys.version[:3])"
    else replace (repr s) tok1 (lit "{0}") ++ lit ".format(sys.version[0])"
  else
    if contains tok2 s then
      replace (repr s) tok2 (lit "{0}") ++ lit ".format(sys.version[:3])"
    else repr s.
Proof.
  unfold format_item, _ENTRTYPOINT_VARS. cbn [fold_left].
  unfold subst_var at 2. cbn [fst snd].
  change (lit "{{" ++ lit "python-major-version" ++ lit "}}") with tok1.
  rewrite (repr_contains_placeholder tok1 s) by (now left).
  destruct (contains tok1 s); unfold subst_var; cbn [fst snd];
    change (lit "{{" ++ lit "python-major-minor-version" ++ lit "}}") with tok2.
  - rewrite replace_contains_tok2.
    rewrite (repr_contains_placeholder tok2 s) by (now right).
    destruct (contains tok2 s); reflexivity.
  - rewrite (repr_contains_placeholder tok2 s) by (now right).
    destruct (contains tok2 s); reflexivity.
Qed.

(** ** The entry-point table *)

Lemma strip_bounded (a z : ascii) (mid : str) :
  isspace a = false -> isspace z = false ->
  strip (a :: mid ++ [z]) = a :: mid ++ [z].
Proof.
  intros Ha Hz. unfold strip, rstrip. cbn [lstrip]. rewrite Ha.
  change (a :: mid ++ [z]) with ((a :: mid) ++ [z]).
  rewrite rev_app_distr. cbn [rev app lstrip]. rewrite Hz.
  cbn [rev]. rewrite rev_app_distr, rev_involutive. reflexivity.
Qed.


Lemma replace_quoted (q : ascii) (x : str) (t new : str) :
  (q = squote \/ q = dquote) -> t = tok1 \/ t = tok2 ->
  replace (q :: x) t new = q :: replace x t new.
Proof.
  intros Hq Ht. unfold replace.
  destruct Ht as [->| ->]; cbn [tok1 tok2 lit list_ascii_of_string];
    apply replace_go_miss; cbn [startswith];
    destruct Hq as [->| ->]; reflexivity.
Qed.


(** The text of an item opens with its quote and closes with a quote or a
    bracket, so [strip] leaves it alone. *)
Lemma strip_format_item (s : str) : strip (format_item s) = format_item s.
Proof.
  assert (Hshape : exists a mid z, format_item s = a :: mid ++ [z] /\
                   isspace a = false /\ isspace z = false).
  { rewrite format_item_cases. destruct (repr_quote s) as (q & Hq & ->).
    assert (Hqs : isspace q = false) by (destruct Hq as [->| ->]; reflexivity).
    destruct (contains tok1 s), (contains tok2 s).
    - rewrite (replace_quoted q _ tok1 _ Hq) by (now left).
      rewrite (replace_quoted q _ tok2 _ Hq) by (now right).
      exists q. eexists. exists ")"%char. split; [|split; [exact Hqs|reflexivity]].
      cbn [app]. f_equal.
      change (lit ".format(sys.version[0], sys.version[:3])")
        with (lit ".format(sys.version[0], sys.version[:3]" ++ [")"%char]).
      rewrite app_assoc. reflexivity.
    - rewrite (replace_quoted q _ tok1 _ Hq) by (now left).
      exists q. eexists. exists ")"%char. split; [|split; [exact Hqs|reflexivity]].
      cbn [app]. f_equal.
      change (lit ".format(sys.version[0])")
        with (lit ".format(sys.version[0]" ++ [")"%char]).
      rewrite app_assoc. reflexivity.
    - rewrite (replace_quoted q _ tok2 _ Hq) by (now right).
      exists q. eexists. exists ")"%char. split; [|split; [exact Hqs|reflexivity]].
      cbn [app]. f_equal.
      change (lit ".format(sys.version[:3])")
        with (lit ".format(sys.version[:3]" ++ [")"%char]).
      rewrite app_assoc. reflexivity.
    - exists q, (flat_map (repr_char q) s), q. auto. }
  destruct Hshape as (a & mid & z & -> & Ha & Hz). now apply strip_bounded.
Qed.

Lemma join_In (sep l : str) (lines : list str) :
  In l lines -> exists a b, join sep lines = a ++ l ++ b.
Proof.
  induction lines as [|p rest IH]; intros Hin; [contradiction|].
  destruct Hin as [->|Hin].
  - destruct rest as [|p' rest].
    + exists [], []. simpl. now rewrite app_nil_r.
    + exists [], (sep ++ join sep (p' :: rest)). reflexivity.
  - destruct (IH Hin) as (a & b & Hab).
    destruct rest as [|p' rest]; [contradiction|].
    exists (p ++ sep ++ a), b.
    change (join sep (p :: p' :: rest)) with (p ++ sep ++ join sep (p' :: rest)).
    rewrite Hab, <- !app_assoc. reflexivity.
Qed.

(** The lines of the groups: the last one closes the last group, and every
    item of every group is on a line before it. *)
Lemma groups_lines (eps : list (str * list str)) :
  eps <> [] ->
  exists L, flat_map render_group eps = L ++ [lit "    ],"] /\
    forall key specs s, In (key, specs) eps -> In s specs ->
                        In (render_item s) L.
Proof.
  induction eps as [|kv rest IH]; intros Hne; [congruence|].
  destruct rest as [|kv' rest'].
  - exists ([lit "    " ++ repr (fst kv) ++ lit ": ["] ++ map render_item (snd kv)).
    split.
    + cbn [flat_map]. rewrite app_nil_r. unfold render_group.
      now rewrite <- !app_assoc.
    + intros key specs s [->|[]] Hs. cbn [snd]. apply in_or_app. right.
      now apply in_map.
  - destruct IH as (L & HL & Hin); [discriminate|].
    exists (render_group kv ++ L). split.
    + change (flat_map render_group (kv :: kv' :: rest'))
        with (render_group kv ++ flat_map render_group (kv' :: rest')).
      rewrite HL. now rewrite app_assoc.
    + intros key specs s [->|Hk] Hs.
      * apply in_or_app. left. unfold render_group. cbn [fst snd].
        apply in_or_app. right. apply in_or_app. left. now apply in_map.
      * apply in_or_app. right. exact (Hin key specs s Hk Hs).
Qed.

Lemma chop_last_line_app (L : list str) (x : str) :
  chop_last_line (L ++ [x]) = L ++ [removelast x].
Proof.
  unfold chop_last_line. destruct (L ++ [x]) eqn:E.
  - destruct L; discriminate.
  - rewrite <- E. now rewrite removelast_last, last_last.
Qed.

Lemma render_entrypoints_lines (eps : list (str * list str)) :
  eps <> [] ->
  exists L, _render_entrypoints eps
            = join nl ((lit "{" :: L) ++ [lit "    ]"; lit "  }"]) /\
    forall key specs s, In (key, specs) eps -> In s specs ->
                        In (render_item s) L.
Proof.
  intros Hne. destruct (groups_lines eps Hne) as (L & HL & Hin).
  exists L. split; [|exact Hin].
  unfold _render_entrypoints. destruct eps as [|kv rest]; [congruence|].
  rewrite HL. change (lit "{" :: L ++ [lit "    ],"])
    with ((lit "{" :: L) ++ [lit "    ],"]).
  rewrite chop_last_line_app. rewrite <- app_assoc. reflexivity.
Qed.

Lemma render_entrypoints_item (eps : list (str * list str))
    (key : str) (specs : list str) (s : str) :
  In (key, specs) eps -> In s specs ->
  exists a b, _render_entrypoints eps
              = a ++ (lit "      " ++ format_item s ++ lit ",") ++ b.
Proof.
  intros Hk Hs.
  destruct (render_entrypoints_lines eps) as (L & -> & Hin).
  { intros ->. contradiction. }
  specialize (Hin key specs s Hk Hs).
  destruct (join_In nl (render_item s) ((lit "{" :: L) ++ [lit "    ]"; lit "  }"]))
    as (a & b & Hab).
  { apply in_or_app. left. now right. }
  exists a, b. rewrite Hab. unfold render_item. now rewrite strip_format_item.
Qed.

Lemma render_entrypoints_nonempty (kv : str * list str)
    (eps : list (str * list str)) :
  _render_entrypoints (kv :: eps) <> lit "{}".
Proof.
  destruct (render_entrypoints_lines (kv :: eps)) as (L & -> & _);
    [discriminate|].
  destruct L as [|l L]; cbn; discriminate.
Qed.

(** C7 (amended).  The text of a spec is [repr] of the spec with every
    placeholder it contains replaced by a slot, numbered in the order of
    the table, followed by [.format(...)] on the expressions bound to
    those placeholders; a spec with no placeholder is written as its
    [repr].  The text stands on a line of its own in the table.  The table
    is the literal [{}] for the empty mapping, and only for it. *)
Theorem entrypoint_placeholders_deferred (s : str) :
  (contains tok1 s = true -> contains tok2 s = false ->
   format_item s
   = replace (repr s) tok1 (lit "{0}") ++ lit ".format(sys.version[0])")
  /\ (contains tok1 s = false -> contains tok2 s = true ->
      format_item s
      = replace (repr s) tok2 (lit "{0}") ++ lit ".format(sys.version[:3])")
  /\ (contains tok1 s = true -> contains tok2 s = true ->
      format_item s
      = replace (replace (repr s) tok1 (lit "{0}")) tok2 (lit "{1}")
        ++ lit ".format(sys.version[0], sys.version[:3])")
  /\ (contains tok1 s = false -> contains tok2 s = false ->
      format_item s = repr s)
  /\ (forall eps key specs,
        In (key, specs) eps -> In s specs ->
        exists a b,
          _render_entrypoints eps
          = a ++ (lit "      " ++ format_item s ++ lit ",") ++ b)
  /\ _render_entrypoints [] = lit "{}"
  /\ (forall kv eps, _render_entrypoints (kv :: eps) <> lit "{}").
Proof.
  repeat split.
  - intros H1 H2. now rewrite format_item_cases, H1, H2.
  - intros H1 H2. now rewrite format_item_cases, H1, H2.
  - intros H1 H2. now rewrite format_item_cases, H1, H2.
  - intros H1 H2. now rewrite format_item_cases, H1, H2.
  - intros eps key specs. apply render_entrypoints_item.
  - intros kv eps. apply render_entrypoints_nonempty.
Qed.

Lemma entrypoint_placeholders_deferred_witness :
  format_item (lit "demo{{python-major-version}} = demo:main")
  = lit "'demo{0} = demo:main'.format(sys.version[0])"
  /\ exists a b,
       _render_entrypoints
         [(lit "console_scripts",
           [lit "demo = demo:main";
            lit "demo{{python-major-version}} = demo:main"])]
       = a ++ (lit "      "
               ++ format_item (lit "demo{{python-major-version}} = demo:main")
               ++ lit ",") ++ b.
Proof.
  split.
  - transitivity
      (replace (repr (lit "demo{{python-major-version}} = demo:main")) tok1
         (lit "{0}") ++ lit ".format(sys.version[0])").
    + apply (proj1 (entrypoint_placeholders_deferred _)); reflexivity.
    + reflexivity.
  - apply (proj1 (proj2 (proj2 (proj2 (proj2
             (entrypoint_placeholders_deferred
                (lit "demo{{python-major-version}} = demo:main"))))))
             _ (lit "console_scripts")
             [lit "demo = demo:main";
              lit "demo{{python-major-version}} = demo:main"]).
    + left. reflexivity.
    + right. left. reflexivity.
Defined.

(** C7, as the specification words it, fails for a mapping whose groups
    have no specs: the groups are still written out. *)
Lemma entrypoints_empty_group_written :
  (forall kv, In kv [(lit "console_scripts", @nil str)] -> snd kv = [])
  /\ _render_entrypoints [(lit "console_scripts", [])]
     = lit "{" ++ nl ++ lit "    'console_scripts': [" ++ nl
       ++ lit "    ]" ++ nl ++ lit "  }"
  /\ _render_entrypoints [(lit "console_scripts", [])] <> lit "{}".
Proof.
  split; [|split].
  - intros kv [<-|[]]. reflexivity.
  - reflexivity.
  - intros E. vm_compute in E. discriminate E.
Qed.

(** ** The build *)

Section BuildFacts.

Context {W : Type} `{OS W}.



Lemma build_unfold (t : SetuptoolsBuildTarget) (bd : str)
    (st : W * list syscall) :
  build t bd st =
  match after_call t st with
  | (Raise e, st1) => (Raise e, st1)
  | (Ok res, st1) =>
      if negb (res =? 0)%Z then (Ok FAILURE, st1)
      else
        match move_artifacts (dist_directory t) bd (get_build_artifacts t) st1 with
        | (Raise e, st2) => (Raise e, st2)
        | (Ok _, st2) =>
            if negb (path_exists (fst st) (dist_directory t)) then
              match perform (Rmtree (dist_directory t))
                      (shutil_rmtree (dist_directory t)) st2 with
              | (Raise e, st3) => (Raise e, st3)
              | (Ok _, st3) => (Ok SUCCESS, st3)
              end
            else (Ok SUCCESS, st2)
        end
  end.
Proof.
  unfold build, bind, ask, ret. cbn [fst snd].
  destruct (after_call t st) as [[res|e] st1]; [|reflexivity].
  destruct (negb (res =? 0)%Z); [reflexivity|].
  destruct (move_artifacts _ _ _ st1) as [[u|e] st2]; [|reflexivity].
  destruct (negb (path_exists (fst st) (dist_directory t))); [|reflexivity].
  destruct (perform _ _ st2) as [[u'|e] st3]; reflexivity.
Qed.

(** The loop over the artifacts only adds [Remove] and [Rename] calls. *)
Lemma move_artifacts_no_rmtree (dist bd : str) (arts : list (result str)) :
  forall st r st', move_artifacts dist bd arts st = (r, st') ->
  exists evs, snd st' = snd st ++ evs /\ existsb is_rmtree evs = false.
Proof.
  induction arts as [|[filename|e] rest IH]; intros st r st' Hm.
  - inversion Hm; subst. exists []. now rewrite app_nil_r.
  - cbn [move_artifacts] in Hm. unfold bind, ask, raise, ret in Hm.
    cbn [fst snd] in Hm.
    destruct (negb (path_isfile (fst st) (path_join dist filename))).
    + inversion Hm; subst. exists []. now rewrite app_nil_r.
    + destruct (negb (str_eqb (path_join dist filename) (path_join bd filename))).
      * destruct (path_isfile (fst st) (path_join bd filename)).
        -- unfold perform in Hm. cbn [fst snd] in Hm.
           destruct (os_remove (path_join bd filename) (fst st)) as [[u|e] w1].
           ++ cbn [fst snd] in Hm.
              destruct (os_rename _ _ w1) as [[u'|e] w2].
              ** apply IH in Hm as (evs & Hevs & Hno). cbn [snd] in Hevs.
                 exists ([Remove (path_join bd filename);
                          Rename (path_join dist filename) (path_join bd filename)] ++ evs).
                 split; [rewrite Hevs, <- !app_assoc; reflexivity|exact Hno].
              ** inversion Hm; subst. cbn [snd].
                 exists [Remove (path_join bd filename);
                         Rename (path_join dist filename) (path_join bd filename)].
                 split; [rewrite <- app_assoc; reflexivity|reflexivity].
           ++ inversion Hm; subst. cbn [snd].
              exists [Remove (path_join bd filename)]. split; reflexivity.
        -- unfold perform in Hm. cbn [fst snd] in Hm.
           destruct (os_rename _ _ (fst st)) as [[u'|e] w2].
           ++ apply IH in Hm as (evs & Hevs & Hno). cbn [snd] in Hevs.
              exists ([Rename (path_join dist filename) (path_join bd filename)] ++ evs).
              split; [rewrite Hevs, <- !app_assoc; reflexivity|exact Hno].
           ++ inversion Hm; subst. cbn [snd].
              exists [Rename (path_join dist filename) (path_join bd filename)].
              split; reflexivity.
      * apply IH in Hm as (evs & Hevs & Hno). exists evs. split; assumption.
  - inversion Hm; subst. exists []. now rewrite app_nil_r.
Qed.


Lemma after_call_log (t : SetuptoolsBuildTarget) (st : W * list syscall) :
  snd (snd (after_call t st))
  = snd st ++ [Call (build_args t) (directory (package t))].
Proof.
  unfold after_call, perform.
  destruct (subprocess_call _ _ (fst st)) as [r w1]. reflexivity.
Qed.

Lemma move_artifacts_app (dist bd : str) (l1 l2 : list (result str)) :
  forall st,
  move_artifacts dist bd (l1 ++ l2) st
  = match move_artifacts dist bd l1 st with
    | (Ok _, st') => move_artifacts dist bd l2 st'
    | (Raise e, st') => (Raise e, st')
    end.
Proof.
  induction l1 as [|[filename|e] rest IH]; intros st.
  - reflexivity.
  - cbn [app move_artifacts]. unfold bind, ask, raise, ret. cbn [fst snd].
    destruct (negb (path_isfile (fst st) (path_join dist filename)));
      [reflexivity|].
    destruct (negb (str_eqb (path_join dist filename) (path_join bd filename)));
      [|apply IH].
    destruct (path_isfile (fst st) (path_join bd filename)).
    + destruct (perform (Remove _) _ st) as [[u|e] st1]; [|reflexivity].
      destruct (perform (Rename _ _) _ st1) as [[u'|e] st2]; [|reflexivity].
      apply IH.
    + destruct (perform (Rename _ _) _ st) as [[u'|e] st2]; [|reflexivity].
      apply IH.
  - reflexivity.
Qed.

(** The loop stops with [RuntimeError] at the first artifact that is not
    a file of the [dist] directory when the loop reaches it. *)
Lemma move_artifacts_stops (dist bd : str) (done : list str)
    (filename : str) (rest : list (result str)) (st1 st2 : W * list syscall) :
  move_artifacts dist bd (map Ok done) st1 = (Ok tt, st2) ->
  path_isfile (fst st2) (path_join dist filename) = false ->
  move_artifacts dist bd (map Ok done ++ Ok filename :: rest) st1
  = (Raise (RuntimeError (path_join dist filename
                          ++ lit " not produced during build")), st2).
Proof.
  intros Hdone Hsrc. rewrite move_artifacts_app, Hdone.
  cbn [move_artifacts]. unfold bind, ask, raise. cbn [fst].
  rewrite Hsrc. reflexivity.
Qed.

Lemma move_artifacts_missing (dist bd : str) (filename : str) :
  (forall q w w' p, os_remove q w = (Ok tt, w') ->
     path_isfile w p = false -> path_isfile w' p = false) ->
  (forall a b w w' p, os_rename a b w = (Ok tt, w') -> p <> b ->
     path_isfile w p = false -> path_isfile w' p = false) ->
  forall arts st1,
  In (Ok filename) arts ->
  (forall other, In (Ok other) arts -> other <> filename ->
     path_join bd other <> path_join dist filename) ->
  path_isfile (fst st1) (path_join dist filename) = false ->
  exists e st2, move_artifacts dist bd arts st1 = (Raise e, st2) /\
    ((exists missing, In (Ok missing) arts /\
        e = RuntimeError (path_join dist missing
                          ++ lit " not produced during build"))
     \/ In (Raise e) arts
     \/ (exists p w, fst (os_remove p w) = Raise e)
     \/ (exists a b w, fst (os_rename a b w) = Raise e)).
Proof.
  intros Hrm Hrn. induction arts as [|[f0|e0] rest IH]; intros st1 Hin Hd Hsrc.
  - destruct Hin.
  - cbn [move_artifacts]. unfold bind, ask, raise, ret. cbn [fst snd].
    destruct (path_isfile (fst st1) (path_join dist f0)) eqn:E0; cbn [negb].
    2:{ eexists _, _. split; [reflexivity|]. left. exists f0.
        split; [now left|reflexivity]. }
    assert (Hne : f0 <> filename) by (intros ->; congruence).
    assert (Hin' : In (Ok filename) rest).
    { destruct Hin as [E|Hin]; [congruence|exact Hin]. }
    assert (Hdst : path_join dist filename <> path_join bd f0).
    { intros E. apply (Hd f0); [now left|exact Hne|now symmetry]. }
    assert (Hd' : forall other, In (Ok other) rest -> other <> filename ->
              path_join bd other <> path_join dist filename).
    { intros other Ho. apply Hd. now right. }
    assert (Hlift : forall e (P : str -> Prop),
      (exists missing, In (Ok missing) rest /\ P missing) \/
      In (Raise e) rest \/
      (exists p w, fst (os_remove p w) = Raise e) \/
      (exists a b w, fst (os_rename a b w) = Raise e) ->
      (exists missing, In (Ok missing) (@Ok str f0 :: rest) /\ P missing) \/
      In (Raise e) (@Ok str f0 :: rest) \/
      (exists p w, fst (os_remove p w) = Raise e) \/
      (exists a b w, fst (os_rename a b w) = Raise e)).
    { intros e P [(m & Hm & HP)|[Hr|Ho]].
      - left. exists m. split; [now right|exact HP].
      - right. left. now right.
      - right. right. exact Ho. }
    destruct (negb (str_eqb (path_join dist f0) (path_join bd f0))).
    + destruct (path_isfile (fst st1) (path_join bd f0)).
      * unfold perform. cbn [fst snd].
        destruct (os_remove (path_join bd f0) (fst st1)) as [[[]|e] w1] eqn:R1.
        2:{ eexists _, _. split; [reflexivity|]. right. right. left.
            exists (path_join bd f0), (fst st1). now rewrite R1. }
        cbn [fst snd].
        destruct (os_rename (path_join dist f0) (path_join bd f0) w1)
          as [[[]|e] w2] eqn:R2.
        2:{ eexists _, _. split; [reflexivity|]. right. right. right.
            exists (path_join dist f0), (path_join bd f0), w1. now rewrite R2. }
        destruct (IH (w2, (snd st1 ++ [Remove (path_join bd f0)])
                         ++ [Rename (path_join dist f0) (path_join bd f0)])
                    Hin' Hd') as (e & st2 & Hm & Hc).
        { cbn [fst]. apply (Hrn _ _ _ _ _ R2 Hdst).
          apply (Hrm _ _ _ _ R1 Hsrc). }
        exists e, st2. split; [exact Hm|]. apply (Hlift e (fun missing => e = RuntimeError (path_join dist missing ++ lit " not produced during build"))). exact Hc.
      * unfold perform. cbn [fst snd].
        destruct (os_rename (path_join dist f0) (path_join bd f0) (fst st1))
          as [[[]|e] w2] eqn:R2.
        2:{ eexists _, _. split; [reflexivity|]. right. right. right.
            exists (path_join dist f0), (path_join bd f0), (fst st1).
            now rewrite R2. }
        destruct (IH (w2, snd st1
                         ++ [Rename (path_join dist f0) (path_join bd f0)])
                    Hin' Hd') as (e & st2 & Hm & Hc).
        { cbn [fst]. apply (Hrn _ _ _ _ _ R2 Hdst Hsrc). }
        exists e, st2. split; [exact Hm|]. apply (Hlift e (fun missing => e = RuntimeError (path_join dist missing ++ lit " not produced during build"))). exact Hc.
    + destruct (IH st1 Hin' Hd' Hsrc) as (e & st2 & Hm & Hc).
      exists e, st2. split; [exact Hm|]. apply (Hlift e (fun missing => e = RuntimeError (path_join dist missing ++ lit " not produced during build"))). exact Hc.
  - exists e0, st1. split; [reflexivity|]. right. left. now left.
Qed.


Lemma last_app_nonempty (a b : str) (d : ascii) :
  b <> [] -> last (a ++ b) d = last b d.
Proof.
  intros Hb. induction a as [|x a IH]; [reflexivity|].
  cbn [app]. destruct (a ++ b) eqn:E.
  - destruct a, b; try discriminate. congruence.
  - rewrite <- IH. reflexivity.
Qed.

Lemma path_join_last (a b : str) (d : ascii) :
  b <> [] -> last (path_join a b) d = last b d.
Proof.
  intros Hb. unfold path_join.
  destruct (startswith b (lit "/")); [reflexivity|].
  destruct a as [|x a]; [reflexivity|].
  destruct (startswith (rev (x :: a)) (lit "/")).
  - now apply last_app_nonempty.
  - rewrite app_assoc. now apply last_app_nonempty.
Qed.

Lemma dict_get_In (d : list (str * str)) (k v : str) :
  dict_get d k = Ok v -> In v (map snd d).
Proof.
  induction d as [|[k' v'] d IH]; [discriminate|].
  cbn [dict_get map snd]. destruct (str_eqb k' k).
  - intros [= ->]. now left.
  - intros Hd. right. now apply IH.
Qed.

(** The extensions of [_FORMATS_MAP] end with different characters, so
    that two artifacts of one package with different names never have the
    same path, whatever the directories. *)
Lemma artifact_paths_distinct (t : SetuptoolsBuildTarget) (dist bd : str)
    (filename other : str) :
  In (Ok filename) (get_build_artifacts t) ->
  In (Ok other) (get_build_artifacts t) ->
  other <> filename ->
  path_join bd other <> path_join dist filename.
Proof.
  unfold get_build_artifacts. rewrite !in_map_iff.
  intros (f1 & E1 & _) (f2 & E2 & _) Hne Hp.
  destruct (dict_get _FORMATS_MAP f1) as [e1|] eqn:D1; [|discriminate].
  destruct (dict_get _FORMATS_MAP f2) as [e2|] eqn:D2; [|discriminate].
  injection E1 as <-. injection E2 as <-.
  apply dict_get_In in D1, D2.
  assert (He : e2 <> e1) by (intros ->; now apply Hne).
  assert (N1 : e1 <> []) by (cbn in D1; intuition (subst; discriminate)).
  assert (N2 : e2 <> []) by (cbn in D2; intuition (subst; discriminate)).
  apply (f_equal (fun p => last p " "%char)) in Hp.
  set (stem := name (package t) ++ lit "-" ++ version (package t)) in *.
  assert (Hst : forall e,
    name (package t) ++ "-"%char :: version (package t) ++ e = stem ++ e).
  { intros e. unfold stem. now rewrite <- !app_assoc. }
  rewrite !Hst in Hp.
  assert (Hs : forall e, e <> [] -> stem ++ e <> []).
  { intros e Hn E. apply app_eq_nil in E as [_ E]. congruence. }
  rewrite !path_join_last in Hp by (apply Hs; assumption).
  rewrite !last_app_nonempty in Hp by assumption.
  cbn in D1, D2.
  intuition (subst; first [discriminate Hp | now apply He]).
Qed.

(** C6.  [build] returns [FAILURE] exactly when the subprocess ran and
    exited with a code other than zero.  When the subprocess exits with
    zero and a declared artifact, whichever it is in the list of formats,
    is not a file of the [dist] directory when the loop reaches it, the
    artifacts before it moved, [build] raises [RuntimeError] for it, with
    the world as the loop left it; for a target as [__init__] makes it,
    whose one artifact is the [gztar] archive, that is the world as the
    subprocess left it.  And when [os.remove] makes no file and
    [os.rename] none but its destination, an artifact of any format of
    the target that is not in [dist] after the subprocess exited with
    zero makes [build] raise: the [RuntimeError] of a declared artifact,
    unless the lookup of a format or a call of the operating system
    raised before; [build] returns neither [FAILURE] nor [SUCCESS]. *)
Theorem build_failure_iff_nonzero_exit (t : SetuptoolsBuildTarget)
    (bd : str) (st : W * list syscall) :
  (fst (build t bd st) = Ok FAILURE <->
   exists code, fst (after_call t st) = Ok code /\ code <> 0%Z)
  /\ (forall bt pkg, t = init bt pkg ->
      fst (after_call t st) = Ok 0%Z ->
      let src := path_join (dist_directory t)
                   (name pkg ++ lit "-" ++ version pkg ++ lit ".tar.gz") in
      path_isfile (fst (snd (after_call t st))) src = false ->
      build t bd st
      = (Raise (RuntimeError (src ++ lit " not produced during build")),
         snd (after_call t st)))
  /\ (forall done filename rest st2,
        fst (after_call t st) = Ok 0%Z ->
        get_build_artifacts t = map Ok done ++ Ok filename :: rest ->
        move_artifacts (dist_directory t) bd (map Ok done)
          (snd (after_call t st)) = (Ok tt, st2) ->
        path_isfile (fst st2) (path_join (dist_directory t) filename)
        = false ->
        build t bd st
        = (Raise (RuntimeError (path_join (dist_directory t) filename
                                ++ lit " not produced during build")),
           st2))
  /\ ((forall q w w' p, os_remove q w = (Ok tt, w') ->
         path_isfile w p = false -> path_isfile w' p = false) ->
      (forall a b w w' p, os_rename a b w = (Ok tt, w') -> p <> b ->
         path_isfile w p = false -> path_isfile w' p = false) ->
      forall f ext,
        In f (formats t) -> dict_get _FORMATS_MAP f = Ok ext ->
        fst (after_call t st) = Ok 0%Z ->
        path_isfile (fst (snd (after_call t st)))
          (path_join (dist_directory t)
             (name (package t) ++ lit "-" ++ version (package t) ++ ext))
        = false ->
        exists e, fst (build t bd st) = Raise e /\
          ((exists missing, In (Ok missing) (get_build_artifacts t) /\
              e = RuntimeError (path_join (dist_directory t) missing
                                ++ lit " not produced during build"))
           \/ In (Raise e) (get_build_artifacts t)
           \/ (exists p w, fst (os_remove p w) = Raise e)
           \/ (exists a b w, fst (os_rename a b w) = Raise e))).
Proof.
  split; [|split; [|split]].
  - rewrite build_unfold.
    destruct (after_call t st) as [[res|e] st1]; cbn [fst].
    + destruct (Z.eqb_spec res 0) as [->|Hne]; cbn [negb].
      * split.
        -- destruct (move_artifacts _ _ _ st1) as [[u|e] st2];
             [|discriminate].
           destruct (negb (path_exists (fst st) (dist_directory t)));
             [|discriminate].
           destruct (perform _ _ st2) as [[u'|e] st3]; discriminate.
        -- intros (code & [= <-] & Hc). congruence.
      * split; [|reflexivity]. intros _. exists res. split; [reflexivity|exact Hne].
    + split; [discriminate|]. intros (code & Hc & _). discriminate.
  - intros bt pkg -> Hcall src Hsrc. rewrite build_unfold.
    destruct (after_call (init bt pkg) st) as [[res|e] st1];
      cbn [fst snd] in *; [|discriminate].
    injection Hcall as ->. cbn [Z.eqb negb].
    change (get_build_artifacts (init bt pkg))
      with [@Ok str (name pkg ++ lit "-" ++ version pkg ++ lit ".tar.gz")].
    cbn [move_artifacts]. unfold bind, ask, raise. cbn [fst].
    fold src. rewrite Hsrc. reflexivity.
  - intros done filename rest st2 Hcall Harts Hdone Hsrc.
    rewrite build_unfold.
    destruct (after_call t st) as [[res|e] st1];
      cbn [fst snd] in *; [|discriminate].
    injection Hcall as ->. cbn [Z.eqb negb].
    rewrite Harts.
    now rewrite (move_artifacts_stops _ _ done filename rest st1 st2 Hdone Hsrc).
  - intros Hrm Hrn f ext Hf Hext Hcall Hsrc.
    rewrite build_unfold.
    destruct (after_call t st) as [[res|e] st1];
      cbn [fst snd] in *; [|discriminate].
    injection Hcall as ->. cbn [Z.eqb negb].
    destruct (move_artifacts_missing (dist_directory t) bd
                (name (package t) ++ lit "-" ++ version (package t) ++ ext)
                Hrm Hrn (get_build_artifacts t) st1) as (e & st2 & Hm & Hc).
    + unfold get_build_artifacts. apply in_map_iff. exists f.
      rewrite Hext. split; [reflexivity|exact Hf].
    + intros other Ho Hne. eapply artifact_paths_distinct; eauto.
      unfold get_build_artifacts. apply in_map_iff. exists f.
      rewrite Hext. split; [reflexivity|exact Hf].
    + exact Hsrc.
    + rewrite Hm. exists e. split; [reflexivity|exact Hc].
Qed.

(** C9.  Whatever [build] returns, the calls it made add to the log.
    When it returns [FAILURE] the world is as the subprocess left it, and
    when the loop over the artifacts raises, the error and the world are
    the loop's: in both cases no [rmtree] was called, so a [dist]
    directory the subprocess made is still there.  [rmtree] is called only
    when [dist] did not exist before and the loop has moved every
    artifact; [build] then returns [SUCCESS], unless [rmtree] itself
    raises. *)
Theorem build_cleanup_only_on_success (t : SetuptoolsBuildTarget)
    (bd : str) (st : W * list syscall) (r : result BuildResult)
    (st' : W * list syscall) :
  build t bd st = (r, st') ->
  exists evs, snd st' = snd st ++ evs /\
    (r = Ok FAILURE ->
       st' = snd (after_call t st) /\ existsb is_rmtree evs = false) /\
    (forall e st2,
       fst (after_call t st) = Ok 0%Z ->
       move_artifacts (dist_directory t) bd (get_build_artifacts t)
         (snd (after_call t st)) = (Raise e, st2) ->
       r = Raise e /\ st' = st2 /\ existsb is_rmtree evs = false) /\
    (existsb is_rmtree evs = true ->
       path_exists (fst st) (dist_directory t) = false /\
       exists st2,
         move_artifacts (dist_directory t) bd (get_build_artifacts t)
           (snd (after_call t st)) = (Ok tt, st2) /\
         (r = Ok SUCCESS \/
          exists e, fst (shutil_rmtree (dist_directory t) (fst st2)) = Raise e
                    /\ r = Raise e)).
Proof.
  intros Hb. rewrite build_unfold in Hb.
  pose proof (after_call_log t st) as Hlog.
  destruct (after_call t st) as [[res|e] st1]; cbn [fst snd] in *.
  - destruct (Z.eqb_spec res 0) as [->|Hne]; cbn [negb] in Hb.
    + destruct (move_artifacts _ _ _ st1) as [[[]|e] st2] eqn:Hm.
      * apply move_artifacts_no_rmtree in Hm as (evs & Hevs & Hno).
        destruct (path_exists (fst st) (dist_directory t)) eqn:Hex;
          cbn [negb] in Hb.
        -- injection Hb as <- <-.
           exists (Call (build_args t) (directory (package t)) :: evs).
           split; [rewrite Hevs, Hlog, <- app_assoc; reflexivity|].
           cbn [existsb is_rmtree orb]. rewrite Hno.
           split; [discriminate|]. split; [discriminate|discriminate].
        -- unfold perform in Hb.
           destruct (shutil_rmtree (dist_directory t) (fst st2))
             as [rr w3] eqn:Hrm.
           cbn [snd] in Hb.
           exists (Call (build_args t) (directory (package t))
                   :: evs ++ [Rmtree (dist_directory t)]).
           split.
           { destruct rr; injection Hb as <- <-; cbn [snd];
               rewrite Hevs, Hlog, <- !app_assoc; reflexivity. }
           split; [destruct rr; injection Hb as <- <-; discriminate|].
           split; [discriminate|].
           intros _. split; [reflexivity|]. exists st2. split; [reflexivity|].
           destruct rr as [u|e]; injection Hb as <- <-.
           ++ now left.
           ++ right. exists e. rewrite Hrm. split; reflexivity.
      * injection Hb as <- <-.
        apply move_artifacts_no_rmtree in Hm as (evs & Hevs & Hno).
        exists (Call (build_args t) (directory (package t)) :: evs).
        split; [rewrite Hevs, Hlog, <- app_assoc; reflexivity|].
        cbn [existsb is_rmtree orb]. rewrite Hno.
        split; [discriminate|]. split; [|discriminate].
        intros e' st2' _ [= <- <-]. repeat split; reflexivity.
    + injection Hb as <- <-.
      exists [Call (build_args t) (directory (package t))].
      split; [exact Hlog|]. cbn [existsb is_rmtree orb].
      split; [intros _; split; reflexivity|]. split; [|discriminate].
      intros e' st2' [= ->]. congruence.
  - injection Hb as <- <-.
    exists [Call (build_args t) (directory (package t))].
    split; [exact Hlog|]. cbn [existsb is_rmtree orb].
    split; [discriminate|]. split; [discriminate|discriminate].
Qed.

End BuildFacts.

Lemma existsb_filter_false {A} (g h : A -> bool) (l : list A) :
  existsb g l = false -> existsb g (filter h l) = false.
Proof.
  induction l as [|x l IH]; [reflexivity|].
  cbn [existsb filter]. intros E. apply orb_false_iff in E as [Ex El].
  destruct (h x); cbn [existsb]; [rewrite Ex|]; now apply IH.
Qed.

Lemma sim_remove_frame (q : str) (w w' : Sim.World) (p : str) :
  Sim.sim_remove q w = (Ok tt, w') ->
  Sim.has_file w p = false -> Sim.has_file w' p = false.
Proof.
  unfold Sim.sim_remove. destruct (Sim.has_file w q); [|discriminate].
  intros [= <-]. unfold Sim.has_file, Sim.with_files, Sim.without.
  cbn [Sim.files]. apply existsb_filter_false.
Qed.

Lemma sim_rename_frame (a b : str) (w w' : Sim.World) (p : str) :
  Sim.sim_rename a b w = (Ok tt, w') -> p <> b ->
  Sim.has_file w p = false -> Sim.has_file w' p = false.
Proof.
  unfold Sim.sim_rename.
  destruct (List.find _ (Sim.files w)) as [f|]; [|discriminate].
  intros [= <-] Hp Hw. unfold Sim.has_file, Sim.with_files, Sim.without in *.
  cbn [Sim.files existsb fst].
  destruct (str_eqb b p) eqn:E.
  - apply str_eqb_eq in E. congruence.
  - cbn [orb]. now do 2 apply existsb_filter_false.
Qed.

Lemma build_failure_iff_nonzero_exit_witness :
  fst (build (init (lit "sdist") demo) (lit "out") (demo_world 1 [], []))
  = Ok FAILURE
  /\ build (init (lit "sdist") demo) (lit "out") (demo_world 0 [], [])
     = (Raise (RuntimeError
                 (lit "pkg/dist/demo-1.0.tar.gz not produced during build")),
        snd (after_call (init (lit "sdist") demo) (demo_world 0 [], [])))
  /\ fst (build demo_two_formats (lit "out")
            (demo_world 0 [(lit "pkg/dist/demo-1.0.tar.gz", lit "")], []))
     = Raise (RuntimeError
                (lit "pkg/dist/demo-1.0.zip not produced during build"))
  /\ exists e,
       fst (build demo_two_formats (lit "out")
              (demo_world 0 [(lit "pkg/dist/demo-1.0.tar.gz", lit "")], []))
       = Raise e.
Proof.
  split; [|split; [|split]].
  - apply (proj1 (@build_failure_iff_nonzero_exit Sim.World Sim.sim_os
                    (init (lit "sdist") demo) (lit "out")
                    (demo_world 1 [], []))).
    exists 1%Z. split; [reflexivity|discriminate].
  - apply (proj1 (proj2 (@build_failure_iff_nonzero_exit Sim.World Sim.sim_os
                    (init (lit "sdist") demo) (lit "out")
                    (demo_world 0 [], []))) (lit "sdist") demo);
      reflexivity.
  - rewrite (proj1 (proj2 (proj2 (@build_failure_iff_nonzero_exit
               Sim.World Sim.sim_os demo_two_formats (lit "out")
               (demo_world 0 [(lit "pkg/dist/demo-1.0.tar.gz", lit "")], []))))
             [lit "demo-1.0.tar.gz"] (lit "demo-1.0.zip") []
             (snd (move_artifacts (dist_directory demo_two_formats) (lit "out")
                     [Ok (lit "demo-1.0.tar.gz")]
                     (snd (after_call demo_two_formats
                        (demo_world 0
                           [(lit "pkg/dist/demo-1.0.tar.gz", lit "")], []))))));
      reflexivity.
  - destruct (proj2 (proj2 (proj2 (@build_failure_iff_nonzero_exit
               Sim.World Sim.sim_os demo_two_formats (lit "out")
               (demo_world 0 [(lit "pkg/dist/demo-1.0.tar.gz", lit "")], []))))
             sim_remove_frame sim_rename_frame (lit "zip") (lit ".zip"))
      as (e & He & _).
    + right. left. reflexivity.
    + reflexivity.
    + reflexivity.
    + reflexivity.
    + exists e. exact He.
Defined.

Lemma build_cleanup_only_on_success_witness :
  path_exists (demo_world 1 []) (lit "pkg/dist") = false
  /\ path_exists
       (fst (snd (build (init (lit "sdist") demo) (lit "out")
                    (demo_world 1 [], []))))
       (lit "pkg/dist") = true
  /\ exists evs,
       snd (snd (build (init (lit "sdist") demo) (lit "out")
                   (demo_world 1 [], []))) = [] ++ evs
       /\ existsb is_rmtree evs = false.
Proof.
  split; [reflexivity|]. split; [reflexivity|].
  assert (Hb : build (init (lit "sdist") demo) (lit "out")
                 (demo_world 1 [], [])
               = (Ok FAILURE,
                  snd (build (init (lit "sdist") demo) (lit "out")
                         (demo_world 1 [], [])))) by reflexivity.
  destruct (@build_cleanup_only_on_success Sim.World Sim.sim_os
              (init (lit "sdist") demo) (lit "out") (demo_world 1 [], [])
              (Ok FAILURE)
              (snd (build (init (lit "sdist") demo) (lit "out")
                      (demo_world 1 [], []))) Hb)
    as (evs & Hevs & Hfail & _).
  exists evs. split; [exact Hevs|]. exact (proj2 (Hfail eq_refl)).
Defined.

(** * More properties of the plugin *)

(** ** More on sections and the manifest *)

Lemma find_found (s sub : str) (i : nat) (z : Z) :
  find s sub (Z.of_nat i) = z -> (0 <= z)%Z ->
  exists k, z = Z.of_nat k /\ i <= k /\ occurs_at sub k s.
Proof.
  unfold find. rewrite norm_index_nat.
  destruct (Nat.ltb_spec (length s) i) as [Hlt|Hle]; [lia|].
  destruct (find_go sub (skipn i s) i) as [k|] eqn:E; [|lia].
  intros <- _. destruct (find_go_Some _ _ _ _ E) as (j & -> & Ho & _).
  exists (i + j). split; [reflexivity|]. split; [lia|].
  assert (Hs : s = firstn i s ++ skipn i s) by (symmetry; apply firstn_skipn).
  assert (Hl : length (firstn i s) = i) by (apply firstn_length_le; lia).
  rewrite Hs, <- Hl at 1. now apply occurs_at_app_l.
Qed.

Lemma find_range (s sub : str) (start : Z) :
  (find s sub start = -1 \/ 0 <= find s sub start)%Z.
Proof.
  unfold find. destruct (length s <? _); [now left|].
  destruct (find_go _ _ _); [right; lia|now left].
Qed.

Lemma skipn_segment (l : str) (i j : nat) :
  i <= j -> skipn i l = firstn (j - i) (skipn i l) ++ skipn j l.
Proof.
  intros Hij. rewrite <- (firstn_skipn (j - i) (skipn i l)) at 1.
  rewrite skipn_skipn. replace (j - i + i) with j by lia. reflexivity.
Qed.

(** X1.  Whatever the text and the markers, the text is the prefix, some
    characters, the middle, some characters and the suffix, in this order:
    the prefix is an initial segment of the text, the suffix a final
    segment, the middle a segment between the two, and no part overlaps
    another. *)
Theorem split_section_segments (data b e : str) :
  exists gap1 gap2,
    data = fst (fst (split_section data b e)) ++ gap1
           ++ snd (fst (split_section data b e)) ++ gap2
           ++ snd (split_section data b e).
Proof.
  unfold split_section.
  destruct (Z.leb_spec 0 (find data b 0)) as [Hs|Hs]; cbn [andb].
  2:{ exists [], []. cbn [fst snd]. rewrite !app_nil_r. reflexivity. }
  destruct (find_found data b 0 _ eq_refl Hs) as (start & Hstart & _ & Hob).
  change (Z.of_nat 0) with 0%Z in Hstart. rewrite Hstart in *.
  destruct (Z.leb_spec 0 (find data e (Z.of_nat start))) as [He|He]; cbn [andb].
  2:{ exists [], []. cbn [fst snd]. rewrite !app_nil_r. reflexivity. }
  destruct (find_found data e start _ eq_refl He) as (end_ & Hend & Hle & Hoe).
  rewrite Hend. cbn [fst snd].
  pose proof (occurs_at_bound _ _ _ Hob) as Hbb.
  pose proof (occurs_at_bound _ _ _ Hoe) as Hbe.
  unfold slice_to, slice, slice_from, len.
  rewrite <- !Nat2Z.inj_add. change 1%Z with (Z.of_nat 1).
  rewrite <- !Nat2Z.inj_add. change 0%Z with (Z.of_nat 0).
  rewrite !norm_index_nat. cbn [Nat.min skipn].
  rewrite Nat.sub_0_r.
  rewrite (Nat.min_l start), (Nat.min_l (start + length b)),
    (Nat.min_l end_) by lia.
  set (stop := Nat.min (end_ + length e + 1) (length data)).
  assert (HS : end_ <= stop) by (unfold stop; lia).
  destruct (Nat.le_gt_cases (start + length b) end_) as [Hno|Hov].
  - exists (firstn (start + length b - start) (skipn start data)),
           (firstn (stop - end_) (skipn end_ data)).
    rewrite <- (skipn_segment data end_ stop) by lia.
    rewrite <- (skipn_segment data (start + length b) end_) by lia.
    rewrite <- (skipn_segment data start (start + length b)) by lia.
    symmetry. apply firstn_skipn.
  - exists (firstn (stop - start) (skipn start data)), [].
    replace (end_ - (start + length b)) with 0 by lia.
    cbn [firstn app].
    rewrite <- (skipn_segment data start stop) by lia.
    symmetry. apply firstn_skipn.
Qed.

(** No begin marker starts in a text ahead of its first begin marker. *)
Lemma begin_first (pre r : str) :
  contains _BEGIN_SECTION pre = false ->
  forall k, k < length pre -> ~ occurs_at _BEGIN_SECTION k (pre ++ _BEGIN_SECTION ++ r).
Proof.
  intros Hpre k Hk Ho.
  destruct begin_head as (b' & Hb & Hnb).
  destruct (Nat.le_gt_cases (k + length _BEGIN_SECTION) (length pre)) as [Hin|Hover].
  - apply (proj1 (contains_false _ _) Hpre k).
    exact (occurs_at_inside _ _ _ _ Ho Hin).
  - rewrite Hb in Ho, Hover.
    apply (occurs_at_head_unique hash b' k (length pre) _ Hnb Ho).
    + rewrite nth_error_app2, Nat.sub_diag by lia. reflexivity.
    + lia.
Qed.

Lemma render_managed (pre mid post : str) (manifest : list str) :
  contains _BEGIN_SECTION pre = false ->
  contains _END_SECTION mid = false ->
  render (pre ++ _BEGIN_SECTION ++ mid ++ _END_SECTION ++ nl ++ post) manifest
  = pre ++ _BEGIN_SECTION ++ nl ++ entry_lines manifest
        ++ _END_SECTION ++ nl ++ post.
Proof.
  intros Hpre Hmid.
  rewrite render_spec, (split_section_managed pre mid (nl ++ post) Hpre Hmid).
  simpl skipn. rewrite <- !app_assoc. reflexivity.
Qed.

Lemma render_unmarked (current : str) (manifest : list str) :
  contains _BEGIN_SECTION current = false ->
  render current manifest
  = current ++ _BEGIN_SECTION ++ nl ++ entry_lines manifest
            ++ _END_SECTION ++ nl.
Proof.
  intros Hc. rewrite render_spec.
  rewrite split_section_degenerate_begin by (now apply contains_false).
  rewrite <- !app_assoc, app_nil_r. reflexivity.
Qed.

Lemma contains_end_after_nl (x : str) :
  contains _END_SECTION x = false -> contains _END_SECTION (nl ++ x) = false.
Proof.
  intros Hx. destruct end_head as (e' & He & _). rewrite He in *.
  apply contains_cons_other; [discriminate|exact Hx].
Qed.

(** X2.  A manifest that does not exist yet is written as the section
    alone.  An existing text without begin marker is kept whole, the
    section is put after it; and when no rule line holds the end marker,
    rendering the result again changes nothing. *)
Theorem manifest_first_render (current : str) (manifest : list str) :
  contains _BEGIN_SECTION current = false ->
  _render_manifest None manifest
  = (_BEGIN_SECTION ++ nl ++ entry_lines manifest ++ _END_SECTION ++ nl,
     Ok tt)
  /\ render current manifest
     = current ++ _BEGIN_SECTION ++ nl ++ entry_lines manifest
               ++ _END_SECTION ++ nl
  /\ (contains _END_SECTION (entry_lines manifest) = false ->
      render (render current manifest) manifest = render current manifest).
Proof.
  intros Hc. split; [|split].
  - unfold _render_manifest. rewrite write_entries_spec, rewrite_section_ok.
    rewrite split_section_degenerate_begin by (now apply contains_false).
    rewrite <- !app_assoc, app_nil_r. reflexivity.
  - now apply render_unmarked.
  - intros Hbody. rewrite (render_unmarked current manifest Hc).
    pose proof (render_managed current (nl ++ entry_lines manifest) []
                  manifest Hc (contains_end_after_nl _ Hbody)) as Hr.
    rewrite <- !app_assoc in Hr. rewrite app_nil_r in Hr. exact Hr.
Qed.

Lemma manifest_first_render_witness :
  render (lit "graft docs" ++ nl) [lit "include a"]
  = (lit "graft docs" ++ nl) ++ _BEGIN_SECTION ++ nl
    ++ entry_lines [lit "include a"] ++ _END_SECTION ++ nl.
Proof.
  apply (proj1 (proj2 (manifest_first_render (lit "graft docs" ++ nl)
                         [lit "include a"] eq_refl))).
Defined.

(** X3.  The last render wins: for a manifest with a managed section (no
    begin marker before it, no end marker inside it), rendering with one
    rule list, whose lines hold no end marker, and then with another gives
    what rendering with the second list alone gives. *)
Theorem manifest_render_last_wins (pre mid post : str)
    (rules1 rules2 : list str) :
  contains _BEGIN_SECTION pre = false ->
  contains _END_SECTION mid = false ->
  contains _END_SECTION (entry_lines rules1) = false ->
  render
    (render (pre ++ _BEGIN_SECTION ++ mid ++ _END_SECTION ++ nl ++ post)
       rules1) rules2
  = render (pre ++ _BEGIN_SECTION ++ mid ++ _END_SECTION ++ nl ++ post)
      rules2.
Proof.
  intros Hpre Hmid H1.
  rewrite (render_managed pre mid post rules1 Hpre Hmid).
  rewrite (render_managed pre mid post rules2 Hpre Hmid).
  change (nl ++ entry_lines rules1 ++ _END_SECTION ++ nl ++ post)
    with ((nl ++ entry_lines rules1) ++ _END_SECTION ++ nl ++ post).
  apply render_managed; [exact Hpre|now apply contains_end_after_nl].
Qed.

Lemma manifest_render_last_wins_witness :
  render
    (render (lit "graft docs" ++ nl ++ _BEGIN_SECTION ++ (nl ++ lit "old" ++ nl)
             ++ _END_SECTION ++ nl ++ lit "prune tmp" ++ nl)
       [lit "include a"]) [lit "include b"; lit "include c"]
  = render (lit "graft docs" ++ nl ++ _BEGIN_SECTION ++ (nl ++ lit "old" ++ nl)
            ++ _END_SECTION ++ nl ++ lit "prune tmp" ++ nl)
      [lit "include b"; lit "include c"].
Proof.
  apply (manifest_render_last_wins (lit "graft docs" ++ nl)
           (nl ++ lit "old" ++ nl) (lit "prune tmp" ++ nl)
           [lit "include a"] [lit "include b"; lit "include c"]
           eq_refl eq_refl eq_refl).
Defined.

(** X4.  A begin marker with no end marker after it is not a section: the
    split is the whole text, so a render keeps the text, old begin marker
    and all, and puts a new section after it. *)
Theorem manifest_unclosed_section (pre rest : str) (manifest : list str) :
  contains _BEGIN_SECTION pre = false ->
  contains _END_SECTION rest = false ->
  split_section (pre ++ _BEGIN_SECTION ++ rest) _BEGIN_SECTION _END_SECTION
  = (pre ++ _BEGIN_SECTION ++ rest, [], [])
  /\ render (pre ++ _BEGIN_SECTION ++ rest) manifest
     = (pre ++ _BEGIN_SECTION ++ rest) ++ _BEGIN_SECTION ++ nl
       ++ entry_lines manifest ++ _END_SECTION ++ nl.
Proof.
  intros Hpre Hrest.
  assert (Hsplit :
    split_section (pre ++ _BEGIN_SECTION ++ rest) _BEGIN_SECTION _END_SECTION
    = (pre ++ _BEGIN_SECTION ++ rest, [], [])).
  { apply (split_section_degenerate_end _ _ _ (length pre)).
    - exists pre, rest. split; reflexivity.
    - now apply begin_first.
    - intros k Hk Ho. apply occurs_at_shift in Ho; [|exact Hk].
      destruct (Nat.lt_ge_cases (k - length pre) (length _BEGIN_SECTION))
        as [Hin|Hout].
      + exact (end_not_in_begin _ _ Hin Ho).
      + apply occurs_at_shift in Ho; [|exact Hout].
        exact (proj1 (contains_false _ _) Hrest _ Ho). }
  split; [exact Hsplit|].
  rewrite render_spec, Hsplit. rewrite <- !app_assoc, app_nil_r. reflexivity.
Qed.

Lemma manifest_unclosed_section_witness :
  render (lit "graft docs" ++ nl ++ _BEGIN_SECTION ++ nl ++ lit "include a" ++ nl)
    [lit "include b"]
  = (lit "graft docs" ++ nl ++ _BEGIN_SECTION ++ nl ++ lit "include a" ++ nl)
    ++ _BEGIN_SECTION ++ nl ++ entry_lines [lit "include b"]
    ++ _END_SECTION ++ nl.
Proof.
  apply (proj2 (manifest_unclosed_section (lit "graft docs" ++ nl)
                  (nl ++ lit "include a" ++ nl) [lit "include b"]
                  eq_refl eq_refl)).
Defined.

(** ** More on the build target *)

Lemma str_eqb_refl (a : str) : str_eqb a a = true.
Proof. now apply str_eqb_eq. Qed.

Lemma dict_get_missing (d : list (str * str)) (key : str) :
  (forall v, ~ In (key, v) d) -> dict_get d key = Raise (KeyError key).
Proof.
  induction d as [|[k v] d IH]; intros Hk; [reflexivity|].
  cbn [dict_get]. destruct (str_eqb k key) eqn:E.
  - apply str_eqb_eq in E. subst k. exfalso. apply (Hk v). now left.
  - apply IH. intros v' Hin. apply (Hk v'). now right.
Qed.

Lemma formats_map_get (f ext : str) :
  In (f, ext) _FORMATS_MAP -> dict_get _FORMATS_MAP f = Ok ext.
Proof.
  intros Hin. unfold _FORMATS_MAP in Hin.
  repeat (destruct Hin as [[= <- <-]|Hin]; [reflexivity|]).
  contradiction.
Qed.

(** X5.  A target as [__init__] makes it declares one artifact, the
    [gztar] archive [name-version.tar.gz].  In general the artifacts
    follow the formats one for one: a format of the table gives the name
    with its extension, any other format raises [KeyError] when it is
    reached. *)
Theorem build_artifacts_by_format (t : SetuptoolsBuildTarget) :
  (forall bt pkg, t = init bt pkg ->
     get_build_artifacts t
     = [Ok (name pkg ++ lit "-" ++ version pkg ++ lit ".tar.gz")])
  /\ length (get_build_artifacts t) = length (formats t)
  /\ (forall i f ext,
        nth_error (formats t) i = Some f -> In (f, ext) _FORMATS_MAP ->
        nth_error (get_build_artifacts t) i
        = Some (Ok (name (package t) ++ lit "-" ++ version (package t) ++ ext)))
  /\ (forall i f,
        nth_error (formats t) i = Some f ->
        (forall ext, ~ In (f, ext) _FORMATS_MAP) ->
        nth_error (get_build_artifacts t) i = Some (Raise (KeyError f))).
Proof.
  split; [|split; [|split]].
  - intros bt pkg ->. reflexivity.
  - unfold get_build_artifacts. apply length_map.
  - intros i f ext Hi Hin. unfold get_build_artifacts.
    rewrite nth_error_map, Hi. cbn [option_map].
    now rewrite (formats_map_get f ext Hin).
  - intros i f Hi Hno. unfold get_build_artifacts.
    rewrite nth_error_map, Hi. cbn [option_map].
    now rewrite (dict_get_missing _ f Hno).
Qed.

Lemma build_artifacts_by_format_witness :
  get_build_artifacts
    {| build_type := lit "sdist"; formats := [lit "zip"; lit "rar"];
       package := demo |}
  = [Ok (lit "demo-1.0.zip"); Raise (KeyError (lit "rar"))].
Proof.
  pose proof (build_artifacts_by_format
    {| build_type := lit "sdist"; formats := [lit "zip"; lit "rar"];
       package := demo |}) as (_ & _ & Hin & Hout).
  specialize (Hin 0 (lit "zip") (lit ".zip") eq_refl).
  specialize (Hout 1 (lit "rar") eq_refl).
  reflexivity.
Defined.

Section BuildMore.

Context {W : Type} `{OS W}.

(** X6.  Errors ahead of the artifact loop are passed on with nothing
    cleaned up: when the subprocess cannot be called, [build] raises what
    the call raised; when the subprocess exits with zero and the first
    format is not in the table, [build] raises [KeyError].  In both cases
    the world is as the call left it and the call is the only one
    logged. *)
Theorem build_early_errors (t : SetuptoolsBuildTarget) (bd : str)
    (st : W * list syscall) :
  (forall e, fst (after_call t st) = Raise e ->
     build t bd st = (Raise e, snd (after_call t st)))
  /\ (forall f rest,
        fst (after_call t st) = Ok 0%Z ->
        formats t = f :: rest ->
        (forall ext, ~ In (f, ext) _FORMATS_MAP) ->
        build t bd st = (Raise (KeyError f), snd (after_call t st)))
  /\ snd (snd (after_call t st))
     = snd st ++ [Call (build_args t) (directory (package t))].
Proof.
  split; [|split].
  - intros e He. rewrite build_unfold.
    destruct (after_call t st) as [[res|e'] st1]; cbn [fst snd] in *;
      congruence.
  - intros f rest Hcall Hf Hno. rewrite build_unfold.
    destruct (after_call t st) as [[res|e'] st1]; cbn [fst snd] in *;
      [|discriminate].
    injection Hcall as ->. cbn [Z.eqb negb].
    unfold get_build_artifacts. rewrite Hf. cbn [map].
    rewrite (dict_get_missing _ f Hno). reflexivity.
  - apply after_call_log.
Qed.

(** X7.  The way to [SUCCESS], for a target as [__init__] makes it: the
    subprocess exits with zero, the archive is a file of [dist] and is to
    go elsewhere.  Then a file already at the destination is removed, the
    archive is renamed to the destination, and [dist] is removed when it
    did not exist before the build; when these calls succeed, [build]
    returns [SUCCESS] and has made them in that order, and no other. *)
Theorem build_success_path (bt : str) (pkg : Package) (bd : str)
    (w : W) (log : list syscall) (wa wb wc : W) :
  let t := init bt pkg in
  let w1 := fst (snd (after_call t (w, log))) in
  let src := path_join (dist_directory t)
               (name pkg ++ lit "-" ++ version pkg ++ lit ".tar.gz") in
  let dst := path_join bd
               (name pkg ++ lit "-" ++ version pkg ++ lit ".tar.gz") in
  fst (after_call t (w, log)) = Ok 0%Z ->
  path_isfile w1 src = true ->
  src <> dst ->
  (if path_isfile w1 dst then os_remove dst w1 else (Ok tt, w1)) = (Ok tt, wa) ->
  os_rename src dst wa = (Ok tt, wb) ->
  (if path_exists w (dist_directory t) then (Ok tt, wb)
   else shutil_rmtree (dist_directory t) wb) = (Ok tt, wc) ->
  build t bd (w, log)
  = (Ok SUCCESS,
     (wc,
      log ++ [Call (build_args t) (directory pkg)]
          ++ (if path_isfile w1 dst then [Remove dst] else [])
          ++ [Rename src dst]
          ++ (if path_exists w (dist_directory t) then []
              else [Rmtree (dist_directory t)]))).
Proof.
  intros t w1 src dst Hcall Hsrc Hne Hrm Hren Hclean.
  rewrite build_unfold.
  pose proof (after_call_log t (w, log)) as Hlog.
  subst w1. destruct (after_call t (w, log)) as [[res|e] [w1 log1]];
    cbn [fst snd] in *; [|discriminate].
  injection Hcall as ->. subst log1. cbn [Z.eqb negb].
  change (get_build_artifacts t)
    with [@Ok str (name pkg ++ lit "-" ++ version pkg ++ lit ".tar.gz")].
  cbn [move_artifacts]. unfold bind, ask, ret, perform.
  cbv beta. cbn [fst snd].
  fold src dst. rewrite Hsrc. cbn [negb].
  assert (Hsd : str_eqb src dst = false).
  { destruct (str_eqb src dst) eqn:E; [|reflexivity].
    apply str_eqb_eq in E. contradiction. }
  rewrite Hsd. cbn [negb]. do 3 (cbv beta iota; cbn [fst snd]).
  destruct (path_isfile w1 dst); do 3 (cbv beta iota; cbn [fst snd]).
  - rewrite Hrm. cbn [fst snd]. rewrite Hren.
    destruct (path_exists w (dist_directory t)); cbn [negb fst snd].
    + injection Hclean as <-. rewrite <- !app_assoc, app_nil_r. reflexivity.
    + rewrite Hclean. rewrite <- !app_assoc. reflexivity.
  - injection Hrm as <-. rewrite Hren.
    destruct (path_exists w (dist_directory t)); cbn [negb fst snd].
    + injection Hclean as <-. rewrite <- !app_assoc, app_nil_r. reflexivity.
    + rewrite Hclean. rewrite <- !app_assoc. reflexivity.
Qed.

(** X8.  When the build directory is the [dist] directory itself, nothing
    is moved; and when [dist] did not exist before, it is removed all the
    same, the archive with it: [build] returns [SUCCESS] after the one
    [rmtree]. *)
Theorem build_into_dist (bt : str) (pkg : Package)
    (w : W) (log : list syscall) (w2 : W) :
  let t := init bt pkg in
  let w1 := fst (snd (after_call t (w, log))) in
  let src := path_join (dist_directory t)
               (name pkg ++ lit "-" ++ version pkg ++ lit ".tar.gz") in
  fst (after_call t (w, log)) = Ok 0%Z ->
  path_isfile w1 src = true ->
  path_exists w (dist_directory t) = false ->
  shutil_rmtree (dist_directory t) w1 = (Ok tt, w2) ->
  build t (dist_directory t) (w, log)
  = (Ok SUCCESS,
     (w2, log ++ [Call (build_args t) (directory pkg);
                  Rmtree (dist_directory t)])).
Proof.
  intros t w1 src Hcall Hsrc Hex Hrm.
  rewrite build_unfold.
  pose proof (after_call_log t (w, log)) as Hlog.
  subst w1. destruct (after_call t (w, log)) as [[res|e] [w1 log1]];
    cbn [fst snd] in *; [|discriminate].
  injection Hcall as ->. subst log1. cbn [Z.eqb negb].
  change (get_build_artifacts t)
    with [@Ok str (name pkg ++ lit "-" ++ version pkg ++ lit ".tar.gz")].
  cbn [move_artifacts]. unfold bind, ask, ret, perform.
  cbv beta. cbn [fst snd].
  fold src. rewrite Hsrc, str_eqb_refl. cbn [negb].
  do 3 (cbv beta iota; cbn [fst snd]).
  rewrite Hex. cbn [negb]. do 3 (cbv beta iota; cbn [fst snd]).
  rewrite Hrm. rewrite <- app_assoc. reflexivity.
Qed.

End BuildMore.

Lemma build_success_path_witness :
  build (init (lit "sdist") demo) (lit "out")
    (demo_world 0 [(lit "pkg/dist/demo-1.0.tar.gz", lit "tarball")], [])
  = (Ok SUCCESS,
     ({| Sim.files := [(lit "out/demo-1.0.tar.gz", lit "tarball");
                       (lit "pkg/setup.py", lit "")];
         Sim.dirs := [lit "pkg"; lit "out"];
         Sim.build_exit := 0;
         Sim.build_files := [(lit "pkg/dist/demo-1.0.tar.gz", lit "tarball")];
         Sim.build_dirs := [lit "pkg/dist"] |},
      [Call (build_args (init (lit "sdist") demo)) (lit "pkg");
       Rename (lit "pkg/dist/demo-1.0.tar.gz") (lit "out/demo-1.0.tar.gz");
       Rmtree (lit "pkg/dist")])).
Proof.
  refine (@build_success_path Sim.World Sim.sim_os (lit "sdist") demo
            (lit "out")
            (demo_world 0 [(lit "pkg/dist/demo-1.0.tar.gz", lit "tarball")])
            [] _ _ _ eq_refl eq_refl _ eq_refl eq_refl eq_refl).
  discriminate.
Defined.

Lemma build_into_dist_witness :
  fst (build (init (lit "sdist") demo) (lit "pkg/dist")
         (demo_world 0 [(lit "pkg/dist/demo-1.0.tar.gz", lit "tarball")], []))
  = Ok SUCCESS
  /\ path_isfile
       (fst (snd (build (init (lit "sdist") demo) (lit "pkg/dist")
                    (demo_world 0 [(lit "pkg/dist/demo-1.0.tar.gz",
                                    lit "tarball")], []))))
       (lit "pkg/dist/demo-1.0.tar.gz") = false.
Proof.
  change (lit "pkg/dist") with (dist_directory (init (lit "sdist") demo)).
  rewrite (@build_into_dist Sim.World Sim.sim_os (lit "sdist") demo
             (demo_world 0 [(lit "pkg/dist/demo-1.0.tar.gz", lit "tarball")])
             [] _ eq_refl eq_refl eq_refl eq_refl).
  split; reflexivity.
Defined.

(** ** The version patterns at work *)

Lemma compile_version_regex : compile _VERSION_REGEX = Some version_re.
Proof. vm_compute. reflexivity. Qed.

Lemma compile_setup_version_pattern :
  compile setup_version_pattern = Some setup_version_re.
Proof. vm_compute. reflexivity. Qed.

Lemma match_here_literal (l : str) (re' : regex) :
  forall s pos gs ge,
  match_here (literal l ++ re') s pos gs ge
  = if startswith s l
    then match_here re' (skipn (length l) s) (pos + length l) gs ge
    else None.
Proof.
  induction l as [|c l IH]; intros s pos gs ge.
  - cbn [literal map app startswith length skipn]. now rewrite Nat.add_0_r.
  - cbn [literal map app match_here]. destruct s as [|a s]; [reflexivity|].
    cbn [cset_match startswith]. destruct (Ascii.eqb c a); [|reflexivity].
    cbn [andb]. fold (literal l). rewrite IH. cbn [length skipn].
    now rewrite Nat.add_succ_r.
Qed.

Lemma try_down_Some {R : Type} (lo : nat) (f : nat -> option R) (r : R) :
  forall n, try_down lo f n = Some r ->
  exists k, lo <= k <= n /\ f k = Some r.
Proof.
  induction n as [|n IH]; cbn [try_down].
  - destruct (Nat.ltb_spec 0 lo); [discriminate|].
    destruct (f 0) eqn:E; [|discriminate].
    intros [= ->]. exists 0. split; [lia|exact E].
  - destruct (Nat.ltb_spec (S n) lo); [discriminate|].
    destruct (f (S n)) eqn:E.
    + intros [= ->]. exists (S n). split; [lia|exact E].
    + intros Hn. destruct (IH Hn) as (k & Hk & Hf).
      exists k. split; [lia|exact Hf].
Qed.

(** Backtracking stops at the longest repetition after which the rest of
    the pattern matches. *)
Lemma try_down_top {R : Type} (lo : nat) (f : nat -> option R) (r : R)
    (k : nat) :
  forall n, lo <= k <= n -> f k = Some r ->
  (forall j, k < j <= n -> f j = None) ->
  try_down lo f n = Some r.
Proof.
  induction n as [|n IH]; intros Hk Hf Hnone; cbn [try_down].
  - replace k with 0 in * by lia.
    destruct (Nat.ltb_spec 0 lo); [lia|]. now rewrite Hf.
  - destruct (Nat.ltb_spec (S n) lo); [lia|].
    destruct (Nat.eq_dec k (S n)) as [->|Hne]; [now rewrite Hf|].
    rewrite (Hnone (S n)) by lia.
    apply IH; [lia|exact Hf|]. intros j Hj. apply Hnone. lia.
Qed.

Lemma run_length_prefix (cs : cset) (s : str) :
  forall k, k <= run_length cs s ->
  k <= length s /\ Forall (fun a => cset_match cs a = true) (firstn k s).
Proof.
  induction s as [|a s IH]; intros k Hk.
  - simpl in Hk. replace k with 0 by lia. split; [lia|constructor].
  - destruct k as [|k]; [split; [lia|constructor]|].
    cbn [run_length] in Hk. destruct (cset_match cs a) eqn:E; [|lia].
    destruct (IH k) as [Hl Hf]; [lia|]. split; [simpl; lia|].
    cbn [firstn]. now constructor.
Qed.

Lemma run_length_app (cs : cset) (ws rest : str) :
  Forall (fun a => cset_match cs a = true) ws ->
  (forall c r, rest = c :: r -> cset_match cs c = false) ->
  run_length cs (ws ++ rest) = length ws.
Proof.
  intros Hws Hrest. induction Hws as [|a ws Ha _ IH].
  - destruct rest as [|c r]; [reflexivity|].
    cbn [app run_length]. now rewrite (Hrest c r eq_refl).
  - cbn [app run_length length]. now rewrite Ha, IH.
Qed.

Lemma search_from_first (re : regex) (e : nat) (gs ge : option nat) :
  forall k s pos,
  k <= length s ->
  match_here re (skipn k s) (pos + k) None None = Some (e, gs, ge) ->
  (forall j, j < k -> match_here re (skipn j s) (pos + j) None None = None) ->
  search_from re s pos
  = Some {| m_start := pos + k; m_end := e; g_start := gs; g_end := ge |}.
Proof.
  induction k as [|k IH]; intros s pos Hk Hm Hnone.
  - cbn [skipn] in Hm. rewrite Nat.add_0_r in *.
    destruct s; cbn [search_from]; now rewrite Hm.
  - destruct s as [|a s]; [simpl in Hk; lia|].
    cbn [search_from]. pose proof (Hnone 0 ltac:(lia)) as H0.
    cbn [skipn] in H0. rewrite Nat.add_0_r in H0. rewrite H0.
    replace (pos + S k) with (S pos + k) in * by lia.
    apply IH; [simpl in Hk; lia|exact Hm|].
    intros j Hj. specialize (Hnone (S j) ltac:(lia)).
    now replace (pos + S j) with (S pos + j) in Hnone by lia.
Qed.

Lemma search_from_Some (re : regex) :
  forall s pos m, search_from re s pos = Some m ->
  exists k e gs ge,
    k <= length s /\
    match_here re (skipn k s) (pos + k) None None = Some (e, gs, ge) /\
    m = {| m_start := pos + k; m_end := e; g_start := gs; g_end := ge |}.
Proof.
  induction s as [|a s IH]; intros pos m; cbn [search_from].
  - destruct (match_here re [] pos None None) as [[[e gs] ge]|] eqn:E;
      [|discriminate].
    intros [= <-]. exists 0, e, gs, ge. cbn [skipn length].
    rewrite Nat.add_0_r. auto.
  - destruct (match_here re (a :: s) pos None None) as [[[e gs] ge]|] eqn:E.
    + intros [= <-]. exists 0, e, gs, ge. cbn [skipn].
      rewrite Nat.add_0_r. split; [lia|auto].
    + intros Hs. destruct (IH _ _ Hs) as (k & e & gs & ge & Hk & Hm & ->).
      exists (S k), e, gs, ge. cbn [skipn length].
      replace (pos + S k) with (S pos + k) by lia. split; [lia|auto].
Qed.

Lemma search_from_found (re : regex) :
  forall k s pos r,
  k <= length s ->
  match_here re (skipn k s) (pos + k) None None = Some r ->
  exists m, search_from re s pos = Some m.
Proof.
  induction k as [|k IH]; intros s pos r Hk Hm.
  - cbn [skipn] in Hm. rewrite Nat.add_0_r in Hm.
    destruct r as [[e gs] ge].
    destruct s; cbn [search_from]; rewrite Hm; eauto.
  - destruct s as [|a s]; [simpl in Hk; lia|].
    cbn [search_from].
    destruct (match_here re (a :: s) pos None None) as [[[e gs] ge]|];
      [eauto|].
    apply (IH s (S pos) r); [simpl in Hk; lia|].
    now replace (S pos + k) with (pos + S k) by lia.
Qed.

Lemma in_quotes (cands : list ascii) (a : ascii) :
  existsb (Ascii.eqb a) cands = true <-> In a cands.
Proof.
  rewrite existsb_exists. split.
  - intros (x & Hx & E). apply Ascii.eqb_eq in E. now subst.
  - intros Hin. exists a. split; [exact Hin|apply Ascii.eqb_refl].
Qed.

Lemma not_in_quotes (cands : list ascii) (a : ascii) :
  negb (existsb (Ascii.eqb a) cands) = true <-> ~ In a cands.
Proof.
  rewrite negb_true_iff, <- in_quotes.
  destruct (existsb (Ascii.eqb a) cands); split; congruence.
Qed.

(** What a successful match of one item says about the text. *)
Lemma literal_elim (l : str) (re' : regex) (s : str) (pos : nat)
    (gs ge : option nat) (r : nat * option nat * option nat) :
  match_here (literal l ++ re') s pos gs ge = Some r ->
  exists s', s = l ++ s' /\ match_here re' s' (pos + length l) gs ge = Some r.
Proof.
  rewrite match_here_literal. destruct (startswith s l) eqn:E; [|discriminate].
  apply startswith_inv in E as [s' ->].
  rewrite skipn_app, skipn_all, Nat.sub_diag. cbn [skipn app]. eauto.
Qed.

Lemma one_elim (cs : cset) (re' : regex) (s : str) (pos : nat)
    (gs ge : option nat) (r : nat * option nat * option nat) :
  match_here (One cs :: re') s pos gs ge = Some r ->
  exists a s', s = a :: s' /\ cset_match cs a = true /\
               match_here re' s' (S pos) gs ge = Some r.
Proof.
  cbn [match_here]. destruct s as [|a s']; [discriminate|].
  destruct (cset_match cs a) eqn:E; [|discriminate]. eauto.
Qed.

Lemma repeat_elim (lo : nat) (cs : cset) (re' : regex) (s : str) (pos : nat)
    (gs ge : option nat) (r : nat * option nat * option nat) :
  try_down lo (fun k => match_here re' (skipn k s) (pos + k) gs ge)
    (run_length cs s) = Some r ->
  exists ws s', s = ws ++ s' /\ lo <= length ws /\
    Forall (fun a => cset_match cs a = true) ws /\
    match_here re' s' (pos + length ws) gs ge = Some r.
Proof.
  intros Hm. apply try_down_Some in Hm as (k & Hk & Hm).
  destruct (run_length_prefix cs s k) as [Hl Hws]; [lia|].
  exists (firstn k s), (skipn k s).
  rewrite firstn_skipn, firstn_length_le by exact Hl.
  repeat split; [lia|exact Hws|exact Hm].
Qed.

Lemma star_elim (cs : cset) (re' : regex) (s : str) (pos : nat)
    (gs ge : option nat) (r : nat * option nat * option nat) :
  match_here (Star cs :: re') s pos gs ge = Some r ->
  exists ws s', s = ws ++ s' /\
    Forall (fun a => cset_match cs a = true) ws /\
    match_here re' s' (pos + length ws) gs ge = Some r.
Proof.
  intros Hm. destruct (repeat_elim 0 cs re' s pos gs ge r Hm)
    as (ws & s' & Hs & _ & Hws & Hr). eauto.
Qed.

Lemma plus_elim (cs : cset) (re' : regex) (s : str) (pos : nat)
    (gs ge : option nat) (r : nat * option nat * option nat) :
  match_here (Plus cs :: re') s pos gs ge = Some r ->
  exists ws s', s = ws ++ s' /\ ws <> [] /\
    Forall (fun a => cset_match cs a = true) ws /\
    match_here re' s' (pos + length ws) gs ge = Some r.
Proof.
  intros Hm. destruct (repeat_elim 1 cs re' s pos gs ge r Hm)
    as (ws & s' & Hs & Hl & Hws & Hr).
  exists ws, s'. repeat split; try assumption.
  intros ->. simpl in Hl. lia.
Qed.

(** What it takes for one item to match. *)
Lemma literal_intro (l : str) (re' : regex) (s' : str) (pos : nat)
    (gs ge : option nat) :
  match_here (literal l ++ re') (l ++ s') pos gs ge
  = match_here re' s' (pos + length l) gs ge.
Proof.
  rewrite match_here_literal, startswith_app.
  now rewrite skipn_app, skipn_all, Nat.sub_diag.
Qed.

Lemma one_intro (cs : cset) (re' : regex) (a : ascii) (s' : str) (pos : nat)
    (gs ge : option nat) :
  cset_match cs a = true ->
  match_here (One cs :: re') (a :: s') pos gs ge
  = match_here re' s' (S pos) gs ge.
Proof. intros Ha. cbn [match_here]. now rewrite Ha. Qed.

Lemma run_length_ge (cs : cset) (ws rest : str) :
  Forall (fun a => cset_match cs a = true) ws ->
  length ws <= run_length cs (ws ++ rest).
Proof.
  induction 1 as [|a ws Ha _ IH]; [simpl; lia|].
  cbn [app run_length length]. rewrite Ha. lia.
Qed.

Lemma repeat_intro (lo : nat) (cs : cset) (re' : regex) (ws s' : str)
    (pos : nat) (gs ge : option nat) (r : nat * option nat * option nat) :
  lo <= length ws ->
  Forall (fun a => cset_match cs a = true) ws ->
  match_here re' s' (pos + length ws) gs ge = Some r ->
  (forall j, length ws < j <= run_length cs (ws ++ s') ->
     match_here re' (skipn j (ws ++ s')) (pos + j) gs ge = None) ->
  try_down lo (fun k => match_here re' (skipn k (ws ++ s')) (pos + k) gs ge)
    (run_length cs (ws ++ s')) = Some r.
Proof.
  intros Hlo Hws Hr Hnone.
  apply (try_down_top lo _ r (length ws)).
  - split; [exact Hlo|now apply run_length_ge].
  - now rewrite skipn_app, skipn_all, Nat.sub_diag.
  - exact Hnone.
Qed.

Lemma repeat_intro_stop (lo : nat) (cs : cset) (re' : regex) (ws s' : str)
    (pos : nat) (gs ge : option nat) (r : nat * option nat * option nat) :
  lo <= length ws ->
  Forall (fun a => cset_match cs a = true) ws ->
  (forall c r', s' = c :: r' -> cset_match cs c = false) ->
  match_here re' s' (pos + length ws) gs ge = Some r ->
  try_down lo (fun k => match_here re' (skipn k (ws ++ s')) (pos + k) gs ge)
    (run_length cs (ws ++ s')) = Some r.
Proof.
  intros Hlo Hws Hstop Hr. apply repeat_intro; try assumption.
  intros j Hj. rewrite (run_length_app cs ws s' Hws Hstop) in Hj. lia.
Qed.

Lemma forall_space (ws : str) :
  Forall (fun a => cset_match CSpace a = true) ws <->
  Forall (fun a => isspace a = true) ws.
Proof. reflexivity. Qed.

Lemma group_open_step (re' : regex) (s : str) (pos : nat)
    (gs ge : option nat) :
  match_here (GroupOpen :: re') s pos gs ge
  = match_here re' s pos (Some pos) ge.
Proof. reflexivity. Qed.

Lemma group_close_step (re' : regex) (s : str) (pos : nat)
    (gs ge : option nat) :
  match_here (GroupClose :: re') s pos gs ge
  = match_here re' s pos gs (Some pos).
Proof. reflexivity. Qed.

(** What a match of the scanner's pattern at the head of [s] looks like. *)
Lemma version_re_match (s : str) (pos e : nat) (gs ge : option nat) :
  match_here version_re s pos None None = Some (e, gs, ge) ->
  exists ws1 ws2 q1 v q2 post,
    s = version_line [] ws1 ws2 q1 v q2 post /\
    Forall (fun a => isspace a = true) ws1 /\
    Forall (fun a => isspace a = true) ws2 /\
    In q1 quotes /\ In q2 quotes /\ v <> [] /\
    Forall (fun a => ~ In a quotes) v /\
    gs = Some (pos + value_index [] ws1 ws2) /\
    ge = Some (pos + value_index [] ws1 ws2 + length v) /\
    e = pos + value_index [] ws1 ws2 + length v + 1.
Proof.
  unfold version_re. intros Hm.
  apply literal_elim in Hm as (s1 & -> & Hm).
  apply star_elim in Hm as (ws1 & s2 & -> & Hws1 & Hm).
  apply one_elim in Hm as (a & s3 & -> & Ha & Hm).
  cbn [cset_match] in Ha. apply Ascii.eqb_eq in Ha. subst a.
  apply star_elim in Hm as (ws2 & s4 & -> & Hws2 & Hm).
  apply one_elim in Hm as (q1 & s5 & -> & Hq1 & Hm).
  rewrite group_open_step in Hm.
  apply plus_elim in Hm as (v & s6 & -> & Hv & Hvq & Hm).
  rewrite group_close_step in Hm.
  apply one_elim in Hm as (q2 & post & -> & Hq2 & Hm).
  cbn [match_here] in Hm. injection Hm as <- <- <-.
  exists ws1, ws2, q1, v, q2, post.
  unfold version_line, value_index. cbn [app length].
  repeat split; try assumption.
  - now apply in_quotes.
  - now apply in_quotes.
  - eapply Forall_impl; [|exact Hvq]. intros c Hc. now apply not_in_quotes.
  - change (length version_key) with 11. f_equal. lia.
  - change (length version_key) with 11. f_equal. lia.
  - change (length version_key) with 11. lia.
Qed.

Lemma version_line_split (pre ws1 ws2 : str) (q1 : ascii) (v : str)
    (q2 : ascii) (post : str) :
  version_line pre ws1 ws2 q1 v q2 post
  = (pre ++ version_key ++ ws1 ++ lit "=" ++ ws2 ++ [q1]) ++ v ++ [q2] ++ post
  /\ length (pre ++ version_key ++ ws1 ++ lit "=" ++ ws2 ++ [q1])
     = value_index pre ws1 ws2.
Proof.
  unfold version_line, value_index. split.
  - now rewrite <- !app_assoc.
  - rewrite !length_app. simpl. lia.
Qed.

Lemma version_line_value (pre ws1 ws2 : str) (q1 : ascii) (v : str)
    (q2 : ascii) (post : str) :
  firstn (value_index pre ws1 ws2 + length v - value_index pre ws1 ws2)
    (skipn (value_index pre ws1 ws2)
       (version_line pre ws1 ws2 q1 v q2 post)) = v.
Proof.
  destruct (version_line_split pre ws1 ws2 q1 v q2 post) as [-> Hl].
  rewrite <- Hl, skipn_app, skipn_all, Nat.sub_diag. cbn [skipn app].
  replace (_ + length v - _) with (length v) by lia.
  rewrite firstn_app, firstn_all, Nat.sub_diag. cbn [firstn]. apply app_nil_r.
Qed.

Lemma version_line_pre (pre ws1 ws2 : str) (q1 : ascii) (v : str)
    (q2 : ascii) (post : str) :
  version_line pre ws1 ws2 q1 v q2 post
  = pre ++ version_line [] ws1 ws2 q1 v q2 post.
Proof. reflexivity. Qed.

Lemma re_search_version (text : str) :
  re_search _VERSION_REGEX text = Ok (search_from version_re text 0).
Proof. unfold re_search. now rewrite compile_version_regex. Qed.

Lemma re_search_setup (text : str) :
  re_search setup_version_pattern text
  = Ok (search_from setup_version_re text 0).
Proof. unfold re_search. now rewrite compile_setup_version_pattern. Qed.

(** The scan of a readable file whose text has a match of the pattern. *)
Lemma scan_of_match {W : Type} `{OS W} (w : W) (f : str)
    (pre ws1 ws2 : str) (q1 : ascii) (v : str) (q2 : ascii) (post : str)
    (e : nat) :
  path_isfile w f = true ->
  read_text w f = Ok (version_line pre ws1 ws2 q1 v q2 post) ->
  search_from version_re (version_line pre ws1 ws2 q1 v q2 post) 0
  = Some {| m_start := length pre; m_end := e;
            g_start := Some (value_index pre ws1 ws2);
            g_end := Some (value_index pre ws1 ws2 + length v) |} ->
  get_package_version_refs w f
  = Ok [ {| filename := f; vstart := value_index pre ws1 ws2;
            vend := value_index pre ws1 ws2 + length v; value := v |} ].
Proof.
  intros Hf Hr Hs. unfold get_package_version_refs.
  rewrite Hf, Hr, re_search_version, Hs. cbn [negb g_start g_end].
  unfold group1. cbn [g_start g_end]. now rewrite version_line_value.
Qed.

Section ScanFacts.

Context {W : Type} `{OS W}.

(** What the scan yields when the search finds a match. *)
Lemma version_scan_found (w : W) (f text : str) (m : Match) :
  path_isfile w f = true ->
  read_text w f = Ok text ->
  search_from version_re text 0 = Some m ->
  exists pre ws1 ws2 q1 v q2 post,
    text = version_line pre ws1 ws2 q1 v q2 post /\
    Forall (fun a => isspace a = true) ws1 /\
    Forall (fun a => isspace a = true) ws2 /\
    In q1 quotes /\ In q2 quotes /\ v <> [] /\
    Forall (fun a => ~ In a quotes) v /\
    get_package_version_refs w f
    = Ok [ {| filename := f; vstart := value_index pre ws1 ws2;
              vend := value_index pre ws1 ws2 + length v;
              value := v |} ].
Proof.
  intros Hf Hr Hs.
  destruct (search_from_Some _ _ _ _ Hs) as (k & e & gs & ge & Hk & Hm & ->).
  cbn [Nat.add] in Hm.
  destruct (version_re_match _ _ _ _ _ Hm)
    as (ws1 & ws2 & q1 & v & q2 & post & Ht & H1 & H2 & Hq1 & Hq2 & Hv & Hvq
        & -> & -> & ->).
  assert (Hpre : length (firstn k text) = k) by (now apply firstn_length_le).
  assert (Htext : text = version_line (firstn k text) ws1 ws2 q1 v q2 post).
  { rewrite version_line_pre, <- Ht. symmetry. apply firstn_skipn. }
  exists (firstn k text), ws1, ws2, q1, v, q2, post.
  repeat split; try assumption.
  rewrite Htext in Hr, Hs.
  apply (scan_of_match w f _ _ _ _ _ _ _
           (k + value_index [] ws1 ws2 + length v + 1) Hf Hr).
  rewrite Hs. unfold value_index. rewrite Hpre. cbn [length Nat.add].
  f_equal. f_equal; f_equal; lia.
Qed.

(** X9.  The scan of an existing file raises only what reading the file
    raises.  When the file is read, the scan yields nothing or one
    reference; the file text then has the name [__version__], blanks, an
    equals sign, blanks, a quote character, the value, a quote character,
    and the reference gives the value, which is not empty and has no
    quote in it, with the index where it starts and where it ends. *)
Theorem version_scan_sound (w : W) (f : str) :
  path_isfile w f = true ->
  match read_text w f with
  | Raise e => get_package_version_refs w f = Raise e
  | Ok text =>
      get_package_version_refs w f = Ok [] \/
      exists pre ws1 ws2 q1 v q2 post,
        text = version_line pre ws1 ws2 q1 v q2 post /\
        Forall (fun a => isspace a = true) ws1 /\
        Forall (fun a => isspace a = true) ws2 /\
        In q1 quotes /\ In q2 quotes /\ v <> [] /\
        Forall (fun a => ~ In a quotes) v /\
        get_package_version_refs w f
        = Ok [ {| filename := f; vstart := value_index pre ws1 ws2;
                  vend := value_index pre ws1 ws2 + length v;
                  value := v |} ]
  end.
Proof.
  intros Hf. destruct (read_text w f) as [text|e] eqn:Hr.
  2:{ unfold get_package_version_refs. now rewrite Hf, Hr. }
  destruct (search_from version_re text 0) as [m|] eqn:Hs.
  - right. exact (version_scan_found w f text m Hf Hr Hs).
  - left. unfold get_package_version_refs.
    now rewrite Hf, Hr, re_search_version, Hs.
Qed.

End ScanFacts.

Lemma version_scan_sound_witness :
  get_package_version_refs
    (Sim.single (lit "demo.py")
       (lit "x = 1" ++ nl ++ lit "__version__ = '1.0'" ++ nl))
    (lit "demo.py") = Ok [] \/
  exists pre ws1 ws2 q1 v q2 post,
    lit "x = 1" ++ nl ++ lit "__version__ = '1.0'" ++ nl
    = version_line pre ws1 ws2 q1 v q2 post /\
    Forall (fun a => isspace a = true) ws1 /\
    Forall (fun a => isspace a = true) ws2 /\
    In q1 quotes /\ In q2 quotes /\ v <> [] /\
    Forall (fun a => ~ In a quotes) v /\
    get_package_version_refs
      (Sim.single (lit "demo.py")
         (lit "x = 1" ++ nl ++ lit "__version__ = '1.0'" ++ nl))
      (lit "demo.py")
    = Ok [ {| filename := lit "demo.py";
              vstart := value_index pre ws1 ws2;
              vend := value_index pre ws1 ws2 + length v;
              value := v |} ].
Proof.
  exact (@version_scan_sound Sim.World Sim.sim_os
           (Sim.single (lit "demo.py")
              (lit "x = 1" ++ nl ++ lit "__version__ = '1.0'" ++ nl))
           (lit "demo.py") eq_refl).
Defined.

Lemma star_intro_stop (cs : cset) (re' : regex) (ws s' : str)
    (pos : nat) (gs ge : option nat) (r : nat * option nat * option nat) :
  Forall (fun a => cset_match cs a = true) ws ->
  (forall c r', s' = c :: r' -> cset_match cs c = false) ->
  match_here re' s' (pos + length ws) gs ge = Some r ->
  match_here (Star cs :: re') (ws ++ s') pos gs ge = Some r.
Proof. intros. apply repeat_intro_stop; [lia|assumption..]. Qed.

Lemma plus_intro_stop (cs : cset) (re' : regex) (ws s' : str)
    (pos : nat) (gs ge : option nat) (r : nat * option nat * option nat) :
  ws <> [] ->
  Forall (fun a => cset_match cs a = true) ws ->
  (forall c r', s' = c :: r' -> cset_match cs c = false) ->
  match_here re' s' (pos + length ws) gs ge = Some r ->
  match_here (Plus cs :: re') (ws ++ s') pos gs ge = Some r.
Proof.
  intros Hne. intros. apply repeat_intro_stop; try assumption.
  destruct ws; [congruence|simpl; lia].
Qed.

Lemma quote_not_space (q : ascii) : In q quotes -> isspace q = false.
Proof. intros [<-|[<-|[]]]; reflexivity. Qed.

(** The scanner's pattern matches at the head of a version assignment. *)
Lemma version_re_match_intro (ws1 ws2 : str) (q1 : ascii) (v : str)
    (q2 : ascii) (post : str) (pos : nat) :
  Forall (fun a => isspace a = true) ws1 ->
  Forall (fun a => isspace a = true) ws2 ->
  In q1 quotes -> In q2 quotes -> v <> [] ->
  Forall (fun a => ~ In a quotes) v ->
  match_here version_re (version_line [] ws1 ws2 q1 v q2 post) pos None None
  = Some (pos + value_index [] ws1 ws2 + length v + 1,
          Some (pos + value_index [] ws1 ws2),
          Some (pos + value_index [] ws1 ws2 + length v)).
Proof.
  intros H1 H2 Hq1 Hq2 Hv Hvq.
  unfold version_re, version_line. cbn [app].
  rewrite literal_intro.
  apply star_intro_stop; [exact H1|intros c r' [= <- _]; reflexivity|].
  change (lit "=" ++ ws2 ++ q1 :: v ++ q2 :: post)
    with ("="%char :: ws2 ++ q1 :: v ++ q2 :: post).
  rewrite one_intro by reflexivity.
  apply star_intro_stop;
    [exact H2|intros c r' [= <- _]; now apply quote_not_space|].
  rewrite one_intro by (now apply in_quotes).
  rewrite group_open_step.
  apply plus_intro_stop.
  - exact Hv.
  - eapply Forall_impl; [|exact Hvq]. intros a Ha. now apply not_in_quotes.
  - intros c r' [= <- _]. cbn [cset_match].
    apply negb_false_iff. now apply in_quotes.
  - rewrite group_close_step, one_intro by (now apply in_quotes).
    cbn [match_here]. unfold value_index. change (length version_key) with 11.
    cbn [length]. repeat f_equal; lia.
Qed.

(** Where the name does not occur, neither pattern matches. *)
Lemma no_key_no_match (re' : regex) (text : str) (j : nat) :
  j <= length text ->
  ~ occurs_at version_key j text ->
  match_here (literal version_key ++ re') (skipn j text) (0 + j) None None
  = None.
Proof.
  intros Hj Hno. rewrite match_here_literal.
  destruct (startswith (skipn j text) version_key) eqn:E; [|reflexivity].
  exfalso. apply Hno. apply occurs_at_skipn. auto.
Qed.

Lemma search_version_line (re' : regex) (pre tail : str)
    (r : nat * option nat * option nat) :
  (forall k, k < length pre -> ~ occurs_at version_key k (pre ++ tail)) ->
  match_here (literal version_key ++ re') tail (length pre) None None
  = Some r ->
  search_from (literal version_key ++ re') (pre ++ tail) 0
  = Some {| m_start := length pre; m_end := fst (fst r);
            g_start := snd (fst r); g_end := snd r |}.
Proof.
  intros Hno Hm. destruct r as [[e gs] ge]. cbn [fst snd].
  apply (search_from_first _ e gs ge (length pre) (pre ++ tail) 0).
  - rewrite length_app. lia.
  - now rewrite skipn_app, skipn_all, Nat.sub_diag.
  - intros j Hj. apply no_key_no_match; [rewrite length_app; lia|].
    now apply Hno.
Qed.

Section ScanComplete.

Context {W : Type} `{OS W}.

(** X10.  The scan of a readable file whose text has a version assignment
    (the name, blanks, an equals sign, blanks, a quote character, a value
    that is not empty and has no quote in it, a quote character) yields a
    reference; when the name does not occur ahead of the assignment, it is
    the reference to that value. *)
Theorem version_scan_complete (w : W) (f : str)
    (pre ws1 ws2 : str) (q1 : ascii) (v : str) (q2 : ascii) (post : str) :
  path_isfile w f = true ->
  read_text w f = Ok (version_line pre ws1 ws2 q1 v q2 post) ->
  Forall (fun a => isspace a = true) ws1 ->
  Forall (fun a => isspace a = true) ws2 ->
  In q1 quotes -> In q2 quotes -> v <> [] ->
  Forall (fun a => ~ In a quotes) v ->
  (exists ref, get_package_version_refs w f = Ok [ref])
  /\ ((forall k, k < length pre ->
         ~ occurs_at version_key k (version_line pre ws1 ws2 q1 v q2 post)) ->
      get_package_version_refs w f
      = Ok [ {| filename := f; vstart := value_index pre ws1 ws2;
                vend := value_index pre ws1 ws2 + length v; value := v |} ]).
Proof.
  intros Hf Hr H1 H2 Hq1 Hq2 Hv Hvq.
  pose proof (version_re_match_intro ws1 ws2 q1 v q2 post (length pre)
                H1 H2 Hq1 Hq2 Hv Hvq) as Hm.
  split.
  - destruct (search_from_found version_re (length pre)
                (version_line pre ws1 ws2 q1 v q2 post) 0
                (length pre + value_index [] ws1 ws2 + length v + 1,
                 Some (length pre + value_index [] ws1 ws2),
                 Some (length pre + value_index [] ws1 ws2 + length v)))
      as [m Hs].
    + rewrite version_line_pre, length_app. lia.
    + rewrite version_line_pre, skipn_app, skipn_all, Nat.sub_diag.
      exact Hm.
    + destruct (version_scan_found w f _ m Hf Hr Hs)
        as (? & ? & ? & ? & ? & ? & ? & _ & _ & _ & _ & _ & _ & _ & Hg).
      eauto.
  - intros Hno. apply (scan_of_match w f _ _ _ _ _ _ _
      (length pre + value_index [] ws1 ws2 + length v + 1) Hf Hr).
    rewrite version_line_pre in Hno |- *. unfold version_re in Hm |- *.
    rewrite (search_version_line _ pre _ _ Hno Hm). cbn [fst snd].
    unfold value_index. cbn [length Nat.add].
    f_equal. f_equal; f_equal; lia.
Qed.

End ScanComplete.

Lemma version_scan_complete_witness :
  get_package_version_refs
    (Sim.single (lit "demo.py")
       (version_line (lit "x = 1" ++ nl) (lit " ") (lit " ") dquote
          (lit "1.0") dquote nl))
    (lit "demo.py")
  = Ok [ {| filename := lit "demo.py"; vstart := 21; vend := 24;
            value := lit "1.0" |} ].
Proof.
  refine (proj2 (@version_scan_complete Sim.World Sim.sim_os
            (Sim.single (lit "demo.py")
               (version_line (lit "x = 1" ++ nl) (lit " ") (lit " ") dquote
                  (lit "1.0") dquote nl))
            (lit "demo.py") (lit "x = 1" ++ nl) (lit " ") (lit " ") dquote
            (lit "1.0") dquote nl eq_refl eq_refl _ _ _ _ _ _) _).
  - repeat constructor.
  - repeat constructor.
  - right. left. reflexivity.
  - right. left. reflexivity.
  - discriminate.
  - repeat (apply Forall_cons;
            [intros [E|[E|[]]]; discriminate E|]). apply Forall_nil.
  - intros k Hk. apply (absent_between_spec version_key 0 6);
      [reflexivity|simpl in Hk; lia].
Defined.

Lemma Forall_skipn_keep {A : Type} (P : A -> Prop) (l : list A) (i : nat) :
  Forall P l -> Forall P (skipn i l).
Proof.
  revert l; induction i as [|i IH]; intros l Hl; [exact Hl|].
  destruct l as [|a l]; [constructor|]. inversion Hl; subst. now apply IH.
Qed.

(** The closing quote of the helper's pattern does not match in the rest
    of a line that has no single quote. *)
Lemma no_closing_quote (line rest : str) (pos : nat) (gs ge : option nat) :
  Forall (fun a => a <> squote /\ a <> nl_c) line ->
  (rest = [] \/ exists r, rest = nl_c :: r) ->
  match_here [GroupClose; One (CLit squote)] (line ++ rest) pos gs ge = None.
Proof.
  intros Hline Hrest. rewrite group_close_step. cbn [match_here].
  destruct line as [|a line]; cbn [app].
  - destruct Hrest as [->|[r ->]]; reflexivity.
  - inversion Hline as [|? ? [Ha _] _]; subst. cbn [cset_match].
    assert (E : Ascii.eqb squote a = false) by (apply Ascii.eqb_neq; congruence).
    now rewrite E.
Qed.

Lemma star_intro (cs : cset) (re' : regex) (ws s' : str)
    (pos : nat) (gs ge : option nat) (r : nat * option nat * option nat) :
  Forall (fun a => cset_match cs a = true) ws ->
  match_here re' s' (pos + length ws) gs ge = Some r ->
  (forall j, length ws < j <= run_length cs (ws ++ s') ->
     match_here re' (skipn j (ws ++ s')) (pos + j) gs ge = None) ->
  match_here (Star cs :: re') (ws ++ s') pos gs ge = Some r.
Proof. intros. apply repeat_intro; [lia|assumption..]. Qed.

(** The helper's pattern matches at the head of a single-quoted version
    assignment and takes the value up to the last single quote of the
    line. *)
Lemma setup_re_match_intro (ws1 ws2 v line rest : str) (pos : nat) :
  Forall (fun a => isspace a = true) ws1 ->
  Forall (fun a => isspace a = true) ws2 ->
  Forall (fun a => a <> nl_c) v ->
  Forall (fun a => a <> squote /\ a <> nl_c) line ->
  (rest = [] \/ exists r, rest = nl_c :: r) ->
  match_here setup_version_re
    (version_line [] ws1 ws2 squote v squote (line ++ rest)) pos None None
  = Some (pos + value_index [] ws1 ws2 + length v + 1,
          Some (pos + value_index [] ws1 ws2),
          Some (pos + value_index [] ws1 ws2 + length v)).
Proof.
  intros H1 H2 Hv Hline Hrest.
  assert (Hany : forall l, Forall (fun a => a <> nl_c) l ->
                 Forall (fun a => cset_match CAny a = true) l).
  { intros l Hl. eapply Forall_impl; [|exact Hl]. intros a Ha.
    cbn [cset_match]. apply negb_true_iff. apply Nat.eqb_neq. intros E.
    apply Ha. rewrite <- (ascii_nat_embedding a), E. reflexivity. }
  unfold setup_version_re, version_line. cbn [app].
  rewrite literal_intro.
  apply star_intro_stop; [exact H1|intros c r' [= <- _]; reflexivity|].
  change (lit "=" ++ ws2 ++ squote :: v ++ squote :: line ++ rest)
    with ("="%char :: ws2 ++ squote :: v ++ squote :: line ++ rest).
  rewrite one_intro by reflexivity.
  apply star_intro_stop; [exact H2|intros c r' [= <- _]; reflexivity|].
  rewrite one_intro by reflexivity.
  rewrite group_open_step.
  apply star_intro.
  - now apply Hany.
  - rewrite group_close_step, one_intro by reflexivity.
    cbn [match_here]. unfold value_index. change (length version_key) with 11.
    cbn [length]. repeat f_equal; lia.
  - intros j Hj.
    assert (Hrun : run_length CAny (v ++ squote :: line ++ rest)
                   = length (v ++ squote :: line)).
    { change (v ++ squote :: line ++ rest)
        with (v ++ (squote :: line) ++ rest).
      rewrite app_assoc. apply run_length_app.
      - apply Hany. apply Forall_app. split; [exact Hv|].
        constructor; [discriminate|].
        eapply Forall_impl; [|exact Hline]. now intros a [_ Ha].
      - intros c r' Hr. destruct Hrest as [->|[r ->]]; [discriminate|].
        injection Hr as <- _. reflexivity. }
    rewrite Hrun, length_app in Hj. cbn [length] in Hj.
    rewrite skipn_app, skipn_all2 by lia. cbn [app].
    destruct (j - length v) as [|i] eqn:Ei; [lia|]. cbn [skipn].
    rewrite skipn_app. replace (i - length line) with 0 by lia.
    cbn [skipn]. apply no_closing_quote; [|exact Hrest].
    now apply Forall_skipn_keep.
Qed.

Section Agreement.

Context {W : Type} `{OS W}.

(** X11.  Where the scanner and the helper of [setup.py] agree: on a file
    whose first [__version__] opens a single-quoted assignment, the value
    not empty and with no quote or newline in it, and with no single quote
    in the rest of that line, both find that value. *)
Theorem version_helper_agrees (w : W) (f : str)
    (pre ws1 ws2 v line rest : str) :
  let text := version_line pre ws1 ws2 squote v squote (line ++ rest) in
  path_isfile w f = true ->
  read_text w f = Ok text ->
  (forall k, k < length pre -> ~ occurs_at version_key k text) ->
  Forall (fun a => isspace a = true) ws1 ->
  Forall (fun a => isspace a = true) ws2 ->
  v <> [] ->
  Forall (fun a => ~ In a quotes /\ a <> nl_c) v ->
  Forall (fun a => a <> squote /\ a <> nl_c) line ->
  (rest = [] \/ exists r, rest = nl_c :: r) ->
  scanned_value (get_package_version_refs w f) = Some v
  /\ setup_version text = Ok v.
Proof.
  intros text Hf Hr Hno H1 H2 Hv Hvq Hline Hrest.
  assert (Hvq1 : Forall (fun a => ~ In a quotes) v).
  { eapply Forall_impl; [|exact Hvq]. now intros a [Ha _]. }
  assert (Hvn : Forall (fun a => a <> nl_c) v).
  { eapply Forall_impl; [|exact Hvq]. now intros a [_ Ha]. }
  assert (Hvi : length pre + value_index [] ws1 ws2 = value_index pre ws1 ws2).
  { unfold value_index. cbn [length]. lia. }
  unfold text in *. rewrite version_line_pre in Hno.
  split.
  - assert (Hq : In squote quotes) by (now left).
    pose proof (version_re_match_intro ws1 ws2 squote v squote (line ++ rest)
                  (length pre) H1 H2 Hq Hq Hv Hvq1) as Hm.
    rewrite (scan_of_match w f pre ws1 ws2 squote v squote (line ++ rest)
               (length pre + value_index [] ws1 ws2 + length v + 1) Hf Hr).
    + reflexivity.
    + rewrite version_line_pre. unfold version_re in Hm |- *.
      rewrite (search_version_line _ pre _ _ Hno Hm).
      cbn [fst snd]. now rewrite Hvi.
  - pose proof (setup_re_match_intro ws1 ws2 v line rest (length pre)
                  H1 H2 Hvn Hline Hrest) as Hm.
    unfold setup_version. rewrite re_search_setup.
    rewrite version_line_pre. unfold setup_version_re in Hm |- *.
    rewrite (search_version_line _ pre _ _ Hno Hm).
    cbn [fst snd]. unfold group1. cbn [g_start g_end].
    rewrite <- version_line_pre, Hvi. now rewrite version_line_value.
Qed.

End Agreement.

Lemma version_helper_agrees_witness :
  scanned_value
    (get_package_version_refs
       (Sim.single (lit "demo.py")
          (version_line (lit "x = 1" ++ nl) (lit " ") (lit " ") squote
             (lit "1.0") squote (lit "  # stable" ++ nl)))
       (lit "demo.py"))
  = Some (lit "1.0")
  /\ setup_version
       (version_line (lit "x = 1" ++ nl) (lit " ") (lit " ") squote
          (lit "1.0") squote (lit "  # stable" ++ nl))
     = Ok (lit "1.0").
Proof.
  refine (@version_helper_agrees Sim.World Sim.sim_os
            (Sim.single (lit "demo.py")
               (version_line (lit "x = 1" ++ nl) (lit " ") (lit " ") squote
                  (lit "1.0") squote (lit "  # stable" ++ nl)))
            (lit "demo.py") (lit "x = 1" ++ nl) (lit " ") (lit " ")
            (lit "1.0") (lit "  # stable") nl eq_refl eq_refl _ _ _ _ _ _ _).
  - intros k Hk. apply (absent_between_spec version_key 0 6);
      [reflexivity|simpl in Hk; lia].
  - repeat constructor.
  - repeat constructor.
  - discriminate.
  - repeat (apply Forall_cons;
            [split; [intros [E|[E|[]]]; discriminate E|discriminate]|]).
    apply Forall_nil.
  - repeat (apply Forall_cons; [split; discriminate|]). apply Forall_nil.
  - right. exists []. reflexivity.
Defined.

(** ** Lines of the generated text *)

Lemma newlines_app (a b : str) : newlines (a ++ b) = newlines a + newlines b.
Proof. apply count_occ_app. Qed.

Lemma newlines_none (s : str) : newlines s = 0 <-> ~ In nl_c s.
Proof. unfold newlines. symmetry. apply count_occ_not_In. Qed.

Lemma newlines_nl : newlines nl = 1.
Proof. reflexivity. Qed.

Lemma repr_no_newline (s : str) : newlines (repr s) = 0.
Proof.
  apply newlines_none. destruct (repr_quote s) as (q & Hq & ->).
  assert (Hc : forall c, ~ In nl_c (repr_char q c)).
  { intros c. apply existsb_eqb_In. apply negb_true_iff.
    apply (forallb_In
             (fun c => negb (existsb (Ascii.eqb nl_c) (repr_char q c)))
             all_ascii c); [|apply in_all_ascii].
    destruct Hq as [->| ->]; vm_compute; reflexivity. }
  intros [E|Hin].
  - destruct Hq as [->| ->]; discriminate E.
  - apply in_app_or in Hin as [Hin|[E|[]]].
    + apply in_flat_map in Hin as (c & _ & Hin). exact (Hc c Hin).
    + destruct Hq as [->| ->]; discriminate E.
Qed.

Lemma newlines_join (sep : str) (parts : list str) :
  newlines sep = 0 ->
  newlines (join sep parts) = list_sum (map newlines parts).
Proof.
  intros Hsep. induction parts as [|p rest IH]; [reflexivity|].
  destruct rest as [|p' rest].
  - simpl. lia.
  - change (join sep (p :: p' :: rest)) with (p ++ sep ++ join sep (p' :: rest)).
    rewrite !newlines_app, IH, Hsep. simpl. lia.
Qed.

Lemma newlines_join_nl (parts : list str) :
  newlines (join nl parts)
  = list_sum (map newlines parts) + (length parts - 1).
Proof.
  induction parts as [|p rest IH]; [reflexivity|].
  destruct rest as [|p' rest].
  - simpl. lia.
  - change (join nl (p :: p' :: rest)) with (p ++ nl ++ join nl (p' :: rest)).
    rewrite !newlines_app, IH, newlines_nl. simpl. lia.
Qed.

Lemma list_sum_zero (f : str -> nat) (l : list str) :
  Forall (fun x => f x = 0) l -> list_sum (map f l) = 0.
Proof.
  induction 1 as [|x l Hx _ IH]; [reflexivity|].
  simpl. lia.
Qed.

Lemma repr_list_no_newline (l : list str) : newlines (repr_list l) = 0.
Proof.
  unfold repr_list. rewrite !newlines_app, newlines_join by reflexivity.
  rewrite list_sum_zero.
  - reflexivity.
  - apply Forall_map. apply Forall_forall. intros x _. apply repr_no_newline.
Qed.

(** A replacement brings in no character that is not in the text or in
    what is put in. *)
Lemma replace_go_chars (old new : str) (c : ascii) :
  forall s k, In c (replace_go old new k s) -> In c s \/ In c new.
Proof.
  induction s as [|a s IH]; intros k Hin; [contradiction|].
  cbn [replace_go] in Hin. destruct k as [|k].
  - destruct (startswith (a :: s) old).
    + apply in_app_or in Hin as [Hin|Hin]; [now right|].
      destruct (IH _ Hin); [left; now right|now right].
    + destruct Hin as [->|Hin]; [left; now left|].
      destruct (IH _ Hin); [left; now right|now right].
  - destruct (IH _ Hin); [left; now right|now right].
Qed.

Lemma replace_no_newline (s old new : str) :
  old <> [] -> newlines s = 0 -> newlines new = 0 ->
  newlines (replace s old new) = 0.
Proof.
  intros Hold Hs Hn. apply newlines_none. intros Hin.
  destruct old as [|o old]; [congruence|]. unfold replace in Hin.
  apply replace_go_chars in Hin as [Hin|Hin].
  - now apply newlines_none in Hs.
  - now apply newlines_none in Hn.
Qed.

Lemma format_item_no_newline (s : str) : newlines (format_item s) = 0.
Proof.
  rewrite format_item_cases.
  destruct (contains tok1 s), (contains tok2 s);
    rewrite ?newlines_app;
    repeat (rewrite replace_no_newline;
            [|discriminate|try apply repr_no_newline|reflexivity]);
    rewrite ?repr_no_newline; reflexivity.
Qed.

Lemma render_item_no_newline (s : str) : newlines (render_item s) = 0.
Proof.
  unfold render_item. rewrite strip_format_item, !newlines_app.
  now rewrite format_item_no_newline.
Qed.

Lemma render_group_lines (kv : str * list str) :
  Forall (fun l => newlines l = 0) (render_group kv)
  /\ length (render_group kv) = 2 + length (snd kv).
Proof.
  unfold render_group. split.
  - apply Forall_app. split; [|apply Forall_app; split].
    + constructor; [|constructor].
      now rewrite !newlines_app, repr_no_newline.
    + apply Forall_map. apply Forall_forall. intros s _.
      apply render_item_no_newline.
    + constructor; [reflexivity|constructor].
  - rewrite !length_app, length_map. simpl. lia.
Qed.

Lemma groups_lines_count (eps : list (str * list str)) :
  Forall (fun l => newlines l = 0) (flat_map render_group eps)
  /\ length (flat_map render_group eps)
     = list_sum (map (fun g => 2 + length (snd g)) eps).
Proof.
  induction eps as [|kv eps [IHf IHl]]; [split; [constructor|reflexivity]|].
  destruct (render_group_lines kv) as [Hf Hl].
  cbn [flat_map map].
  change (list_sum (?x :: ?l)) with (x + list_sum l). split.
  - apply Forall_app. now split.
  - rewrite length_app. lia.
Qed.

Lemma removelast_In {A : Type} (x : A) (l : list A) :
  In x (removelast l) -> In x l.
Proof.
  induction l as [|a l IH]; [contradiction|].
  destruct l as [|b l]; [contradiction|].
  intros [->|Hin]; [now left|right; now apply IH].
Qed.

Lemma chop_last_line_lines (lines : list str) :
  Forall (fun l => newlines l = 0) lines ->
  Forall (fun l => newlines l = 0) (chop_last_line lines)
  /\ length (chop_last_line lines) = length lines.
Proof.
  intros Hf. destruct lines as [|l0 lines]; [split; [constructor|reflexivity]|].
  destruct (exists_last (l := l0 :: lines)) as (L & x & E); [discriminate|].
  rewrite E in *. rewrite chop_last_line_app.
  apply Forall_app in Hf as [HL Hx]. inversion Hx as [|? ? Hx0 _]; subst.
  split.
  - apply Forall_app. split; [exact HL|]. constructor; [|constructor].
    apply newlines_none. intros Hin. apply removelast_In in Hin.
    now apply newlines_none in Hx0.
  - now rewrite !length_app.
Qed.

(** X12.  No spec and no group name can break a line of the table: the
    line of a spec has no newline in it, and the table of a mapping that
    is not empty has one line to open, for every group a line for its
    name, one for each of its specs and one to close it, and one line to
    close the table. *)
Theorem entrypoints_table_lines (kv : str * list str)
    (eps : list (str * list str)) (s : str) :
  newlines (render_item s) = 0
  /\ newlines (_render_entrypoints (kv :: eps))
     = 1 + list_sum (map (fun g => 2 + length (snd g)) (kv :: eps)).
Proof.
  split; [apply render_item_no_newline|].
  unfold _render_entrypoints.
  destruct (groups_lines_count (kv :: eps)) as [Hf Hl].
  destruct (chop_last_line_lines (lit "{" :: flat_map render_group (kv :: eps)))
    as [Hcf Hcl].
  { constructor; [reflexivity|exact Hf]. }
  rewrite newlines_join_nl, map_app, list_sum_app.
  rewrite (list_sum_zero newlines _ Hcf).
  rewrite length_app, Hcl. cbn [length map]. rewrite Hl.
  change (list_sum [newlines (lit "  }")]) with 0. cbn [map]. lia.
Qed.

Section RequirementLines.

Variable Req : Type.
Variable to_setuptools : Req -> str.

Lemma write_platforms_lines (target : str) (items : list (str * list Req)) :
  newlines target = 0 ->
  newlines (written (write_platforms to_setuptools target items))
  = 2 * length items
  /\ outcome (write_platforms to_setuptools target items) = Ok tt.
Proof.
  intros Ht. induction items as [|[os_name reqs] items [IHn IHo]];
    [split; reflexivity|].
  cbn [write_platforms]. unfold fp_bind, write.
  destruct (write_platforms to_setuptools target items) as [out r].
  cbn [written outcome fst snd] in *. subst r. split; [|reflexivity].
  rewrite !newlines_app, IHn, Ht, repr_no_newline, repr_list_no_newline,
    newlines_nl.
  cbn [length]. change (newlines (lit "if sys.platform.startswith(")) with 0.
  change (newlines (lit "):")) with 0. change (newlines (lit "  ")) with 0.
  change (newlines (lit " += ")) with 0. lia.
Qed.

(** X13.  No requirement and no platform name can break a line: for a
    target name without newline, [_render_requirements] writes the
    assignment of the base list on the first line, then two lines for
    every platform, and raises nothing. *)
Theorem render_requirements_lines (target : str)
    (requirements : Requirements Req) :
  newlines target = 0 ->
  _render_requirements to_setuptools target requirements
  = (target ++ lit " = "
       ++ repr_list (_format_reqs to_setuptools (required requirements))
       ++ nl
       ++ written (write_platforms to_setuptools target
                     (platforms requirements)),
     Ok tt)
  /\ newlines (target ++ lit " = "
               ++ repr_list (_format_reqs to_setuptools (required requirements)))
     = 0
  /\ newlines (written (_render_requirements to_setuptools target requirements))
     = 1 + 2 * length (platforms requirements).
Proof.
  intros Ht.
  destruct (write_platforms_lines target (platforms requirements) Ht)
    as [Hn Ho].
  assert (Heq : _render_requirements to_setuptools target requirements
    = (target ++ lit " = "
       ++ repr_list (_format_reqs to_setuptools (required requirements))
       ++ nl
       ++ written (write_platforms to_setuptools target
                     (platforms requirements)),
     Ok tt)).
  { unfold _render_requirements, fp_bind, write.
    destruct (write_platforms to_setuptools target (platforms requirements))
      as [out r]. cbn [written outcome fst snd] in *. subst r.
    now rewrite <- !app_assoc. }
  split; [exact Heq|]. split.
  - rewrite !newlines_app, Ht, repr_list_no_newline. reflexivity.
  - rewrite Heq. cbn [written fst].
    rewrite !newlines_app, Hn, Ht, repr_list_no_newline, newlines_nl.
    change (newlines (lit " = ")) with 0. lia.
Qed.

End RequirementLines.

Lemma render_requirements_lines_witness :
  newlines
    (written
       (_render_requirements (fun r : str => r) (lit "requirements")
          {| required := [lit "six"; lit "a" ++ nl ++ lit "b"];
             platforms := [(lit "win32", [lit "pywin32"])] |}))
  = 3.
Proof.
  apply (proj2 (proj2 (render_requirements_lines str (fun r => r)
           (lit "requirements")
           {| required := [lit "six"; lit "a" ++ nl ++ lit "b"];
              platforms := [(lit "win32", [lit "pywin32"])] |} eq_refl))).
Defined.

Lemma lstrip_chars_spec (chars s : str) :
  exists lead,
    s = lead ++ lstrip_chars chars s /\
    Forall (fun c => In c chars) lead /\
    (forall c r, lstrip_chars chars s = c :: r -> ~ In c chars).
Proof.
  induction s as [|a s (lead & Hs & Hl & Hr)].
  - exists []. repeat split; [constructor|discriminate].
  - cbn [lstrip_chars]. destruct (existsb (Ascii.eqb a) chars) eqn:E.
    + exists (a :: lead). repeat split.
      * cbn [app]. now rewrite <- Hs.
      * constructor; [now apply in_quotes|exact Hl].
      * exact Hr.
    + exists []. repeat split; [constructor|].
      intros c r [= <- _] Hin. apply in_quotes in Hin. congruence.
Qed.

Lemma write_datafile_calls_lines (package_name : str)
    (datafiles : list DataFile) :
  newlines (written (write_datafile_calls package_name datafiles))
  = length datafiles
  /\ outcome (write_datafile_calls package_name datafiles) = Ok tt.
Proof.
  induction datafiles as [|entry rest [IHn IHo]]; [split; reflexivity|].
  cbn [write_datafile_calls]. unfold fp_bind, write.
  destruct (write_datafile_calls package_name rest) as [out r].
  cbn [written outcome fst snd] in *. subst r. split; [|reflexivity].
  unfold datafile_call.
  rewrite !newlines_app, IHn, !repr_no_newline, !repr_list_no_newline,
    newlines_nl.
  cbn [length]. change (newlines (lit "_collect_data_files(data_files, ")) with 0.
  change (newlines (lit ", ")) with 0. change (newlines (lit ")")) with 0.
  lia.
Qed.

Lemma write_datafile_calls_written (package_name : str)
    (datafiles : list DataFile) :
  written (write_datafile_calls package_name datafiles)
  = flat_map (datafile_call package_name) datafiles.
Proof.
  induction datafiles as [|entry rest IH]; [reflexivity|].
  pose proof (write_datafile_calls_lines package_name rest) as [_ Ho].
  cbn [write_datafile_calls flat_map]. unfold fp_bind, write.
  destruct (write_datafile_calls package_name rest) as [out r].
  cbn [written outcome fst snd] in *. now subst.
Qed.

(** X14.  [_render_datafiles] writes the helper once, then for each rule,
    in order, the line
    [_collect_data_files(data_files, <directory>, <source>, <include>,
    <exclude>)] with each argument as [repr] gives it, then the line that
    turns the mapping into a list, and nothing else: no rule can break a
    line.  The directory written in the line of a rule is
    [data/<package_name>/] followed by the target of the rule without its
    leading slashes. *)
Theorem render_datafiles_lines (package_name : str)
    (datafiles : list DataFile) :
  written (_render_datafiles package_name datafiles)
  = collect_helper
    ++ flat_map (fun entry =>
         lit "_collect_data_files(data_files, "
         ++ repr (lit "data/" ++ package_name ++ lit "/"
                  ++ lstrip_chars (lit "/") (target entry)) ++ lit ", "
         ++ repr (source entry) ++ lit ", "
         ++ repr_list (include entry) ++ lit ", "
         ++ repr_list (exclude entry) ++ lit ")" ++ nl) datafiles
    ++ lit "data_files = list(data_files.items())" ++ nl
  /\ newlines (written (_render_datafiles package_name datafiles))
     = 17 + length datafiles
  /\ outcome (_render_datafiles package_name datafiles) = Ok tt
  /\ (forall entry, In entry datafiles ->
      exists slashes rest before after,
        target entry = slashes ++ rest /\
        Forall (fun c => c = "/"%char) slashes /\
        (forall r, rest <> "/"%char :: r) /\
        written (_render_datafiles package_name datafiles)
        = before
          ++ (lit "_collect_data_files(data_files, "
              ++ repr (lit "data/" ++ package_name ++ lit "/" ++ rest)
              ++ lit ", " ++ repr (source entry) ++ lit ", "
              ++ repr_list (include entry) ++ lit ", "
              ++ repr_list (exclude entry) ++ lit ")" ++ nl)
          ++ after).
Proof.
  destruct (write_datafile_calls_lines package_name datafiles) as [Hn Ho].
  pose proof (write_datafile_calls_written package_name datafiles) as Hw.
  assert (Htext : written (_render_datafiles package_name datafiles)
    = collect_helper ++ flat_map (datafile_call package_name) datafiles
      ++ lit "data_files = list(data_files.items())" ++ nl).
  { unfold _render_datafiles, fp_bind, write.
    destruct (write_datafile_calls package_name datafiles) as [out r].
    cbn [written outcome fst snd] in *. subst r out. cbn [fst].
    reflexivity. }
  split; [|split; [|split]].
  - exact Htext.
  - unfold _render_datafiles, fp_bind, write.
    destruct (write_datafile_calls package_name datafiles) as [out r].
    cbn [written outcome fst snd] in *. subst r. cbn [written fst].
    rewrite !newlines_app, Hn, newlines_nl.
    change (newlines collect_helper) with 16.
    change (newlines (lit "data_files = list(data_files.items())")) with 0.
    cbn [app]. lia.
  - unfold _render_datafiles, fp_bind, write.
    destruct (write_datafile_calls package_name datafiles) as [out r].
    cbn [written outcome fst snd] in *. now subst r.
  - intros entry Hin.
    destruct (lstrip_chars_spec (lit "/") (target entry))
      as (lead & Hs & Hl & Hr).
    destruct (in_split _ _ Hin) as (l1 & l2 & Hd).
    exists lead, (lstrip_chars (lit "/") (target entry)),
      (collect_helper ++ flat_map (datafile_call package_name) l1),
      (flat_map (datafile_call package_name) l2
       ++ lit "data_files = list(data_files.items())" ++ nl).
    split; [exact Hs|]. split.
    { eapply Forall_impl; [|exact Hl]. intros c [Hc|[]]. now symmetry. }
    split.
    { intros r E. apply (Hr _ _ E). now left. }
    rewrite Htext, Hd, flat_map_app. cbn [flat_map].
    set (calls := flat_map (datafile_call package_name)).
    unfold datafile_call, datafile_target.
    rewrite <- !app_assoc. reflexivity.
Qed.

Lemma render_datafiles_lines_witness :
  written (_render_datafiles (lit "pkg")
    [ {| target := lit "//etc/conf"; source := lit "conf";
         include := [lit "*.cfg"]; exclude := [] |} ])
  = collect_helper
    ++ lit "_collect_data_files(data_files, 'data/pkg/etc/conf', 'conf', ['*.cfg'], [])"
    ++ nl ++ lit "data_files = list(data_files.items())" ++ nl
  /\ exists slashes rest before after,
       lit "//etc/conf" = slashes ++ rest /\
       Forall (fun c => c = "/"%char) slashes /\
       (forall r, rest <> "/"%char :: r) /\
       written (_render_datafiles (lit "pkg")
         [ {| target := lit "//etc/conf"; source := lit "conf";
         include := [lit "*.cfg"]; exclude := [] |} ])
       = before
         ++ (lit "_collect_data_files(data_files, "
             ++ repr (lit "data/" ++ lit "pkg" ++ lit "/" ++ rest)
             ++ lit ", " ++ repr (lit "conf") ++ lit ", "
             ++ repr_list [lit "*.cfg"] ++ lit ", "
             ++ repr_list [] ++ lit ")" ++ nl)
         ++ after.
Proof.
  split.
  - rewrite (proj1 (render_datafiles_lines (lit "pkg")
      [ {| target := lit "//etc/conf"; source := lit "conf";
         include := [lit "*.cfg"]; exclude := [] |} ])).
    reflexivity.
  - apply (proj2 (proj2 (proj2 (render_datafiles_lines (lit "pkg")
      [ {| target := lit "//etc/conf"; source := lit "conf";
         include := [lit "*.cfg"]; exclude := [] |} ])))
      {| target := lit "//etc/conf"; source := lit "conf";
         include := [lit "*.cfg"]; exclude := [] |}).
    left. reflexivity.
Defined.

Lemma fold_left_expand (pkgs acc : list str) :
  fold_left (fun acc pkg => acc ++ [pkg] ++ [pkg ++ lit ".*"]) pkgs acc
  = acc ++ flat_map (fun pkg => [pkg; pkg ++ lit ".*"]) pkgs.
Proof.
  revert acc; induction pkgs as [|p pkgs IH]; intros acc.
  - simpl. now rewrite app_nil_r.
  - cbn [fold_left flat_map]. rewrite IH, <- !app_assoc. reflexivity.
Qed.

(** X15.  The exclude list of [find_packages] has, for every excluded
    package and in the order given, the package and then the pattern for
    what is below it; it has nothing else. *)
Theorem exclude_packages_expanded (pkgs : list str) :
  length (expand_exclude_packages pkgs) = 2 * length pkgs
  /\ (forall i p, nth_error pkgs i = Some p ->
        nth_error (expand_exclude_packages pkgs) (2 * i) = Some p /\
        nth_error (expand_exclude_packages pkgs) (2 * i + 1)
        = Some (p ++ lit ".*"))
  /\ (forall x, In x (expand_exclude_packages pkgs) ->
        exists p, In p pkgs /\ (x = p \/ x = p ++ lit ".*")).
Proof.
  unfold expand_exclude_packages. rewrite fold_left_expand. cbn [app].
  split; [|split].
  - induction pkgs as [|p pkgs IH]; [reflexivity|].
    cbn [flat_map app length]. rewrite IH. lia.
  - induction pkgs as [|p pkgs IH]; intros i q Hi.
    + destruct i; discriminate.
    + destruct i as [|i].
      * injection Hi as ->. split; reflexivity.
      * cbn [nth_error] in Hi. destruct (IH i q Hi) as [H0 H1].
        replace (2 * S i) with (S (S (2 * i))) by lia.
        replace (S (S (2 * i)) + 1) with (S (S (2 * i + 1))) by lia.
        cbn [flat_map app nth_error]. now split.
  - intros x Hin. apply in_flat_map in Hin as (p & Hp & [<-|[<-|[]]]);
      exists p; auto.
Qed.

Lemma exclude_packages_expanded_witness :
  nth_error (expand_exclude_packages [lit "tests"; lit "foo.bar"]) 2
  = Some (lit "foo.bar")
  /\ nth_error (expand_exclude_packages [lit "tests"; lit "foo.bar"]) 3
     = Some (lit "foo.bar.*").
Proof.
  exact (proj1 (proj2 (exclude_packages_expanded [lit "tests"; lit "foo.bar"]))
           1 (lit "foo.bar") eq_refl).
Defined.
